(** * S3IO: low level byte IO over an object store and its on-disk emulation

    A shallow embedding of [datacube/drivers/s3/storage/s3aio/s3io.py].

    Byte counts, offsets and part numbers are natural numbers; a payload is
    a list of bytes (a one-dimensional buffer of item size 1, which is what
    [memoryview(data)] is for a [bytes] argument).  Offsets stay far below
    2^53, where the float quotient [nbytes / float(block_size)] and its
    ceiling are exact, so [np.ceil] is taken over the exact quotient. *)

From Stdlib Require Import String.
From Stdlib Require Import List Arith Lia Bool.
From Stdlib Require Import Sorted Permutation.
Import ListNotations.

Set Implicit Arguments.

Abbreviation bytes := (list Byte.byte) (only parsing).

(** ** Python primitives *)

(** [data[start:end]] for non-negative indices. *)
Definition py_slice {A : Type} (data : list A) (start end_ : nat) : list A :=
  firstn (end_ - start) (skipn start data).

(** [int(np.ceil(n / float(b)))] for [b > 0]. *)
Definition np_ceil_div (n b : nat) : nat :=
  if n mod b =? 0 then n / b else S (n / b).

(** ** Multipart chunking *)

Module Chunking.

(** The body of both upload loops:
      start = block_number * block_size
      end = (block_number + 1) * block_size
      if end > nbytes: end = nbytes *)
Definition block_range (nbytes block_size block_number : nat) : nat * nat :=
  let start := block_number * block_size in
  let end_ := (block_number + 1) * block_size in
  (start, if nbytes <? end_ then nbytes else end_).

Definition num_blocks (nbytes block_size : nat) : nat :=
  np_ceil_div nbytes block_size.

(** [put_bytes_mpu]: the (part number, chunk) pairs of the sequential loop. *)
Definition put_bytes_mpu_parts (data : bytes) (block_size : nat)
  : list (nat * bytes) :=
  let nbytes := length data in
  map (fun block_number =>
         let part_number := block_number + 1 in
         let '(start, end_) := block_range nbytes block_size block_number in
         (part_number, py_slice data start end_))
      (seq 0 (num_blocks nbytes block_size)).

(** [put_bytes_mpu_mp]: the list [data_chunks] built before the fan-out. *)
Definition put_bytes_mpu_mp_chunks (data : bytes) (block_size : nat)
  : list bytes :=
  let nbytes := length data in
  map (fun block_number =>
         let '(start, end_) := block_range nbytes block_size block_number in
         py_slice data start end_)
      (seq 0 (num_blocks nbytes block_size)).

(** The byte ranges of a chunked transfer, in block order. *)
Definition chunk_ranges (nbytes block_size : nat) : list (nat * nat) :=
  map (block_range nbytes block_size) (seq 0 (num_blocks nbytes block_size)).

Definition in_range (r : nat * nat) (x : nat) : Prop :=
  fst r <= x < snd r.

End Chunking.

(** ** Exceptions, results and effects *)

Inductive exn : Type :=
| ClientError (code : string)        (* botocore.exceptions.ClientError *)
| ReadTimeoutError (msg : string)    (* urllib3 read timeout *)
| TransportError (msg : string)      (* any other failure of a request *)
| RuntimeError (origin what : string) (last_error : option string)
| ClientErrorCode (code : nat)       (* Exception("ClientError", error_code) *)
| ZeroDivisionError
| ValueError (msg : string)
| TypeError (msg : string)
| KeyError (name : string)
| OSError (msg : string).            (* FileExistsError, IsADirectoryError, ... *)

(** [str(e)] *)
Definition str (e : exn) : string :=
  match e with
  | ClientError code => code
  | ReadTimeoutError msg => msg
  | TransportError msg => msg
  | RuntimeError origin what _ => (origin ++ ": " ++ what)%string
  | ClientErrorCode _ => "ClientError"%string
  | ZeroDivisionError => "float division by zero"%string
  | ValueError msg => msg
  | TypeError msg => msg
  | KeyError name => name
  | OSError msg => msg
  end.

(** [str(type(e))] *)
Definition type_name (e : exn) : string :=
  match e with
  | ClientError _ => "ClientError"
  | ReadTimeoutError _ => "ReadTimeoutError"
  | TransportError _ => "TransportError"
  | RuntimeError _ _ _ => "RuntimeError"
  | ClientErrorCode _ => "Exception"
  | ZeroDivisionError => "ZeroDivisionError"
  | ValueError _ => "ValueError"
  | TypeError _ => "TypeError"
  | KeyError _ => "KeyError"
  | OSError _ => "OSError"
  end%string.

Definition is_client_error (e : exn) : bool :=
  match e with ClientError _ => true | _ => false end.

Inductive result (A : Type) : Type :=
| Return (a : A)
| Raise (e : exn).
Arguments Return {A} a.
Arguments Raise {A} e.

Abbreviation bucket := string (only parsing).
(** An object key, split at its "/" separators. *)
Abbreviation key := (list string) (only parsing).
Abbreviation path := (list string) (only parsing).

(** The requests of the object store's client API. *)
Inductive s3_call : Type :=
| ListObjects (b : bucket) (prefix : key) (max_keys : nat)
| DeleteObjects (b : bucket) (keys : list key)
| PutObject (b : bucket) (k : key) (body : bytes)
| GetObject (b : bucket) (k : key) (range : option (nat * nat))
| DownloadFileobj (b : bucket) (k : key)
| CreateMultipartUpload (b : bucket) (k : key)
| UploadPart (b : bucket) (k : key) (upload_id part_number : nat) (body : bytes)
| CompleteMultipartUpload (b : bucket) (k : key) (upload_id : nat)
    (parts : list (nat * string))
| AbortMultipartUpload (b : bucket) (k : key) (upload_id : nat).

Inductive effect : Type :=
| Request (c : s3_call)
| Print (words : list string)
| Sleep (seconds : nat).

(** ** The world: the remote store, the local disk and shared memory *)

Inductive node : Type :=
| File (content : bytes)
| Dir.

(** Entries by absolute path; the first entry of a path is the live one.
    The root [[]] is always a directory and has no entry. *)
Abbreviation filesystem := (list (list string * node)) (only parsing).

Record world : Type := mkWorld {
  objects : list (bucket * key * bytes);      (* remote objects *)
  uploads : list (nat * list (nat * bytes));  (* open multipart uploads *)
  next_upload : nat;
  etag_of : bytes -> string;
  fault : nat -> option exn;                  (* failure of the n-th request *)
  clock : nat;                                (* requests made so far *)
  disk : filesystem;
  shm : list (string * bytes);                (* named shared arrays *)
  uuid4 : string;
  pid : string;
  darwin : bool
}.

Definition set_objects (o : list (bucket * key * bytes)) (w : world) : world :=
  mkWorld o (uploads w) (next_upload w) (etag_of w) (fault w) (clock w)
          (disk w) (shm w) (uuid4 w) (pid w) (darwin w).
Definition set_uploads (u : list (nat * list (nat * bytes))) (n : nat)
  (w : world) : world :=
  mkWorld (objects w) u n (etag_of w) (fault w) (clock w)
          (disk w) (shm w) (uuid4 w) (pid w) (darwin w).
Definition set_clock (c : nat) (w : world) : world :=
  mkWorld (objects w) (uploads w) (next_upload w) (etag_of w) (fault w) c
          (disk w) (shm w) (uuid4 w) (pid w) (darwin w).
Definition set_disk (d : filesystem) (w : world) : world :=
  mkWorld (objects w) (uploads w) (next_upload w) (etag_of w) (fault w)
          (clock w) d (shm w) (uuid4 w) (pid w) (darwin w).
Definition set_shm (m : list (string * bytes)) (w : world) : world :=
  mkWorld (objects w) (uploads w) (next_upload w) (etag_of w) (fault w)
          (clock w) (disk w) m (uuid4 w) (pid w) (darwin w).

(** ** A monad of state, exceptions and logged effects *)

Record outcome (A : Type) : Type := mkOutcome {
  res : result A;
  final : world;
  log : list effect
}.

Definition M (A : Type) : Type := world -> outcome A.

Definition ret {A} (a : A) : M A := fun w => mkOutcome (Return a) w [].
Definition raise {A} (e : exn) : M A := fun w => mkOutcome (Raise e) w [].

Definition bind {A B} (m : M A) (k : A -> M B) : M B :=
  fun w =>
    let o := m w in
    match res o with
    | Raise e => mkOutcome (Raise e) (final o) (log o)
    | Return a =>
        let o' := k a (final o) in
        mkOutcome (res o') (final o') (log o ++ log o')
    end.

(** [try: ... except Exception as e: ...] with the outcome made a value. *)
Definition attempt {A} (m : M A) : M (result A) :=
  fun w => let o := m w in mkOutcome (Return (res o)) (final o) (log o).

Definition lift {A} (r : result A) : M A :=
  match r with Return a => ret a | Raise e => raise e end.

(** The same sequencing for code that only computes or fails. *)
Definition rbind {A B} (r : result A) (k : A -> result B) : result B :=
  match r with Return a => k a | Raise e => Raise e end.

Definition get_world : M world := fun w => mkOutcome (Return w) w [].
Definition put_world (w' : world) : M unit :=
  fun _ => mkOutcome (Return tt) w' [].
Definition emit (e : effect) : M unit :=
  fun w => mkOutcome (Return tt) w [e].
Definition print (words : list string) : M unit := emit (Print words).

Declare Scope monad_scope.
Delimit Scope monad_scope with monad.
Notation "x <- m ;; k" := (bind m (fun x => k))
  (at level 61, m at next level, right associativity) : monad_scope.
Notation "m ;; k" := (bind m (fun _ => k))
  (at level 61, right associativity) : monad_scope.
Notation "'let?' x := r 'in' k" := (rbind r (fun x => k))
  (at level 10, x name, r at level 100, k at level 200) : monad_scope.
Open Scope monad_scope.

Definition for_each {A} (xs : list A) (body : A -> M unit) : M unit :=
  fold_right (fun x rest => body x;; rest) (ret tt) xs.

(** ** The object store behind the client (outside the repository)

    Every request is logged, advances the request clock and fails with the
    transport's fault for that request, if there is one.  A missing object
    is a [ClientError]; a ranged read answers what the store answers to
    the range header the code sends. *)

Module S3.

Definition key_eqb (a b : key) : bool :=
  if list_eq_dec string_dec a b then true else false.

Definition same_object (b : bucket) (k : key) (o : bucket * key * bytes) : bool :=
  String.eqb (fst (fst o)) b && key_eqb (snd (fst o)) k.

Definition find_object (os : list (bucket * key * bytes)) (b : bucket) (k : key)
  : option bytes :=
  option_map snd (find (same_object b k) os).

Definition request (c : s3_call) : M unit :=
  fun w =>
    mkOutcome (match fault w (clock w) with
               | Some e => Raise e
               | None => Return tt
               end)
              (set_clock (S (clock w)) w) [Request c].

Definition store_object (b : bucket) (k : key) (body : bytes) : M unit :=
  w <- get_world;;
  put_world (set_objects
               ((b, k, body) :: filter (fun o => negb (same_object b k o)) (objects w))
               w).

Definition load_object (b : bucket) (k : key) (missing : string) : M bytes :=
  w <- get_world;;
  match find_object (objects w) b k with
  | Some d => ret d
  | None => raise (ClientError missing)
  end.

Definition put_object (b : bucket) (k : key) (body : bytes) : M unit :=
  request (PutObject b k body);;
  store_object b k body.

Definition get_object (b : bucket) (k : key) : M bytes :=
  request (GetObject b k None);;
  load_object b k "NoSuchKey".

(** [get(Range='bytes=' + str(start) + '-' + str(end_ - 1))], logged with
    the two numbers the header is made of.  The header asks for the bytes
    [start] to [end_ - 1].  When [end_ - 1] lies before [start] the header
    is malformed and the store ignores it: it answers the whole object.  A
    first byte at or beyond the object's size is refused (416, a
    [ClientError]).  Otherwise the answer is the range, clipped to the
    object's size. *)
Definition get_object_range (b : bucket) (k : key) (start end_ : nat) : M bytes :=
  request (GetObject b k (Some (start, end_)));;
  d <- load_object b k "NoSuchKey";;
  if end_ <=? start then ret d
  else if length d <=? start then raise (ClientError "InvalidRange")
  else ret (py_slice d start end_).

Definition download_fileobj (b : bucket) (k : key) : M bytes :=
  request (DownloadFileobj b k);;
  load_object b k "404".

Definition key_str (k : key) : string := String.concat "/" k.

(** The keys of a listing, [None] when the response has no ['Contents']. *)
Definition list_objects (b : bucket) (prefix : key) (max_keys : nat)
  : M (option (list key)) :=
  request (ListObjects b prefix max_keys);;
  w <- get_world;;
  let keys :=
    map (fun o => snd (fst o))
        (filter (fun o => String.eqb (fst (fst o)) b
                          && String.prefix (key_str prefix) (key_str (snd (fst o))))
                (objects w)) in
  match firstn max_keys keys with
  | [] => ret None
  | ks => ret (Some ks)
  end.

Definition delete_objects (b : bucket) (keys : list key) : M (list key) :=
  request (DeleteObjects b keys);;
  w <- get_world;;
  put_world (set_objects
               (filter (fun o => negb (existsb (fun k => same_object b k o) keys))
                       (objects w)) w);;
  ret keys.

Record mpu_response : Type := mkResponse {
  resp_bucket : bucket;
  resp_key : key;
  resp_etag : string
}.

Definition find_upload (us : list (nat * list (nat * bytes))) (id : nat)
  : option (list (nat * bytes)) :=
  option_map snd (find (fun u => fst u =? id) us).

Definition drop_upload (us : list (nat * list (nat * bytes))) (id : nat) :=
  filter (fun u => negb (fst u =? id)) us.

Definition create_multipart_upload (b : bucket) (k : key) : M nat :=
  request (CreateMultipartUpload b k);;
  w <- get_world;;
  let id := next_upload w in
  put_world (set_uploads ((id, []) :: uploads w) (S id) w);;
  ret id.

Definition upload_part (b : bucket) (k : key) (upload_id part_number : nat)
  (body : bytes) : M string :=
  request (UploadPart b k upload_id part_number body);;
  w <- get_world;;
  match find_upload (uploads w) upload_id with
  | None => raise (ClientError "NoSuchUpload")
  | Some ps =>
      let ps' :=
        (part_number, body) :: filter (fun p => negb (fst p =? part_number)) ps in
      put_world (set_uploads ((upload_id, ps') :: drop_upload (uploads w) upload_id)
                             (next_upload w) w);;
      ret (etag_of w body)
  end.

Fixpoint ascending (ns : list nat) : bool :=
  match ns with
  | a :: (b :: _) as rest => (a <? b) && ascending rest
  | _ => true
  end.

Fixpoint assemble (etag : bytes -> string) (stored : list (nat * bytes))
  (parts : list (nat * string)) : option bytes :=
  match parts with
  | [] => Some []
  | (n, t) :: rest =>
      match find (fun p => fst p =? n) stored, assemble etag stored rest with
      | Some (_, body), Some tail =>
          if String.eqb (etag body) t then Some (body ++ tail) else None
      | _, _ => None
      end
  end.

Definition complete_multipart_upload (b : bucket) (k : key) (upload_id : nat)
  (parts : list (nat * string)) : M mpu_response :=
  request (CompleteMultipartUpload b k upload_id parts);;
  w <- get_world;;
  match find_upload (uploads w) upload_id with
  | None => raise (ClientError "NoSuchUpload")
  | Some stored =>
      if negb (ascending (map fst parts)) then raise (ClientError "InvalidPartOrder")
      else match parts, assemble (etag_of w) stored parts with
           | [], _ => raise (ClientError "MalformedXML")
           | _, None => raise (ClientError "InvalidPart")
           | _, Some body =>
               put_world (set_uploads (drop_upload (uploads w) upload_id)
                                      (next_upload w) w);;
               store_object b k body;;
               ret (mkResponse b k (etag_of w body))
           end
  end.

End S3.

(** ** The local disk *)

Module FS.

Definition path_eqb (p q : path) : bool :=
  if list_eq_dec string_dec p q then true else false.

Definition lookup (fs : filesystem) (p : path) : option node :=
  match p with
  | [] => Some Dir
  | _ => option_map snd (find (fun e => path_eqb (fst e) p) fs)
  end.

Definition exists_ (fs : filesystem) (p : path) : bool :=
  match lookup fs p with Some _ => true | None => false end.

Definition is_file (fs : filesystem) (p : path) : bool :=
  match lookup fs p with Some (File _) => true | _ => false end.

Definition is_dir (fs : filesystem) (p : path) : bool :=
  match lookup fs p with Some Dir => true | _ => false end.

(** [p.parent]; the root is its own parent. *)
Definition parent (p : path) : path := removelast p.

Definition is_child (d q : path) : bool :=
  match q with
  | [] => false
  | _ => path_eqb (parent q) d
  end.

Definition children (fs : filesystem) (d : path) : list path :=
  map fst (filter (fun e => is_child d (fst e)) fs).

(** [list(d.iterdir())] *)
Definition iterdir (fs : filesystem) (d : path) : result (list path) :=
  if is_dir fs d then Return (children fs d)
  else Raise (OSError "iterdir: not a directory").

Definition remove (fs : filesystem) (p : path) : filesystem :=
  filter (fun e => negb (path_eqb (fst e) p)) fs.

(** [p.unlink()] *)
Definition unlink (fs : filesystem) (p : path) : result filesystem :=
  if is_file fs p then Return (remove fs p)
  else Raise (OSError "unlink: not a file").

(** [d.rmdir()] *)
Definition rmdir (fs : filesystem) (d : path) : result filesystem :=
  match d with
  | [] => Raise (OSError "rmdir: device or resource busy")
  | _ =>
      if negb (is_dir fs d) then Raise (OSError "rmdir: not a directory")
      else match children fs d with
           | [] => Return (remove fs d)
           | _ => Raise (OSError "rmdir: directory not empty")
           end
  end.

(** [d.mkdir(parents=True, exist_ok=True)], over the prefixes of [d] from
    the outermost one. *)
Fixpoint mkdir_chain (fs : filesystem) (prefixes : list path) : result filesystem :=
  match prefixes with
  | [] => Return fs
  | d :: rest =>
      match lookup fs d with
      | Some Dir => mkdir_chain fs rest
      | Some (File _) => Raise (OSError "mkdir: file exists")
      | None => mkdir_chain ((d, Dir) :: fs) rest
      end
  end.

Definition prefixes (p : path) : list path :=
  map (fun n => firstn n p) (seq 1 (length p)).

Definition mkdir_parents (fs : filesystem) (d : path) : result filesystem :=
  mkdir_chain fs (prefixes d).

(** [with p.open('wb') as fh: fh.write(data)] *)
Definition write_bytes (fs : filesystem) (p : path) (data : bytes)
  : result filesystem :=
  if is_dir fs p then Raise (OSError "open: is a directory")
  else if negb (is_dir fs (parent p)) then Raise (OSError "open: no such directory")
  else Return ((p, File data) :: remove fs p).

(** [open(p, "rb")] followed by [read()] *)
Definition read_bytes (fs : filesystem) (p : path) : result bytes :=
  match lookup fs p with
  | Some (File d) => Return d
  | Some Dir => Raise (OSError "open: is a directory")
  | None => Raise (OSError "open: no such file")
  end.

(** [f.seek(start, 0); f.read(end_ - start)] on a file holding [d]: a
    length of -1 reads to the end of the file, any other negative length
    is refused. *)
Definition read_range (d : bytes) (start end_ : nat) : result bytes :=
  if start <=? end_ then Return (py_slice d start end_)
  else if start =? end_ + 1 then Return (skipn start d)
  else Raise (ValueError "read length must be non-negative or -1").

Fixpoint is_prefix (p q : path) : bool :=
  match p, q with
  | [], _ => true
  | a :: p', b :: q' => String.eqb a b && is_prefix p' q'
  | _ :: _, [] => false
  end.

Definition strictly_below (d q : path) : bool :=
  is_prefix d q && (length d <? length q).

(** [d.glob('**/*')]: every entry below [d], at any depth. *)
Definition glob_all (fs : filesystem) (d : path) : list path :=
  map fst (filter (fun e => strictly_below d (fst e)) fs).

(** [p.relative_to(d)] for [p] below [d]. *)
Definition relative_to (d p : path) : path := skipn (length d) p.

End FS.

(** ** Shared arrays ([SharedArray]) *)

Module SA.

Definition find_array (m : list (string * bytes)) (name : string) : option bytes :=
  option_map snd (find (fun a => String.eqb (fst a) name) m).

Definition drop_array (m : list (string * bytes)) (name : string) :=
  filter (fun a => negb (String.eqb (fst a) name)) m.

(** [sa.create(name, shape=n, dtype=np.uint8)]: a zero-filled array. *)
Definition create (name : string) (n : nat) : M unit :=
  w <- get_world;;
  match find_array (shm w) name with
  | Some _ => raise (OSError "create: file exists")
  | None => put_world (set_shm ((name, repeat Byte.x00 n) :: shm w) w)
  end.

(** [sa.attach(name)]: a handle on the array of that name. *)
Definition attach (name : string) : M string :=
  w <- get_world;;
  match find_array (shm w) name with
  | Some _ => ret name
  | None => raise (OSError "attach: no such array")
  end.

(** The content seen through a handle, and a write through it. *)
Definition load (handle : string) : M bytes :=
  w <- get_world;;
  match find_array (shm w) handle with
  | Some a => ret a
  | None => raise (OSError "load: no such array")
  end.

Definition store (handle : string) (a : bytes) : M unit :=
  w <- get_world;;
  put_world (set_shm ((handle, a) :: drop_array (shm w) handle) w).

(** [sa.delete(name)] *)
Definition delete (name : string) : M unit :=
  w <- get_world;;
  match find_array (shm w) name with
  | Some _ => put_world (set_shm (drop_array (shm w) name) w)
  | None => raise (OSError "delete: no such array")
  end.

(** [a[start:end] = d] on a one-dimensional uint8 array: the slice is
    clipped to the array, a value of matching length is copied, a value of
    length one is broadcast, anything else is refused. *)
Definition setslice (a : bytes) (start end_ : nat) (d : option bytes)
  : result bytes :=
  match d with
  | None => Raise (TypeError "int() argument must be a number, not 'NoneType'")
  | Some d =>
      let lo := Nat.min start (length a) in
      let hi := Nat.max lo (Nat.min end_ (length a)) in
      if length d =? hi - lo then Return (firstn lo a ++ d ++ skipn hi a)
      else match d with
           | [x] => Return (firstn lo a ++ repeat x (hi - lo) ++ skipn hi a)
           | _ => Raise (ValueError "could not broadcast input array")
           end
  end.

End SA.

(** ** The worker pool ([pathos] [ProcessPool.map])

    The tasks run in the pool's completion order [sched], a permutation of
    the task indices.  Each outcome is stored at the index of its task;
    when all tasks are done the call raises the first failure to arrive,
    or else returns the values in task order. *)

Module Pool.

Fixpoint run_tasks {A B} (f : A -> M B) (tasks : list A) (sched : list nat)
  : M (list (nat * result B)) :=
  match sched with
  | [] => ret []
  | i :: rest =>
      match nth_error tasks i with
      | None => run_tasks f tasks rest
      | Some t =>
          r <- attempt (f t);;
          rs <- run_tasks f tasks rest;;
          ret ((i, r) :: rs)
      end
  end.

Fixpoint first_failure {B} (arrivals : list (nat * result B)) : option exn :=
  match arrivals with
  | [] => None
  | (_, Raise e) :: _ => Some e
  | (_, Return _) :: rest => first_failure rest
  end.

Definition slot {B} (arrivals : list (nat * result B)) (i : nat) : list B :=
  match find (fun a => fst a =? i) arrivals with
  | Some (_, Return v) => [v]
  | _ => []
  end.

Definition collect {B} (n : nat) (arrivals : list (nat * result B)) : list B :=
  flat_map (slot arrivals) (seq 0 n).

Definition map {A B} (f : A -> M B) (tasks : list A) (sched : list nat)
  : M (list B) :=
  arrivals <- run_tasks f tasks sched;;
  match first_failure arrivals with
  | Some e => raise e
  | None => ret (collect (length tasks) arrivals)
  end.

Definition is_schedule (n : nat) (sched : list nat) : bool :=
  (length sched =? n)
  && forallb (fun i => existsb (Nat.eqb i) sched) (seq 0 n).

End Pool.

(** ** The S3IO class *)

Record S3IO : Type := mkS3IO {
  enable_s3 : bool;     (* true: the object store; false: the disk *)
  file_path : path      (* root directory of the emulated buckets *)
}.

(** [int(s)] for a string of decimal digits. *)
Definition digit (c : Ascii.ascii) : option nat :=
  let n := Ascii.nat_of_ascii c in
  if (48 <=? n) && (n <=? 57) then Some (n - 48) else None.

Fixpoint py_int_from (acc : nat) (s : string) : option nat :=
  match s with
  | EmptyString => Some acc
  | String c rest =>
      match digit c with
      | Some d => py_int_from (10 * acc + d) rest
      | None => None
      end
  end.

Definition py_int (s : string) : result nat :=
  match s with
  | EmptyString => Raise (ValueError "invalid literal for int()")
  | _ => match py_int_from 0 s with
         | Some n => Return n
         | None => Raise (ValueError "invalid literal for int()")
         end
  end.

(** [except botocore.exceptions.ClientError as e:
       error_code = int(e.response['Error']['Code'])
       raise Exception("ClientError", error_code)] *)
Definition reraise_client_error {A} (m : M A) : M A :=
  r <- attempt m;;
  match r with
  | Return a => ret a
  | Raise (ClientError code) =>
      error_code <- lift (py_int code);;
      raise (ClientErrorCode error_code)
  | Raise e => raise e
  end.

Definition read_disk {A} (f : filesystem -> result A) : M A :=
  w <- get_world;; lift (f (disk w)).

Definition update_disk (f : filesystem -> result filesystem) : M unit :=
  w <- get_world;;
  fs <- lift (f (disk w));;
  put_world (set_disk fs w).

Definition local_path (self : S3IO) (s3_bucket : bucket) (s3_key : key) : path :=
  file_path self ++ [s3_bucket] ++ s3_key.

(** *** list_objects *)

Definition list_objects_local (fs : filesystem) (directory : path) (prefix : key)
  : list key :=
  if FS.exists_ fs directory then
    map (FS.relative_to directory)
        (filter (FS.is_file fs) (FS.glob_all fs (directory ++ prefix)))
  else [].

Definition list_objects (self : S3IO) (s3_bucket : bucket) (prefix : key)
  (max_keys : nat) : M (list key) :=
  if enable_s3 self then
    reraise_client_error
      (objects <- S3.list_objects s3_bucket prefix max_keys;;
       match objects with
       | None => ret []
       | Some _ =>
           again <- S3.list_objects s3_bucket prefix max_keys;;
           match again with
           | Some contents => ret contents
           | None => raise (KeyError "Contents")
           end
       end)
  else
    read_disk (fun fs =>
      Return (list_objects_local fs (file_path self ++ [s3_bucket]) prefix)).

(** *** delete_objects *)

(** [while not list(parent.iterdir()):
        parent.rmdir()
        if parent.parent == parent: break
        parent = parent.parent]
    over the reversed components of [parent], whose tail is the parent's
    parent and whose end is the root. *)
Fixpoint remove_empty_parents (fs : filesystem) (rparent : list string)
  : result filesystem :=
  let parent := rev rparent in
  let? entries := FS.iterdir fs parent in
  match entries with
  | _ :: _ => Return fs
  | [] =>
      let? fs' := FS.rmdir fs parent in
      match rparent with
      | [] => Return fs'
      | _ :: up => remove_empty_parents fs' up
      end
  end.

Definition delete_local_key (directory : path) (k : key)
  (st : filesystem * list key) : result (filesystem * list key) :=
  let '(fs, response) := st in
  let filepath := directory ++ k in
  if FS.exists_ fs filepath && FS.is_file fs filepath then
    let? fs1 := FS.unlink fs filepath in
    let response := response ++ [k] in
    let? fs2 := remove_empty_parents fs1 (rev (FS.parent filepath)) in
    Return (fs2, response)
  else Return (fs, response).

Fixpoint delete_objects_local (directory : path) (keys : list key)
  (st : filesystem * list key) : result (filesystem * list key) :=
  match keys with
  | [] => Return st
  | k :: rest =>
      let? st' := delete_local_key directory k st in
      delete_objects_local directory rest st'
  end.

Definition delete_objects (self : S3IO) (s3_bucket : bucket) (keys : list key)
  : M (list key) :=
  if enable_s3 self then S3.delete_objects s3_bucket keys
  else
    w <- get_world;;
    st <- lift (delete_objects_local (file_path self ++ [s3_bucket]) keys
                                     (disk w, []));;
    put_world (set_disk (fst st) w);;
    ret (snd st).

(** *** put_bytes *)

Definition is_read_timeout (e : exn) : bool :=
  match e with ReadTimeoutError _ => true | _ => false end.

(** [for attempt in range(10): try: ...; return
                               except ...: last_error = str(e); continue]
    and the [raise RuntimeError(...)] after the loop. *)
Fixpoint put_bytes_attempts (attempts : list nat) (last_error : option string)
  (s3_bucket : bucket) (s3_key : key) (data : bytes) : M unit :=
  match attempts with
  | [] => raise (RuntimeError "s3io.put_bytes" "exceeded max retries" last_error)
  | _ :: rest =>
      r <- attempt (S3.put_object s3_bucket s3_key data);;
      match r with
      | Return _ => ret tt
      | Raise e =>
          let last_error := str e in
          print [if is_read_timeout e then "error - s3io.put_bytes()"
                 else "error u - s3io.put_bytes()";
                 type_name e; last_error]%string;;
          put_bytes_attempts rest (Some last_error) s3_bucket s3_key data
      end
  end.

Definition put_bytes (self : S3IO) (s3_bucket : bucket) (s3_key : key)
  (data : bytes) : M unit :=
  if enable_s3 self then
    put_bytes_attempts (seq 0 10) None s3_bucket s3_key data
  else
    let filepath := local_path self s3_bucket s3_key in
    update_disk (fun fs => FS.mkdir_parents fs (FS.parent filepath));;
    update_disk (fun fs => FS.write_bytes fs filepath data).

(** *** put_bytes_mpu, put_bytes_mpu_mp *)

Definition mpu_num_blocks (nbytes block_size : nat) : M nat :=
  if block_size =? 0 then raise ZeroDivisionError
  else ret (Chunking.num_blocks nbytes block_size).

(** The sequential loop: upload each part and append it to [Parts]. *)
Fixpoint upload_parts (s3_bucket : bucket) (s3_key : key) (upload_id : nat)
  (parts : list (nat * bytes)) (parts_dict : list (nat * string))
  : M (list (nat * string)) :=
  match parts with
  | [] => ret parts_dict
  | (part_number, data_chunk) :: rest =>
      etag <- S3.upload_part s3_bucket s3_key upload_id part_number data_chunk;;
      upload_parts s3_bucket s3_key upload_id rest
                   (parts_dict ++ [(part_number, etag)])
  end.

Definition put_bytes_mpu (self : S3IO) (s3_bucket : bucket) (s3_key : key)
  (data : bytes) (block_size : nat) : M (option S3.mpu_response) :=
  if negb (enable_s3 self) then
    put_bytes self s3_bucket s3_key data;; ret None
  else
    mpu <- S3.create_multipart_upload s3_bucket s3_key;;
    _ <- mpu_num_blocks (length data) block_size;;
    parts_dict <- upload_parts s3_bucket s3_key mpu
                    (Chunking.put_bytes_mpu_parts data block_size) [];;
    mpu_response <- S3.complete_multipart_upload s3_bucket s3_key mpu parts_dict;;
    ret (Some mpu_response).

Definition work_put (s3_bucket : bucket) (s3_key : key) (mpu : nat)
  (task : nat * bytes) : M (nat * string) :=
  let '(block_number, data) := task in
  etag <- S3.upload_part s3_bucket s3_key mpu (block_number + 1) data;;
  ret (block_number + 1, etag).

Definition put_bytes_mpu_mp (self : S3IO) (s3_bucket : bucket) (s3_key : key)
  (data : bytes) (block_size : nat) (sched : list nat)
  : M (option S3.mpu_response) :=
  if negb (enable_s3 self) then
    put_bytes self s3_bucket s3_key data;; ret None
  else
    mpu <- S3.create_multipart_upload s3_bucket s3_key;;
    num_blocks <- mpu_num_blocks (length data) block_size;;
    let data_chunks := Chunking.put_bytes_mpu_mp_chunks data block_size in
    let blocks := seq 0 num_blocks in
    results <- Pool.map (work_put s3_bucket s3_key mpu)
                        (combine blocks data_chunks) sched;;
    let parts_dict := [] ++ results in
    mpu_response <- S3.complete_multipart_upload s3_bucket s3_key mpu parts_dict;;
    ret (Some mpu_response).

(** *** get_bytes *)

Fixpoint get_bytes_attempts (attempts : list nat) (last_error : option string)
  (s3_bucket : bucket) (s3_key : key) : M (option bytes) :=
  match attempts with
  | [] => raise (RuntimeError "s3io.get_bytes" "exceeded max retries" last_error)
  | _ :: rest =>
      r <- attempt (S3.get_object s3_bucket s3_key);;
      match r with
      | Return d => ret (Some d)
      | Raise e =>
          let last_error := str e in
          print [if is_read_timeout e then "error - s3io.get_bytes()"
                 else "error u - s3io.get_bytes()";
                 type_name e; last_error]%string;;
          get_bytes_attempts rest (Some last_error) s3_bucket s3_key
      end
  end.

Definition get_bytes (self : S3IO) (s3_bucket : bucket) (s3_key : key)
  (use_new : bool) : M (option bytes) :=
  if enable_s3 self then
    if use_new then
      d <- S3.download_fileobj s3_bucket s3_key;; ret (Some d)
    else get_bytes_attempts (seq 0 10) None s3_bucket s3_key
  else
    let directory := file_path self ++ [s3_bucket] in
    w <- get_world;;
    if negb (FS.exists_ (disk w) directory
             && FS.exists_ (disk w) (directory ++ s3_key))
    then ret None
    else d <- lift (FS.read_bytes (disk w) (directory ++ s3_key));; ret (Some d).

(** *** get_byte_range, get_byte_range_mp *)

Definition get_byte_range (self : S3IO) (s3_bucket : bucket) (s3_key : key)
  (s3_start s3_end : nat) : M (option bytes) :=
  if enable_s3 self then
    r <- attempt (S3.get_object_range s3_bucket s3_key s3_start s3_end);;
    match r with
    | Return d => ret (Some d)
    | Raise (ClientError _) => ret None
    | Raise e => raise e
    end
  else
    let directory := file_path self ++ [s3_bucket] in
    w <- get_world;;
    if negb (FS.exists_ (disk w) directory
             && FS.exists_ (disk w) (directory ++ s3_key))
    then ret None
    else
      content <- lift (FS.read_bytes (disk w) (directory ++ s3_key));;
      d <- lift (FS.read_range content s3_start s3_end);;
      ret (Some d).

Definition generate_array_name (basename : string) : M string :=
  w <- get_world;;
  let array_name := String.concat "_" [basename; uuid4 w; pid w] in
  if darwin w then ret ("file://" ++ array_name)%string else ret array_name.

Definition work_get (self : S3IO) (array_name : string) (s3_bucket : bucket)
  (s3_key : key) (s3_max_size block_size : nat) (block_number : nat) : M unit :=
  let start := block_number * block_size in
  let end_ := (block_number + 1) * block_size in
  let end_ := if s3_max_size <? end_ then s3_max_size else end_ in
  d <- get_byte_range self s3_bucket s3_key start end_;;
  shared_array <- SA.attach array_name;;
  old <- SA.load shared_array;;
  new <- lift (SA.setslice old start end_ d);;
  SA.store shared_array new.

Definition get_byte_range_mp (self : S3IO) (s3_bucket : bucket) (s3_key : key)
  (s3_start s3_end block_size : nat) (sched : list nat) : M (option bytes) :=
  if negb (enable_s3 self) then
    get_byte_range self s3_bucket s3_key s3_start s3_end
  else
    s3o <- S3.get_object s3_bucket s3_key;;
    let s3_max_size := length s3o in
    let s3_obj_size := s3_end - s3_start in
    num_streams <- mpu_num_blocks s3_obj_size block_size;;
    let blocks := seq 0 num_streams in
    array_name <- generate_array_name
                    ("S3IO" ++ "_" ++ s3_bucket ++ "_" ++ S3.key_str s3_key)%string;;
    SA.create array_name s3_obj_size;;
    shared_array <- SA.attach array_name;;
    _ <- Pool.map (work_get self array_name s3_bucket s3_key s3_max_size block_size)
                  blocks sched;;
    content <- SA.load shared_array;;
    SA.delete array_name;;
    ret (Some content).

(** ** The rest of the class

    The client calls that only answer or fail here ([head_bucket],
    [head_object], [list_buckets]) are taken as they come: a parameter
    stands for the call. *)

(** *** list_buckets *)

Definition list_buckets (client_list_buckets : M (list string)) (self : S3IO)
  : M (list string) :=
  if enable_s3 self then reraise_client_error client_list_buckets
  else
    let directory := file_path self in
    read_disk (fun fs =>
      let? entries := FS.iterdir fs directory in
      Return (map (fun f => last f ""%string)
                  (filter (fun f => FS.is_dir fs f) entries))).

(** *** bucket_exists, object_exists *)

(** [try: head(...)
     except ClientError as e:
         error_code = int(e.response['Error']['Code'])
         if error_code == 404: return False
         raise Exception("ClientError", error_code)
     return True] *)
Definition exists_by_head (head : M unit) : M bool :=
  r <- attempt head;;
  match r with
  | Return _ => ret true
  | Raise (ClientError code) =>
      error_code <- lift (py_int code);;
      if error_code =? 404 then ret false
      else raise (ClientErrorCode error_code)
  | Raise e => raise e
  end.

Definition bucket_exists (head_bucket : bucket -> M unit) (self : S3IO)
  (s3_bucket : bucket) : M bool :=
  if enable_s3 self then exists_by_head (head_bucket s3_bucket)
  else
    let directory := file_path self ++ [s3_bucket] in
    w <- get_world;;
    ret (FS.exists_ (disk w) directory && FS.is_dir (disk w) directory).

Definition object_exists (head_object : bucket -> key -> M unit) (self : S3IO)
  (s3_bucket : bucket) (s3_key : key) : M bool :=
  if enable_s3 self then exists_by_head (head_object s3_bucket s3_key)
  else
    let directory := (file_path self ++ [s3_bucket]) ++ s3_key in
    w <- get_world;;
    ret (FS.exists_ (disk w) directory && FS.is_file (disk w) directory).

(** *** put_bytes_mpu_mp_shm *)

Definition work_put_shm (array_name : string) (s3_bucket : bucket) (s3_key : key)
  (block_size mpu : nat) (block_number : nat) : M (nat * string) :=
  let part_number := block_number + 1 in
  let start := block_number * block_size in
  let end_ := (block_number + 1) * block_size in
  shared_array <- SA.attach array_name;;
  content <- SA.load shared_array;;
  let data_chunk := py_slice content start end_ in
  etag <- S3.upload_part s3_bucket s3_key mpu part_number data_chunk;;
  ret (part_number, etag).

Definition put_bytes_mpu_mp_shm (self : S3IO) (s3_bucket : bucket) (s3_key : key)
  (array_name : string) (block_size : nat) (sched : list nat)
  : M (option S3.mpu_response) :=
  if negb (enable_s3 self) then
    handle <- SA.attach array_name;;
    data <- SA.load handle;;
    put_bytes self s3_bucket s3_key data;; ret None
  else
    mpu <- S3.create_multipart_upload s3_bucket s3_key;;
    shared_array <- SA.attach array_name;;
    content <- SA.load shared_array;;
    num_blocks <- mpu_num_blocks (length content) block_size;;
    let blocks := seq 0 num_blocks in
    results <- Pool.map (work_put_shm array_name s3_bucket s3_key block_size mpu)
                        blocks sched;;
    let parts_dict := [] ++ results in
    mpu_response <- S3.complete_multipart_upload s3_bucket s3_key mpu parts_dict;;
    ret (Some mpu_response).

(** *** list_created_arrays, delete_created_arrays *)

(** [f.startswith('S3') or f.startswith('DCCORE')] *)
Definition created_here (f : string) : bool :=
  String.prefix "S3" f || String.prefix "DCCORE" f.

Definition list_created_arrays : M (list string) :=
  w <- get_world;;
  let result := filter created_here (map fst (shm w)) in
  print result;;
  ret result.

Definition delete_created_arrays : M unit :=
  arrays <- list_created_arrays;;
  for_each arrays SA.delete.

(** ** Vocabulary of the properties *)

(** The requests of a log, in order. *)
Definition requests (l : list effect) : list s3_call :=
  flat_map (fun e => match e with Request c => [c] | _ => [] end) l.

Definition is_sleep (e : effect) : bool :=
  match e with Sleep _ => true | _ => false end.

Definition is_abort (c : s3_call) : bool :=
  match c with AbortMultipartUpload _ _ _ => true | _ => false end.

(** What the retry loops print for a failed attempt. *)
Definition put_failure_print (e : exn) : effect :=
  Print [if is_read_timeout e then "error - s3io.put_bytes()"
         else "error u - s3io.put_bytes()"; type_name e; str e]%string.

Definition get_failure_print (e : exn) : effect :=
  Print [if is_read_timeout e then "error - s3io.get_bytes()"
         else "error u - s3io.get_bytes()"; type_name e; str e]%string.

(** What the [n]-th request fails with when it is a whole-object GET of a
    missing object. *)
Definition missing_cause (w : world) (n : nat) : exn :=
  match fault w n with
  | Some e => e
  | None => ClientError "NoSuchKey"
  end.

(** The multipart upload [mpu] is open on the store. *)
Definition upload_open (mpu : nat) (w : world) : Prop :=
  S3.find_upload (uploads w) mpu <> None.

(** The request a part-upload task makes for block [i]. *)
Definition upload_request (s3_bucket : bucket) (s3_key : key) (mpu : nat)
  (chunk : nat -> bytes) (i : nat) : s3_call :=
  UploadPart s3_bucket s3_key mpu (i + 1) (chunk i).

(** What the open upload [mpu] holds: each block [i] of [done] is stored as
    part [i + 1] with the body [chunk i]. *)
Definition parts_held (mpu : nat) (chunk : nat -> bytes) (done : list nat)
  (w : world) : Prop :=
  exists ps,
    S3.find_upload (uploads w) mpu = Some ps
    /\ forall i, In i done ->
                 find (fun p => fst p =? i + 1) ps = Some (i + 1, chunk i).

(** The shared array [name] of a parallel download in progress, beside
    the arrays [m0] that were there before: it has [size] bytes, and the
    bytes of each block of [done] are those of the object [obj]. *)
Definition array_filled (name : string) (m0 : list (string * bytes))
  (obj : bytes) (size block_size : nat) (done : list nat) (w : world) : Prop :=
  exists a,
    shm w = (name, a) :: m0
    /\ length a = size
    /\ forall j x, In j done ->
         j * block_size <= x < Nat.min ((j + 1) * block_size) (length obj) ->
         nth x a Byte.x00 = nth x obj Byte.x00.

(** [d] is a proper ancestor of [q]. *)
Definition above (d q : list string) : Prop :=
  exists r, r <> [] /\ q = d ++ r.

(** Every entry lies in a directory. *)
Definition well_formed (fs : filesystem) : Prop :=
  forall q, q <> [] -> FS.lookup fs q <> None -> FS.is_dir fs (FS.parent q) = true.

Definition well_formedb (fs : filesystem) : bool :=
  forallb (fun e => match fst e with
                    | [] => true
                    | q => FS.is_dir fs (FS.parent q)
                    end) fs.

(** The state of a deletion in progress, against the disk [fs0] it started
    from: [D] holds the files unlinked so far, [pending] the one directory
    still to be examined, and [s] is a file that stays. *)
Record pruned (fs0 : filesystem) (s : path) (D : list path) (fs : filesystem)
  (pending : option path) : Prop := mkPruned {
  pr_wf : well_formed fs;
  pr_sub : forall p, FS.lookup fs p = None \/ FS.lookup fs p = FS.lookup fs0 p;
  pr_files : forall p c, FS.lookup fs0 p = Some (File c) ->
               (FS.lookup fs p = None <-> In p D);
  pr_gone : forall d, FS.lookup fs0 d = Some Dir -> FS.lookup fs d = None ->
              (exists f, In f D /\ above d f)
              /\ (forall q, above d q -> FS.lookup fs q = None);
  pr_kept : forall d f, FS.lookup fs d = Some Dir -> In f D -> above d f ->
              Some d <> pending -> FS.children fs d <> [];
  pr_stays : exists c, FS.lookup fs s = Some (File c)
}.

(** ** Worlds and inputs to run the code on *)

Module Examples.
Import Byte.

Definition remote_io : S3IO := mkS3IO true ["home"; "S3IO"]%string.
Definition local_io : S3IO := mkS3IO false ["home"; "S3IO"]%string.

Definition etag (body : bytes) : string := "etag".

(** An empty store, an empty disk and a transport that never fails. *)
Definition quiet : world :=
  mkWorld [] [] 0 etag (fun _ => None) 0 [] [] "uuid" "1" false.

(** Every request times out. *)
Definition timing_out : world :=
  mkWorld [] [] 0 etag (fun _ => Some (ReadTimeoutError "read timed out"))
          0 [] [] "uuid" "1" false.

(** Every request is refused with a client error. *)
Definition refusing : world :=
  mkWorld [] [] 0 etag (fun _ => Some (ClientError "AccessDenied"))
          0 [] [] "uuid" "1" false.

(** The second request, the first part upload to run, is reset. *)
Definition resetting : world :=
  mkWorld [] [] 0 etag
          (fun n => if n =? 1 then Some (TransportError "connection reset")
                    else None)
          0 [] [] "uuid" "1" false.

Definition payload5 : bytes := [x01; x02; x03; x04; x05].
Definition payload4 : bytes := [x01; x02; x03; x04].

(** The first two part uploads of a multipart upload fail, each with a
    failure of its own. *)
Definition failing_twice : world :=
  mkWorld [] [] 0 etag
          (fun n => if n =? 1 then Some (TransportError "part3 failed")
                    else if n =? 2 then Some (TransportError "part1 failed")
                    else None)
          0 [] [] "uuid" "1" false.

(** A store holding one object of four bytes, and one of five. *)
Definition stored4 : world :=
  mkWorld [("b", ["k"], payload4)]%string [] 0 etag (fun _ => None) 0 [] []
          "uuid" "1" false.
Definition stored5 : world :=
  mkWorld [("b", ["k"], payload5)]%string [] 0 etag (fun _ => None) 0 [] []
          "uuid" "1" false.

(** Three objects in bucket "b", remotely and on the disk. *)
Definition three_objects : list (string * list string * bytes) :=
  [("b", ["a"], [x01]); ("b", ["c"; "d"], [x02]); ("b", ["e"], [x03])]%string.

Definition three_files : filesystem :=
  [(["home"], Dir); (["home"; "S3IO"], Dir); (["home"; "S3IO"; "b"], Dir);
   (["home"; "S3IO"; "b"; "a"], File [x01]);
   (["home"; "S3IO"; "b"; "c"], Dir);
   (["home"; "S3IO"; "b"; "c"; "d"], File [x02]);
   (["home"; "S3IO"; "b"; "e"], File [x03])]%string.

Definition remote3 : world :=
  mkWorld three_objects [] 0 etag (fun _ => None) 0 [] [] "uuid" "1" false.
Definition local3 : world :=
  mkWorld [] [] 0 etag (fun _ => None) 0 three_files [] "uuid" "1" false.

(** Bucket "b" holds the single object d/k; bucket "other" holds x. *)
Definition two_buckets : filesystem :=
  [(["home"], Dir); (["home"; "S3IO"], Dir);
   (["home"; "S3IO"; "b"], Dir); (["home"; "S3IO"; "b"; "d"], Dir);
   (["home"; "S3IO"; "b"; "d"; "k"], File [x01]);
   (["home"; "S3IO"; "other"], Dir);
   (["home"; "S3IO"; "other"; "x"], File [x02])]%string.

Definition local2 : world :=
  mkWorld [] [] 0 etag (fun _ => None) 0 two_buckets [] "uuid" "1" false.

(** Bucket "b" is the only bucket and holds the single object k; /tmp is
    another directory of the disk. *)
Definition one_bucket : filesystem :=
  [(["home"], Dir); (["home"; "S3IO"], Dir); (["home"; "S3IO"; "b"], Dir);
   (["home"; "S3IO"; "b"; "k"], File [x01]); (["tmp"], Dir)]%string.

Definition local1 : world :=
  mkWorld [] [] 0 etag (fun _ => None) 0 one_bucket [] "uuid" "1" false.

End Examples.

(** * Properties *)

Section SliceFacts.
Context {A : Type}.

Lemma py_slice_length (l : list A) s e :
  e <= length l -> length (py_slice l s e) = e - s.
Proof.
  intros He. unfold py_slice.
  rewrite length_firstn, length_skipn. lia.
Qed.

Lemma firstn_plus (l : list A) m n :
  firstn (m + n) l = firstn m l ++ firstn n (skipn m l).
Proof.
  revert l; induction m as [|m IH]; intros [|x l]; simpl;
    rewrite ?firstn_nil; try reflexivity.
  now rewrite IH.
Qed.

Lemma py_slice_app (l : list A) a b c :
  a <= b -> b <= c ->
  py_slice l a b ++ py_slice l b c = py_slice l a c.
Proof.
  intros Hab Hbc. unfold py_slice.
  replace (c - a) with ((b - a) + (c - b)) by lia.
  rewrite firstn_plus. f_equal.
  rewrite skipn_skipn. do 2 f_equal. lia.
Qed.

Lemma py_slice_all (l : list A) : py_slice l 0 (length l) = l.
Proof.
  unfold py_slice. rewrite Nat.sub_0_r. simpl. apply firstn_all.
Qed.

Lemma py_slice_empty (l : list A) a : py_slice l a a = [].
Proof. unfold py_slice. now rewrite Nat.sub_diag. Qed.

Lemma py_slice_nil_iff (l : list A) a b :
  py_slice l a b = [] <-> b <= a \/ length l <= a.
Proof.
  unfold py_slice. split.
  - intros H. apply (f_equal (@length A)) in H.
    rewrite length_firstn, length_skipn in H. simpl in H. lia.
  - intros [H|H].
    + replace (b - a) with 0 by lia. reflexivity.
    + rewrite skipn_all2 by exact H. apply firstn_nil.
Qed.
End SliceFacts.

Section CeilFacts.
Variables n b : nat.
Hypothesis Hb : 0 < b.

Lemma np_ceil_div_upper : n <= np_ceil_div n b * b.
Proof.
  unfold np_ceil_div.
  pose proof (Nat.div_mod_eq n b) as E.
  pose proof (Nat.mod_upper_bound n b ltac:(lia)) as U.
  destruct (Nat.eqb_spec (n mod b) 0); nia.
Qed.

Lemma np_ceil_div_lower : forall k, n <= k * b -> np_ceil_div n b <= k.
Proof.
  intros k Hk. unfold np_ceil_div.
  pose proof (Nat.div_mod_eq n b) as E.
  pose proof (Nat.mod_upper_bound n b ltac:(lia)) as U.
  destruct (Nat.eqb_spec (n mod b) 0); nia.
Qed.

Lemma np_ceil_div_pred : forall i, i < np_ceil_div n b -> i * b < n.
Proof.
  intros i Hi.
  destruct (Nat.lt_ge_cases (i * b) n) as [|H]; [assumption|].
  apply np_ceil_div_lower in H. lia.
Qed.

Lemma np_ceil_div_closed : np_ceil_div n b = (n + b - 1) / b.
Proof.
  apply Nat.div_unique with (r := (n + b - 1) - b * np_ceil_div n b).
  - pose proof np_ceil_div_upper. nia.
  - pose proof np_ceil_div_upper.
    assert (np_ceil_div n b = 0 \/ (np_ceil_div n b - 1) * b < n) as [E|L].
    { destruct (np_ceil_div n b) as [|k] eqn:E; [now left|right].
      simpl. rewrite Nat.sub_0_r. apply np_ceil_div_pred. lia. }
    + rewrite E in *. lia.
    + nia.
Qed.
End CeilFacts.

(** ** Multipart chunking tiles the payload *)

Section ChunkingFacts.
Import Chunking.

Lemma block_range_min nbytes block_size i :
  block_range nbytes block_size i
  = (i * block_size, Nat.min ((i + 1) * block_size) nbytes).
Proof.
  unfold block_range. f_equal.
  destruct (Nat.ltb_spec nbytes ((i + 1) * block_size)); lia.
Qed.

Lemma nth_map_seq {A} (f : nat -> A) n i d :
  i < n -> nth i (map f (seq 0 n)) d = f i.
Proof.
  intros Hi. rewrite nth_indep with (d' := f 0) by now rewrite length_map, length_seq.
  rewrite map_nth, seq_nth by assumption. reflexivity.
Qed.

Lemma chunk_ranges_nth nbytes block_size i :
  i < num_blocks nbytes block_size ->
  nth i (chunk_ranges nbytes block_size) (0, 0)
  = (i * block_size, Nat.min ((i + 1) * block_size) nbytes).
Proof.
  intros Hi. unfold chunk_ranges.
  rewrite nth_map_seq by assumption. apply block_range_min.
Qed.

Lemma slices_concat (data : bytes) block_size n :
  concat (map (fun i => py_slice data (i * block_size)
                                 (Nat.min ((i + 1) * block_size) (length data)))
              (seq 0 n))
  = py_slice data 0 (Nat.min (n * block_size) (length data)).
Proof.
  induction n as [|n IH].
  - simpl. now rewrite py_slice_empty.
  - rewrite seq_S, map_app, concat_app, IH. simpl.
    rewrite app_nil_r.
    destruct (Nat.le_gt_cases (length data) (n * block_size)) as [Hle|Hgt].
    + rewrite !Nat.min_r by nia.
      rewrite (proj2 (py_slice_nil_iff data (n * block_size) _))
        by (right; exact Hle).
      now rewrite app_nil_r.
    + rewrite (Nat.min_l (n * block_size)) by lia.
      replace ((n + 1) * block_size) with (S n * block_size) by lia.
      apply py_slice_app; lia.
Qed.

Lemma chunks_as_ranges (data : bytes) block_size :
  put_bytes_mpu_mp_chunks data block_size
  = map (fun r => py_slice data (fst r) (snd r))
        (chunk_ranges (length data) block_size).
Proof.
  unfold put_bytes_mpu_mp_chunks, chunk_ranges. rewrite map_map.
  apply map_ext. intros i. now destruct (block_range _ _ i).
Qed.

Lemma parts_as_chunks (data : bytes) block_size :
  put_bytes_mpu_parts data block_size
  = combine (seq 1 (num_blocks (length data) block_size))
            (put_bytes_mpu_mp_chunks data block_size).
Proof.
  unfold put_bytes_mpu_parts, put_bytes_mpu_mp_chunks.
  rewrite <- seq_shift.
  induction (seq 0 (num_blocks (length data) block_size)) as [|i l IH];
    cbn [List.map combine]; [reflexivity|].
  rewrite <- IH. destruct (block_range _ _ i). now rewrite Nat.add_1_r.
Qed.
End ChunkingFacts.

(** The block ranges of a payload of N bytes for a block size B > 0:
    there are ceil(N/B) of them (the least k with N <= k*B, which is
    (N+B-1)/B); range i is [i*B, min((i+1)*B, N)); every byte offset below
    N lies in exactly one range, no range is empty or longer than B, and
    the chunk lists that the two upload loops build are the slices of
    these ranges, numbered from 1, whose concatenation is the payload. *)
Lemma chunk_ranges_tile (data : bytes) (block_size : nat) :
  0 < block_size ->
  let N := length data in
  let n := Chunking.num_blocks N block_size in
  let ranges := Chunking.chunk_ranges N block_size in
  let range i := nth i ranges (0, 0) in
  (n = (N + block_size - 1) / block_size
   /\ N <= n * block_size /\ forall k, N <= k * block_size -> n <= k)
  /\ length ranges = n
  /\ (forall i, i < n ->
        range i = (i * block_size, Nat.min ((i + 1) * block_size) N))
  /\ (forall x, x < N <-> exists i, i < n /\ Chunking.in_range (range i) x)
  /\ (forall i j x, i < n -> j < n ->
        Chunking.in_range (range i) x -> Chunking.in_range (range j) x -> i = j)
  /\ (forall i, i < n ->
        0 < snd (range i) - fst (range i) <= block_size)
  /\ Chunking.put_bytes_mpu_mp_chunks data block_size
     = map (fun r => py_slice data (fst r) (snd r)) ranges
  /\ Chunking.put_bytes_mpu_parts data block_size
     = combine (seq 1 n) (Chunking.put_bytes_mpu_mp_chunks data block_size)
  /\ concat (Chunking.put_bytes_mpu_mp_chunks data block_size) = data.
Proof.
  intros HB N n ranges range.
  assert (Hup : N <= n * block_size) by (apply np_ceil_div_upper; exact HB).
  assert (Hnth : forall i, i < n ->
             range i = (i * block_size, Nat.min ((i + 1) * block_size) N)).
  { intros i Hi. apply chunk_ranges_nth; assumption. }
  repeat split.
  - apply np_ceil_div_closed; exact HB.
  - exact Hup.
  - intros k Hk. apply np_ceil_div_lower; assumption.
  - unfold ranges, Chunking.chunk_ranges. now rewrite length_map, length_seq.
  - exact Hnth.
  - intros Hx. exists (x / block_size).
    pose proof (Nat.div_mod_eq x block_size) as E.
    pose proof (Nat.mod_upper_bound x block_size ltac:(lia)) as U.
    assert (Hi : x / block_size < n).
    { destruct (Nat.lt_ge_cases (x / block_size) n) as [|Hge]; [assumption|].
      exfalso. nia. }
    split; [exact Hi|]. rewrite (Hnth _ Hi). unfold Chunking.in_range; simpl. nia.
  - intros (i & Hi & Hr). rewrite (Hnth _ Hi) in Hr.
    unfold Chunking.in_range in Hr; simpl in Hr. lia.
  - intros i j x Hi Hj Hri Hrj. rewrite (Hnth _ Hi) in Hri. rewrite (Hnth _ Hj) in Hrj.
    unfold Chunking.in_range in *; simpl in *. nia.
  - rewrite (Hnth _ H); simpl.
    pose proof (@np_ceil_div_pred N block_size HB i H). lia.
  - rewrite (Hnth _ H); simpl. lia.
  - apply chunks_as_ranges.
  - apply parts_as_chunks.
  - rewrite chunks_as_ranges. unfold ranges, Chunking.chunk_ranges.
    rewrite map_map.
    rewrite map_ext with (g := fun i => py_slice data (i * block_size)
                                 (Nat.min ((i + 1) * block_size) (length data)))
      by (intros i; now rewrite block_range_min).
    rewrite slices_concat. fold N. rewrite Nat.min_r by exact Hup.
    apply py_slice_all.
Qed.

Import Byte.


(** ** Whole-object transfer: the bounded retry loops *)

Lemma requests_app l1 l2 : requests (l1 ++ l2) = requests l1 ++ requests l2.
Proof. unfold requests. apply flat_map_app. Qed.

Ltac run_monad :=
  unfold bind, attempt, ret, raise, lift, print, emit, get_world, put_world;
  cbn [res final log].

Section RetryFacts.
Variables (s3_bucket : bucket) (s3_key : key) (data : bytes).

Lemma put_object_fails w e :
  fault w (clock w) = Some e ->
  attempt (S3.put_object s3_bucket s3_key data) w
  = mkOutcome (Return (Raise e)) (set_clock (S (clock w)) w)
              [Request (PutObject s3_bucket s3_key data)].
Proof.
  intros H. unfold S3.put_object, S3.request. run_monad. now rewrite H.
Qed.

(** One failed attempt, then the rest of the loop. *)
Lemma put_bytes_attempts_step a rest last_error w e :
  fault w (clock w) = Some e ->
  put_bytes_attempts (a :: rest) last_error s3_bucket s3_key data w
  = let o := put_bytes_attempts rest (Some (str e)) s3_bucket s3_key data
               (set_clock (S (clock w)) w) in
    mkOutcome (res o) (final o)
      (Request (PutObject s3_bucket s3_key data) :: put_failure_print e :: log o).
Proof.
  intros He. cbn [put_bytes_attempts]. unfold bind at 1.
  rewrite (put_object_fails _ He). cbn [res final log].
  unfold bind at 1. unfold print, emit. cbn [res final log].
  cbv zeta.
  destruct (res (put_bytes_attempts rest (Some (str e)) s3_bucket s3_key data
                   (set_clock (S (clock w)) w))); reflexivity.
Qed.

Lemma put_bytes_attempts_exhausted attempts :
  forall last_error w,
    (forall i, i < length attempts -> fault w (clock w + i) <> None) ->
    let o := put_bytes_attempts attempts last_error s3_bucket s3_key data w in
    res o = Raise (RuntimeError "s3io.put_bytes" "exceeded max retries"
                     (match attempts with
                      | [] => last_error
                      | _ => option_map str
                               (fault w (clock w + (length attempts - 1)))
                      end))
    /\ requests (log o)
       = repeat (PutObject s3_bucket s3_key data) (length attempts)
    /\ forallb (fun e => negb (is_sleep e)) (log o) = true
    /\ clock (final o) = clock w + length attempts
    /\ objects (final o) = objects w.
Proof.
  induction attempts as [|a rest IH]; intros last_error w Hall; cbv zeta.
  - cbn. repeat split; lia.
  - destruct (fault w (clock w)) as [e|] eqn:He.
    2:{ exfalso. apply (Hall 0); [simpl; lia|]. now rewrite Nat.add_0_r. }
    rewrite (put_bytes_attempts_step a rest last_error w He). cbv zeta.
    cbn [res final log].
    set (w' := set_clock (S (clock w)) w).
    specialize (IH (Some (str e)) w').
    assert (Hall' : forall i, i < length rest -> fault w' (clock w' + i) <> None).
    { intros i Hi. cbn. replace (S (clock w + i)) with (clock w + S i) by lia.
      apply Hall. simpl. lia. }
    specialize (IH Hall'). cbv zeta in IH.
    destruct IH as (Hres & Hreq & Hsl & Hclk & Hobj).
    repeat split.
    + rewrite Hres. do 2 f_equal.
      destruct rest as [|b rest'].
      * cbn. rewrite Nat.add_0_r, He. reflexivity.
      * cbn [length]. cbn. do 2 f_equal. lia.
    + cbn [requests flat_map app]. fold (requests (log
        (put_bytes_attempts rest (Some (str e)) s3_bucket s3_key data w'))).
      rewrite Hreq. reflexivity.
    + cbn [forallb is_sleep negb andb put_failure_print]. exact Hsl.
    + rewrite Hclk. cbn. lia.
    + rewrite Hobj. reflexivity.
Qed.
End RetryFacts.

(** C5.  On the remote backend [put_bytes] makes at most ten attempts.
    When each of the ten requests fails, whatever the failure, the call
    has made exactly ten [PutObject] requests and nothing that waits
    between them, has left the store as it was, and raises the
    [RuntimeError] 'exceeded max retries' carrying the cause of the tenth
    failure. *)
Theorem put_bytes_retry_cap (self : S3IO) (s3_bucket : bucket) (s3_key : key)
  (data : bytes) (w : world) :
  enable_s3 self = true ->
  (forall i, i < 10 -> fault w (clock w + i) <> None) ->
  let o := put_bytes self s3_bucket s3_key data w in
  res o = Raise (RuntimeError "s3io.put_bytes" "exceeded max retries"
                   (option_map str (fault w (clock w + 9))))
  /\ requests (log o) = repeat (PutObject s3_bucket s3_key data) 10
  /\ forallb (fun e => negb (is_sleep e)) (log o) = true
  /\ clock (final o) = clock w + 10
  /\ objects (final o) = objects w.
Proof.
  intros Hs3 Hall. unfold put_bytes. rewrite Hs3.
  apply (put_bytes_attempts_exhausted s3_bucket s3_key data (seq 0 10) None w).
  rewrite length_seq. exact Hall.
Qed.

Section GetBytesFacts.
Variables (s3_bucket : bucket) (s3_key : key).

Lemma get_object_missing w :
  S3.find_object (objects w) s3_bucket s3_key = None ->
  attempt (S3.get_object s3_bucket s3_key) w
  = mkOutcome (Return (Raise (missing_cause w (clock w))))
              (set_clock (S (clock w)) w)
              [Request (GetObject s3_bucket s3_key None)].
Proof.
  intros H. unfold S3.get_object, S3.request, S3.load_object, missing_cause.
  run_monad. destruct (fault w (clock w)); cbn; [reflexivity|].
  now rewrite H.
Qed.

Lemma get_object_present w d :
  S3.find_object (objects w) s3_bucket s3_key = Some d ->
  fault w (clock w) = None ->
  attempt (S3.get_object s3_bucket s3_key) w
  = mkOutcome (Return (Return d)) (set_clock (S (clock w)) w)
              [Request (GetObject s3_bucket s3_key None)].
Proof.
  intros H Hf. unfold S3.get_object, S3.request, S3.load_object.
  run_monad. rewrite Hf. cbn. now rewrite H.
Qed.

Lemma get_bytes_attempts_step a rest last_error w :
  S3.find_object (objects w) s3_bucket s3_key = None ->
  get_bytes_attempts (a :: rest) last_error s3_bucket s3_key w
  = let e := missing_cause w (clock w) in
    let o := get_bytes_attempts rest (Some (str e)) s3_bucket s3_key
               (set_clock (S (clock w)) w) in
    mkOutcome (res o) (final o)
      (Request (GetObject s3_bucket s3_key None) :: get_failure_print e :: log o).
Proof.
  intros H. cbn [get_bytes_attempts]. unfold bind at 1.
  rewrite (get_object_missing _ H). cbn [res final log].
  unfold bind at 1. unfold print, emit. cbn [res final log]. cbv zeta.
  destruct (res (get_bytes_attempts rest _ s3_bucket s3_key
                   (set_clock (S (clock w)) w))); reflexivity.
Qed.

Lemma get_bytes_attempts_missing attempts :
  forall last_error w,
    S3.find_object (objects w) s3_bucket s3_key = None ->
    let o := get_bytes_attempts attempts last_error s3_bucket s3_key w in
    res o = Raise (RuntimeError "s3io.get_bytes" "exceeded max retries"
                     (match attempts with
                      | [] => last_error
                      | _ => Some (str (missing_cause w
                                          (clock w + (length attempts - 1))))
                      end))
    /\ requests (log o)
       = repeat (GetObject s3_bucket s3_key None) (length attempts).
Proof.
  induction attempts as [|a rest IH]; intros last_error w Hmiss; cbv zeta.
  - cbn. split; reflexivity.
  - rewrite (get_bytes_attempts_step a rest last_error w Hmiss). cbv zeta.
    cbn [res final log].
    set (w' := set_clock (S (clock w)) w).
    destruct (IH (Some (str (missing_cause w (clock w)))) w' Hmiss)
      as (Hres & Hreq).
    split.
    + rewrite Hres. do 2 f_equal.
      destruct rest as [|b rest'].
      * cbn. now rewrite Nat.add_0_r.
      * cbn [length]. unfold missing_cause. cbn.
        replace (S (clock w + (length rest' - 0)))
          with (clock w + S (length rest')) by lia.
        reflexivity.
    + cbn [requests flat_map app]. fold (requests (log
        (get_bytes_attempts rest (Some (str (missing_cause w (clock w))))
           s3_bucket s3_key w'))).
      rewrite Hreq. reflexivity.
Qed.
End GetBytesFacts.

Section GetBytesLocal.
Variables (self : S3IO) (s3_bucket : bucket) (s3_key : key) (w : world).
Hypothesis local : enable_s3 self = false.

Let directory := file_path self ++ [s3_bucket].

Lemma get_bytes_local_missing use_new :
  FS.exists_ (disk w) directory && FS.exists_ (disk w) (directory ++ s3_key)
  = false ->
  get_bytes self s3_bucket s3_key use_new w = mkOutcome (Return None) w [].
Proof.
  intros Hmiss. unfold get_bytes. rewrite local. fold directory.
  run_monad. rewrite Hmiss. reflexivity.
Qed.

Lemma get_bytes_local_present use_new d :
  FS.exists_ (disk w) directory = true ->
  FS.lookup (disk w) (directory ++ s3_key) = Some (File d) ->
  get_bytes self s3_bucket s3_key use_new w = mkOutcome (Return (Some d)) w [].
Proof.
  intros Hdir Hfile.
  assert (Hex : FS.exists_ (disk w) (directory ++ s3_key) = true)
    by (unfold FS.exists_; now rewrite Hfile).
  unfold get_bytes. rewrite local. fold directory.
  unfold bind at 1, get_world at 1. cbn [res final log].
  rewrite Hdir, Hex. cbn [andb negb]. unfold FS.read_bytes. rewrite Hfile.
  reflexivity.
Qed.
End GetBytesLocal.

(** C4, as the code has it.  On the local backend [get_bytes] returns the
    file's bytes, and [None], without raising, when the bucket directory
    or the object's file is absent.  On the remote backend a missing object
    is not turned into a not-found value: each of the ten attempts fails,
    and the call raises the [RuntimeError] 'exceeded max retries' with the
    last cause ([NoSuchKey] when the transport itself did not fail); with
    [use_new] the client's error is raised as it is.  An object that is
    there is returned when the first request succeeds. *)
Theorem get_bytes_not_found (self : S3IO) (s3_bucket : bucket) (s3_key : key)
  (w : world) :
  let directory := file_path self ++ [s3_bucket] in
  (enable_s3 self = false ->
     (FS.exists_ (disk w) directory && FS.exists_ (disk w) (directory ++ s3_key)
      = false ->
      forall use_new,
        get_bytes self s3_bucket s3_key use_new w = mkOutcome (Return None) w [])
     /\ (forall d, FS.exists_ (disk w) directory = true ->
           FS.lookup (disk w) (directory ++ s3_key) = Some (File d) ->
           forall use_new,
             get_bytes self s3_bucket s3_key use_new w
             = mkOutcome (Return (Some d)) w []))
  /\ (enable_s3 self = true ->
      (S3.find_object (objects w) s3_bucket s3_key = None ->
         (let o := get_bytes self s3_bucket s3_key false w in
          res o = Raise (RuntimeError "s3io.get_bytes" "exceeded max retries"
                           (Some (str (missing_cause w (clock w + 9)))))
          /\ requests (log o) = repeat (GetObject s3_bucket s3_key None) 10)
         /\ res (get_bytes self s3_bucket s3_key true w)
            = Raise (match fault w (clock w) with
                     | Some e => e
                     | None => ClientError "404"
                     end))
      /\ (forall d, S3.find_object (objects w) s3_bucket s3_key = Some d ->
            fault w (clock w) = None ->
            forall use_new,
              res (get_bytes self s3_bucket s3_key use_new w) = Return (Some d))).
Proof.
  intros directory. split.
  - intros Hs3. split.
    + intros Hmiss use_new. now apply get_bytes_local_missing.
    + intros d Hdir Hfile use_new. now apply get_bytes_local_present.
  - intros Hs3. split.
    + intros Hmiss. split.
      * unfold get_bytes. rewrite Hs3.
        apply (get_bytes_attempts_missing s3_bucket s3_key (seq 0 10) None w Hmiss).
      * unfold get_bytes. rewrite Hs3.
        unfold S3.download_fileobj, S3.request, S3.load_object. run_monad.
        destruct (fault w (clock w)); cbn; [reflexivity|].
        now rewrite Hmiss.
    + intros d Hd Hf [|]; unfold get_bytes; rewrite Hs3.
      * unfold S3.download_fileobj, S3.request, S3.load_object. run_monad.
        rewrite Hf. cbn. now rewrite Hd.
      * cbn [seq get_bytes_attempts]. unfold bind at 1.
        rewrite (get_object_present _ _ _ Hd Hf). reflexivity.
Qed.

Lemma get_byte_range_local_missing (local : S3IO) s3_bucket s3_key s3_start
  s3_end w :
  enable_s3 local = false ->
  FS.exists_ (disk w) ((file_path local ++ [s3_bucket]) ++ s3_key) = false ->
  get_byte_range local s3_bucket s3_key s3_start s3_end w
  = mkOutcome (Return None) w [].
Proof.
  intros Hl Hmiss. unfold get_byte_range. rewrite Hl.
  unfold bind at 1, get_world at 1. cbn [res final log].
  rewrite Hmiss, andb_false_r. reflexivity.
Qed.

(** C10.  On the remote backend [get_byte_range] makes exactly one ranged
    GET, whatever its outcome; when that request fails with a client
    error, also the one for a missing object, the call returns [None]
    without raising and without a second request, which is what the local
    backend returns for an object that is not on the disk. *)
Theorem get_byte_range_single_attempt (self : S3IO) (s3_bucket : bucket)
  (s3_key : key) (s3_start s3_end : nat) (w : world) :
  enable_s3 self = true ->
  let o := get_byte_range self s3_bucket s3_key s3_start s3_end w in
  requests (log o) = [GetObject s3_bucket s3_key (Some (s3_start, s3_end))]
  /\ clock (final o) = S (clock w)
  /\ (forall code, fault w (clock w) = Some (ClientError code) ->
        res o = Return None)
  /\ (fault w (clock w) = None ->
      S3.find_object (objects w) s3_bucket s3_key = None ->
        res o = Return None)
  /\ (forall (local : S3IO) (w' : world),
        enable_s3 local = false ->
        FS.exists_ (disk w') ((file_path local ++ [s3_bucket]) ++ s3_key) = false ->
        res (get_byte_range local s3_bucket s3_key s3_start s3_end w')
        = Return None).
Proof.
  intros Hs3 o. subst o. unfold get_byte_range at 1 2 3 4. rewrite Hs3.
  unfold S3.get_object_range, S3.request, S3.load_object. run_monad.
  destruct (fault w (clock w)) as [e|] eqn:Hf; cbn [res final log].
  - repeat split.
    + destruct e; reflexivity.
    + destruct e; reflexivity.
    + intros code Hc. injection Hc as Hc. subst e. reflexivity.
    + discriminate.
    + intros local w' Hl Hmiss.
      now rewrite (get_byte_range_local_missing _ _ _ _ _ _ Hl Hmiss).
  - cbn [set_clock objects].
    destruct (S3.find_object (objects w) s3_bucket s3_key) as [d|] eqn:Hd;
      cbn [res final log];
      [destruct (s3_end <=? s3_start);
       [|destruct (length d <=? s3_start)]; cbn [ret raise res final log]|];
      repeat split; try reflexivity; try discriminate;
      try (intros local w' Hl Hmiss;
           now rewrite (get_byte_range_local_missing _ _ _ _ _ _ Hl Hmiss)).
Qed.

(** ** The parallel multipart uploader *)

Lemma is_schedule_perm n sched :
  Pool.is_schedule n sched = true -> Permutation (seq 0 n) sched.
Proof.
  unfold Pool.is_schedule. rewrite andb_true_iff, Nat.eqb_eq, forallb_forall.
  intros [Hlen Hall]. apply NoDup_Permutation_bis.
  - apply seq_NoDup.
  - rewrite length_seq. lia.
  - intros i Hi. specialize (Hall i Hi). apply existsb_exists in Hall.
    destruct Hall as (j & Hj & E). apply Nat.eqb_eq in E. now subst.
Qed.

Lemma is_schedule_bound n sched i :
  Pool.is_schedule n sched = true -> In i sched -> i < n.
Proof.
  intros H Hi. apply is_schedule_perm in H.
  apply (Permutation_in _ (Permutation_sym H)) in Hi.
  apply in_seq in Hi. lia.
Qed.

Lemma is_schedule_complete n sched i :
  Pool.is_schedule n sched = true -> i < n -> In i sched.
Proof.
  intros H Hi. apply is_schedule_perm in H.
  apply (Permutation_in _ H). apply in_seq. lia.
Qed.

Section PoolFacts.
Context {A B : Type} (f : A -> M B) (tasks : list A).

Lemma run_tasks_returns sched w :
  exists arrivals, res (Pool.run_tasks f tasks sched w) = Return arrivals.
Proof.
  revert w. induction sched as [|i rest IH]; intros w; cbn [Pool.run_tasks].
  - now exists [].
  - destruct (nth_error tasks i) as [t|]; [|apply IH].
    unfold bind, attempt, ret. cbn [res final log].
    destruct (IH (final (f t w))) as [arr Harr]. rewrite Harr.
    cbn [res final log]. eauto.
Qed.

Lemma run_tasks_cons i t rest w :
  nth_error tasks i = Some t ->
  exists arrivals,
    res (Pool.run_tasks f tasks rest (final (f t w))) = Return arrivals
    /\ Pool.run_tasks f tasks (i :: rest) w
       = mkOutcome (Return ((i, res (f t w)) :: arrivals))
                   (final (Pool.run_tasks f tasks rest (final (f t w))))
                   (log (f t w)
                    ++ log (Pool.run_tasks f tasks rest (final (f t w)))).
Proof.
  intros Ht. destruct (run_tasks_returns rest (final (f t w))) as [arr Harr].
  exists arr. split; [assumption|].
  cbn [Pool.run_tasks]. rewrite Ht.
  unfold bind, attempt, ret. cbn [res final log].
  rewrite Harr. cbn [res final log]. now rewrite app_nil_r.
Qed.
End PoolFacts.

Section UploadFacts.
Variables (s3_bucket : bucket) (s3_key : key) (mpu : nat).

Lemma find_upload_head us ps : S3.find_upload ((mpu, ps) :: us) mpu = Some ps.
Proof. unfold S3.find_upload. cbn. now rewrite Nat.eqb_refl. Qed.

Lemma upload_part_outcome w part_number body :
  let o := S3.upload_part s3_bucket s3_key mpu part_number body w in
  log o = [Request (UploadPart s3_bucket s3_key mpu part_number body)]
  /\ clock (final o) = S (clock w)
  /\ fault (final o) = fault w
  /\ etag_of (final o) = etag_of w
  /\ (forall e, fault w (clock w) = Some e -> res o = Raise e)
  /\ (fault w (clock w) = None -> upload_open mpu w ->
      res o = Return (etag_of w body) /\ upload_open mpu (final o)).
Proof.
  unfold S3.upload_part, S3.request, upload_open. run_monad.
  destruct (fault w (clock w)) as [e|] eqn:Hf; cbn [res final log].
  - repeat split; try reflexivity; try discriminate.
    intros e' H. injection H as H. now subst.
  - cbn [set_clock uploads].
    destruct (S3.find_upload (uploads w) mpu) as [ps|] eqn:Hu;
      cbn [res final log set_uploads set_clock uploads clock fault etag_of
           next_upload];
      repeat split; try reflexivity; try discriminate; try congruence.
    rewrite find_upload_head. discriminate.
Qed.

Lemma work_put_outcome w block_number body :
  let o := work_put s3_bucket s3_key mpu (block_number, body) w in
  log o = [Request (UploadPart s3_bucket s3_key mpu (block_number + 1) body)]
  /\ clock (final o) = S (clock w)
  /\ fault (final o) = fault w
  /\ etag_of (final o) = etag_of w
  /\ (forall e, fault w (clock w) = Some e -> res o = Raise e)
  /\ (fault w (clock w) = None -> upload_open mpu w ->
      res o = Return (block_number + 1, etag_of w body)
      /\ upload_open mpu (final o)).
Proof.
  pose proof (upload_part_outcome w (block_number + 1) body) as H.
  cbv zeta in H. destruct H as (Hlog & Hclk & Hflt & Het & Hfail & Hok).
  unfold work_put, bind, ret. cbv zeta.
  destruct (S3.upload_part s3_bucket s3_key mpu (block_number + 1) body w)
    as [r w1 l1].
  cbn [res final log] in *. subst l1.
  destruct r as [etag|e]; cbn [res final log].
  - rewrite app_nil_r. do 4 (split; [first [reflexivity|assumption]|]). split.
    + intros e He. specialize (Hfail e He). discriminate.
    + intros Hf Ho. destruct (Hok Hf Ho) as [E Ho'].
      injection E as E. subst. split; [reflexivity|assumption].
  - do 4 (split; [first [reflexivity|assumption]|]). split.
    + intros e' He. specialize (Hfail e' He). injection Hfail as Hfail.
      now subst.
    + intros Hf Ho. destruct (Hok Hf Ho) as [E _]. discriminate.
Qed.

Variables (tasks : list (nat * bytes)) (chunk : nat -> bytes).
Hypothesis tasks_nth :
  forall i, i < length tasks -> nth_error tasks i = Some (i, chunk i).

(** The fan-out logs one upload request per task, in arrival order. *)
Lemma run_tasks_log sched :
  forall w, Forall (fun i => i < length tasks) sched ->
    let o := Pool.run_tasks (work_put s3_bucket s3_key mpu) tasks sched w in
    log o = map (fun i => Request (upload_request s3_bucket s3_key mpu chunk i)) sched
    /\ clock (final o) = clock w + length sched
    /\ fault (final o) = fault w
    /\ etag_of (final o) = etag_of w.
Proof.
  induction sched as [|i rest IH]; intros w Hb; cbv zeta.
  - cbn. repeat split; lia.
  - inversion Hb as [|? ? Hi Hrest]; subst.
    destruct (@run_tasks_cons _ _ (work_put s3_bucket s3_key mpu) tasks i _
                rest w (tasks_nth Hi)) as (arr & Harr & ->).
    cbn [res final log].
    pose proof (work_put_outcome w i (chunk i)) as H. cbv zeta in H.
    destruct H as (Hlog & Hclk & Hflt & Het & _ & _).
    destruct (IH (final (work_put s3_bucket s3_key mpu (i, chunk i) w)) Hrest)
      as (Hl & Hc & Hf & He).
    rewrite Hlog, Hl, Hc, Hf, He, Hclk. repeat split; try assumption.
    simpl. lia.
Qed.

(** When no request of the fan-out fails, every task arrives with its
    part number and the etag of its chunk. *)
Lemma run_tasks_success sched :
  forall w, Forall (fun i => i < length tasks) sched ->
    (forall p, p < length sched -> fault w (clock w + p) = None) ->
    upload_open mpu w ->
    let o := Pool.run_tasks (work_put s3_bucket s3_key mpu) tasks sched w in
    res o = Return (map (fun i => (i, Return (i + 1, etag_of w (chunk i))))
                        sched)
    /\ upload_open mpu (final o).
Proof.
  induction sched as [|i rest IH]; intros w Hb Hff Hopen; cbv zeta.
  - cbn. split; [reflexivity|assumption].
  - inversion Hb as [|? ? Hi Hrest]; subst.
    destruct (@run_tasks_cons _ _ (work_put s3_bucket s3_key mpu) tasks i _
                rest w (tasks_nth Hi)) as (arr & Harr & ->).
    cbn [res final log].
    pose proof (work_put_outcome w i (chunk i)) as H. cbv zeta in H.
    destruct H as (Hlog & Hclk & Hflt & Het & _ & Hok).
    assert (Hf0 : fault w (clock w) = None).
    { rewrite <- (Nat.add_0_r (clock w)). apply Hff. cbn. lia. }
    destruct (Hok Hf0 Hopen) as [Hres Hopen1].
    set (w1 := final (work_put s3_bucket s3_key mpu (i, chunk i) w)) in *.
    assert (Hff1 : forall p, p < length rest -> fault w1 (clock w1 + p) = None).
    { intros p Hp. rewrite Hflt, Hclk.
      replace (S (clock w) + p) with (clock w + S p) by lia.
      apply Hff. cbn. lia. }
    destruct (IH w1 Hrest Hff1 Hopen1) as [Hr Ho1].
    split; [|assumption]. rewrite Hr in Harr. injection Harr as Harr.
    subst arr. rewrite Hres, Het. reflexivity.
Qed.

(** Conversely, arrivals without a failure mean that no request failed. *)
Lemma run_tasks_no_failure sched :
  forall w arrivals, Forall (fun i => i < length tasks) sched ->
    res (Pool.run_tasks (work_put s3_bucket s3_key mpu) tasks sched w)
    = Return arrivals ->
    Pool.first_failure arrivals = None ->
    forall p, p < length sched -> fault w (clock w + p) = None.
Proof.
  induction sched as [|i rest IH]; intros w arrivals Hb Hres Hnone p Hp.
  - cbn in Hp. lia.
  - inversion Hb as [|? ? Hi Hrest]; subst.
    destruct (@run_tasks_cons _ _ (work_put s3_bucket s3_key mpu) tasks i _
                rest w (tasks_nth Hi)) as (arr & Harr & E).
    rewrite E in Hres. cbn [res final log] in Hres.
    assert (Ea : arrivals
                 = (i, res (work_put s3_bucket s3_key mpu (i, chunk i) w))
                   :: arr) by congruence.
    subst arrivals. clear Hres.
    pose proof (work_put_outcome w i (chunk i)) as H. cbv zeta in H.
    destruct H as (Hlog & Hclk & Hflt & Het & Hfail & _).
    destruct (fault w (clock w)) as [e|] eqn:Hf0.
    + rewrite (Hfail e eq_refl) in Hnone. cbn [Pool.first_failure] in Hnone.
      discriminate.
    + destruct p as [|p]; [now rewrite Nat.add_0_r|].
      assert (Hn' : Pool.first_failure arr = None).
      { cbn [Pool.first_failure] in Hnone.
        destruct (res (work_put s3_bucket s3_key mpu (i, chunk i) w));
          [assumption|discriminate]. }
      specialize (IH _ arr Hrest Harr Hn' p ltac:(cbn in Hp; lia)).
      rewrite Hflt, Hclk in IH.
      now replace (clock w + S p) with (S (clock w) + p) by lia.
Qed.
End UploadFacts.

Lemma nth_error_combine_seq {A} (l : list A) (d : A) i :
  i < length l ->
  nth_error (combine (seq 0 (length l)) l) i = Some (i, nth i l d).
Proof.
  intros Hi.
  rewrite nth_error_nth' with (d := (0, d))
    by (rewrite length_combine, length_seq; lia).
  rewrite combine_nth by now rewrite length_seq.
  now rewrite seq_nth.
Qed.

Lemma seq_strongly_sorted len : forall start, StronglySorted lt (seq start len).
Proof.
  induction len as [|len IH]; intros start; cbn; constructor.
  - apply IH.
  - apply Forall_forall. intros x Hx. apply in_seq in Hx. lia.
Qed.

Lemma slot_arrived {B} (g : nat -> B) sched i :
  In i sched ->
  Pool.slot (List.map (fun i => (i, Return (g i))) sched) i = [g i].
Proof.
  unfold Pool.slot. induction sched as [|j rest IH]; [easy|].
  intros Hin. cbn [List.map find fst].
  destruct (Nat.eqb_spec j i) as [->|Hne]; [reflexivity|].
  apply IH. destruct Hin; [contradiction|assumption].
Qed.

Lemma collect_all {B} (g : nat -> B) n sched :
  (forall i, i < n -> In i sched) ->
  Pool.collect n (List.map (fun i => (i, Return (g i))) sched)
  = List.map g (seq 0 n).
Proof.
  intros Hall. unfold Pool.collect.
  pose proof (slot_arrived g sched) as Hslot.
  assert (Hseq : forall i, In i (seq 0 n) -> In i sched)
    by (intros i Hi; apply Hall; apply in_seq in Hi; lia).
  induction (seq 0 n) as [|i l IH]; [reflexivity|].
  cbn [flat_map List.map]. rewrite Hslot by (apply Hseq; now left).
  cbn [app]. f_equal. apply IH. intros j Hj. apply Hseq. now right.
Qed.

Lemma first_failure_all_ok {B} (g : nat -> B) sched :
  Pool.first_failure (List.map (fun i => (i, Return (g i))) sched) = None.
Proof. induction sched; [reflexivity|assumption]. Qed.

Section MultipartFacts.
Variables (self : S3IO) (s3_bucket : bucket) (s3_key : key).
Variables (data : bytes) (block_size : nat) (sched : list nat).
Hypothesis remote : enable_s3 self = true.
Hypothesis block_size_pos : 0 < block_size.

Let n := Chunking.num_blocks (length data) block_size.
Let chunks := Chunking.put_bytes_mpu_mp_chunks data block_size.
Let tasks := combine (seq 0 n) chunks.
Let chunk i := nth i chunks [].

Lemma chunks_length : length chunks = n.
Proof.
  unfold chunks, Chunking.put_bytes_mpu_mp_chunks.
  now rewrite length_map, length_seq.
Qed.

Lemma tasks_length : length tasks = n.
Proof.
  unfold tasks. rewrite length_combine, length_seq, chunks_length. lia.
Qed.

Lemma mpu_tasks_nth i :
  i < length tasks -> nth_error tasks i = Some (i, chunk i).
Proof.
  rewrite tasks_length. intros Hi. unfold tasks, chunk.
  rewrite <- chunks_length at 1. apply nth_error_combine_seq.
  now rewrite chunks_length.
Qed.

Lemma create_outcome w :
  let o := S3.create_multipart_upload s3_bucket s3_key w in
  log o = [Request (CreateMultipartUpload s3_bucket s3_key)]
  /\ clock (final o) = S (clock w)
  /\ fault (final o) = fault w
  /\ etag_of (final o) = etag_of w
  /\ (forall e, fault w (clock w) = Some e -> res o = Raise e)
  /\ (fault w (clock w) = None ->
      res o = Return (next_upload w) /\ upload_open (next_upload w) (final o)).
Proof.
  unfold S3.create_multipart_upload, S3.request, upload_open. run_monad.
  destruct (fault w (clock w)) as [e|] eqn:Hf; cbn [res final log].
  - do 4 (split; [reflexivity|]). split.
    + intros e' H. injection H as H. now subst.
    + discriminate.
  - cbn [set_clock next_upload uploads set_uploads clock fault etag_of].
    do 4 (split; [reflexivity|]). split; [discriminate|].
    intros _. split; [reflexivity|]. rewrite find_upload_head. discriminate.
Qed.

Lemma complete_log w mpu parts :
  log (S3.complete_multipart_upload s3_bucket s3_key mpu parts w)
  = [Request (CompleteMultipartUpload s3_bucket s3_key mpu parts)].
Proof.
  unfold S3.complete_multipart_upload, S3.request, S3.store_object. run_monad.
  destruct (fault w (clock w)); cbn [res final log]; [reflexivity|].
  cbn [set_clock uploads].
  destruct (S3.find_upload (uploads w) mpu); cbn [res final log]; [|reflexivity].
  destruct (negb (S3.ascending (List.map fst parts))); cbn [res final log];
    [reflexivity|].
  destruct parts as [|p ps]; [reflexivity|].
  destruct (S3.assemble _ _ _); reflexivity.
Qed.

(** The uploader after a successful initiate call, in terms of its
    fan-out. *)
Lemma put_bytes_mpu_mp_run w :
  fault w (clock w) = None ->
  let mpu := next_upload w in
  let w1 := final (S3.create_multipart_upload s3_bucket s3_key w) in
  let o1 := Pool.run_tasks (work_put s3_bucket s3_key mpu) tasks sched w1 in
  exists arrivals,
    res o1 = Return arrivals
    /\ put_bytes_mpu_mp self s3_bucket s3_key data block_size sched w
       = match Pool.first_failure arrivals with
         | Some e =>
             mkOutcome (Raise e) (final o1)
               (Request (CreateMultipartUpload s3_bucket s3_key) :: log o1)
         | None =>
             let parts := Pool.collect n arrivals in
             let o2 := S3.complete_multipart_upload s3_bucket s3_key mpu parts
                         (final o1) in
             mkOutcome (match res o2 with
                        | Return r => Return (Some r)
                        | Raise e => Raise e
                        end)
                       (final o2)
               (Request (CreateMultipartUpload s3_bucket s3_key)
                :: log o1
                ++ [Request (CompleteMultipartUpload s3_bucket s3_key mpu
                               parts)])
         end.
Proof.
  intros Hf. cbv zeta.
  pose proof (create_outcome w) as Hc. cbv zeta in Hc.
  destruct Hc as (Hlog & _ & _ & _ & _ & Hok).
  destruct (Hok Hf) as [Hres _]. clear Hok.
  destruct (run_tasks_returns (work_put s3_bucket s3_key (next_upload w)) tasks
              sched (final (S3.create_multipart_upload s3_bucket s3_key w)))
    as [arr Harr].
  exists arr. split; [exact Harr|].
  unfold put_bytes_mpu_mp. rewrite remote. cbn [negb].
  unfold mpu_num_blocks.
  destruct (Nat.eqb_spec block_size 0) as [E|_]; [lia|].
  fold n. fold chunks. fold tasks.
  unfold Pool.map, bind, ret, raise. cbn [res final log].
  rewrite !Hres. cbn [res final log]. rewrite !Hlog. fold tasks.
  rewrite !Harr. cbn [res final log]. rewrite tasks_length.
  destruct (Pool.first_failure arr) as [e|]; cbn [res final log app].
  - now rewrite !app_nil_r.
  - rewrite !complete_log.
    destruct (res (S3.complete_multipart_upload _ _ _ _ _));
      cbn [res final log app]; rewrite ?app_nil_r; reflexivity.
Qed.
End MultipartFacts.

Lemma requests_map_Request {A} (g : A -> s3_call) l :
  requests (List.map (fun i => Request (g i)) l) = List.map g l.
Proof.
  induction l as [|i l IH]; [reflexivity|].
  change (requests (List.map (fun i => Request (g i)) (i :: l)))
    with (g i :: requests (List.map (fun i => Request (g i)) l)).
  now rewrite IH.
Qed.

Lemma is_schedule_length n sched :
  Pool.is_schedule n sched = true -> length sched = n.
Proof.
  unfold Pool.is_schedule. rewrite andb_true_iff, Nat.eqb_eq. tauto.
Qed.

(** C2.  In the parallel uploader, when the initiate call and every part
    upload succeed, the requests made are the initiate call, one upload per
    part in the pool's arrival order [sched], and one completion call;
    whatever that arrival order, the parts list of the completion call is
    part 1, part 2, ... up to the last part, each with the etag of its
    chunk, so it is strictly ascending by part number. *)
Theorem parallel_upload_parts_ascending (self : S3IO) (s3_bucket : bucket)
  (s3_key : key) (data : bytes) (block_size : nat) (sched : list nat)
  (w : world) :
  enable_s3 self = true ->
  0 < block_size ->
  let n := Chunking.num_blocks (length data) block_size in
  let chunk i := nth i (Chunking.put_bytes_mpu_mp_chunks data block_size) [] in
  Pool.is_schedule n sched = true ->
  (forall p, p <= n -> fault w (clock w + p) = None) ->
  let o := put_bytes_mpu_mp self s3_bucket s3_key data block_size sched w in
  let mpu := next_upload w in
  let parts := List.map (fun i => (i + 1, etag_of w (chunk i))) (seq 0 n) in
  requests (log o)
  = CreateMultipartUpload s3_bucket s3_key
    :: List.map (fun i => UploadPart s3_bucket s3_key mpu (i + 1) (chunk i)) sched
    ++ [CompleteMultipartUpload s3_bucket s3_key mpu parts]
  /\ List.map fst parts = seq 1 n
  /\ StronglySorted lt (List.map fst parts).
Proof.
  intros Hs3 HB n chunk Hsched Hff o mpu parts.
  assert (Hf0 : fault w (clock w) = None)
    by (rewrite <- (Nat.add_0_r (clock w)); apply Hff; lia).
  assert (Hparts : List.map fst parts = seq 1 n).
  { unfold parts. rewrite map_map. cbn [fst]. rewrite <- seq_shift.
    apply map_ext. intros i. lia. }
  split; [|split; [exact Hparts|rewrite Hparts; apply seq_strongly_sorted]].
  destruct (put_bytes_mpu_mp_run self s3_bucket s3_key data sched Hs3 HB w Hf0)
    as (arr & Harr & Heq).
  pose proof (create_outcome s3_bucket s3_key w) as Hc. cbv zeta in Hc.
  destruct Hc as (_ & Hclk & Hflt & Het & _ & Hok).
  destruct (Hok Hf0) as [_ Hopen]. clear Hok.
  set (w1 := final (S3.create_multipart_upload s3_bucket s3_key w)) in *.
  set (tasks := combine
                  (seq 0 (Chunking.num_blocks (length data) block_size))
                  (Chunking.put_bytes_mpu_mp_chunks data block_size)) in *.
  assert (Hlen : length tasks = n) by (apply tasks_length; assumption).
  assert (Hnth : forall i, i < length tasks -> nth_error tasks i = Some (i, chunk i))
    by (apply mpu_tasks_nth; assumption).
  assert (Hbound : Forall (fun i => i < length tasks) sched).
  { apply Forall_forall. intros i Hi. rewrite Hlen.
    apply is_schedule_bound with (sched := sched); assumption. }
  assert (Hff1 : forall p, p < length sched -> fault w1 (clock w1 + p) = None).
  { intros p Hp. rewrite Hflt, Hclk. rewrite (is_schedule_length _ _ Hsched) in Hp.
    replace (S (clock w) + p) with (clock w + S p) by lia. apply Hff. lia. }
  destruct (@run_tasks_success s3_bucket s3_key mpu tasks chunk Hnth sched w1
              Hbound Hff1 Hopen) as [Hres _].
  destruct (@run_tasks_log s3_bucket s3_key mpu tasks chunk Hnth sched w1 Hbound)
    as (Hlog & _).
  fold mpu in Harr, Heq, Hres, Hlog. rewrite Hres in Harr.
  injection Harr as Harr. subst arr.
  rewrite first_failure_all_ok in Heq. cbv zeta in Heq.
  rewrite collect_all in Heq
    by (intros i Hi; apply is_schedule_complete with (n := n); assumption).
  unfold o. rewrite Heq. cbn [log]. rewrite Hlog, Het.
  cbn [requests flat_map app]. f_equal.
  change (flat_map _ ?l) with (requests l).
  rewrite requests_app, requests_map_Request. reflexivity.
Qed.

Section UploadLeftOpen.
Variables (s3_bucket : bucket) (s3_key : key) (mpu : nat).

Lemma upload_part_keeps_open w part_number body :
  upload_open mpu w ->
  upload_open mpu (final (S3.upload_part s3_bucket s3_key mpu part_number body w)).
Proof.
  unfold S3.upload_part, S3.request, upload_open. run_monad. intros Hopen.
  destruct (fault w (clock w)); cbn [res final log set_clock uploads];
    [exact Hopen|].
  destruct (S3.find_upload (uploads w) mpu) as [ps|] eqn:Hu;
    cbn [res final log set_uploads set_clock uploads]; [|now rewrite Hu].
  rewrite find_upload_head. discriminate.
Qed.

Lemma work_put_keeps_open w task :
  upload_open mpu w ->
  upload_open mpu (final (work_put s3_bucket s3_key mpu task w)).
Proof.
  intros Hopen. destruct task as [block_number body].
  pose proof (@upload_part_keeps_open w (block_number + 1) body Hopen) as H.
  unfold work_put, bind, ret.
  destruct (S3.upload_part s3_bucket s3_key mpu (block_number + 1) body w)
    as [[etag|e] w1 l1]; exact H.
Qed.

Lemma run_tasks_keeps_open tasks sched :
  forall w, upload_open mpu w ->
    upload_open mpu
      (final (Pool.run_tasks (work_put s3_bucket s3_key mpu) tasks sched w)).
Proof.
  induction sched as [|i rest IH]; intros w Hopen; [exact Hopen|].
  cbn [Pool.run_tasks]. destruct (nth_error tasks i) as [t|] eqn:Ht;
    [|now apply IH].
  destruct (@run_tasks_cons _ _ (work_put s3_bucket s3_key mpu) tasks i t rest w
              Ht) as (arr & _ & E).
  cbn [Pool.run_tasks] in E. rewrite Ht in E. rewrite E. cbn [final].
  apply IH. now apply work_put_keeps_open.
Qed.
End UploadLeftOpen.

Lemma put_bytes_mpu_mp_create_fails (self : S3IO) s3_bucket s3_key data
  block_size sched w e :
  enable_s3 self = true ->
  fault w (clock w) = Some e ->
  put_bytes_mpu_mp self s3_bucket s3_key data block_size sched w
  = mkOutcome (Raise e) (set_clock (S (clock w)) w)
              [Request (CreateMultipartUpload s3_bucket s3_key)].
Proof.
  intros Hs3 Hf. unfold put_bytes_mpu_mp. rewrite Hs3. cbn [negb].
  unfold S3.create_multipart_upload, S3.request. run_monad. now rewrite Hf.
Qed.

Section FirstFailure.
Variables (s3_bucket : bucket) (s3_key : key) (mpu : nat).
Variables (tasks : list (nat * bytes)) (chunk : nat -> bytes).
Hypothesis tasks_nth :
  forall i, i < length tasks -> nth_error tasks i = Some (i, chunk i).

(** The failure that the fan-out reports is that of the first request to
    fail, in the order in which the workers arrive. *)
Lemma run_tasks_first_failure sched :
  forall w arrivals p e,
    Forall (fun i => i < length tasks) sched ->
    upload_open mpu w ->
    res (Pool.run_tasks (work_put s3_bucket s3_key mpu) tasks sched w)
    = Return arrivals ->
    p < length sched ->
    (forall q, q < p -> fault w (clock w + q) = None) ->
    fault w (clock w + p) = Some e ->
    Pool.first_failure arrivals = Some e.
Proof.
  induction sched as [|i rest IH];
    intros w arrivals p e Hb Hopen Hres Hp Hbefore Hfail.
  - cbn in Hp. lia.
  - inversion Hb as [|? ? Hi Hrest]; subst.
    destruct (@run_tasks_cons _ _ (work_put s3_bucket s3_key mpu) tasks i _
                rest w (tasks_nth Hi)) as (arr & Harr & E).
    rewrite E in Hres. cbn [res final log] in Hres.
    assert (Ea : arrivals
                 = (i, res (work_put s3_bucket s3_key mpu (i, chunk i) w))
                   :: arr) by congruence.
    subst arrivals. clear Hres.
    pose proof (work_put_outcome s3_bucket s3_key mpu w i (chunk i)) as H.
    cbv zeta in H. destruct H as (_ & Hclk & Hflt & _ & Hfails & Hok).
    destruct p as [|p].
    + rewrite Nat.add_0_r in Hfail. rewrite (Hfails e Hfail). reflexivity.
    + assert (Hf0 : fault w (clock w) = None).
      { rewrite <- (Nat.add_0_r (clock w)). apply Hbefore. lia. }
      destruct (Hok Hf0 Hopen) as [Hr Hopen1]. rewrite Hr.
      cbn [Pool.first_failure].
      apply IH with (w := final (work_put s3_bucket s3_key mpu (i, chunk i) w))
                    (p := p); try assumption.
      * cbn in Hp. lia.
      * intros q Hq. rewrite Hflt, Hclk.
        replace (S (clock w) + q) with (clock w + S q) by lia.
        apply Hbefore. lia.
      * rewrite Hflt, Hclk.
        now replace (S (clock w) + p) with (clock w + S p) by lia.
Qed.
End FirstFailure.

(** C3, as the code has it.  The parallel uploader never issues an abort
    call.  When the initiate call has succeeded and a part upload fails,
    the call raises the first failure to arrive, that is the failure of
    the first request to fail among the part uploads, which are made in
    the workers' order of arrival, whatever happens to the later ones.  It
    has then made only the initiate call and the part uploads: no abort
    call and no completion call, and the multipart upload is still open on
    the store. *)
Theorem parallel_upload_failure_no_abort (self : S3IO) (s3_bucket : bucket)
  (s3_key : key) (data : bytes) (block_size : nat) (sched : list nat)
  (w : world) :
  enable_s3 self = true ->
  0 < block_size ->
  let n := Chunking.num_blocks (length data) block_size in
  let chunk i := nth i (Chunking.put_bytes_mpu_mp_chunks data block_size) [] in
  Pool.is_schedule n sched = true ->
  let o := put_bytes_mpu_mp self s3_bucket s3_key data block_size sched w in
  let mpu := next_upload w in
  (forall c, In c (requests (log o)) -> is_abort c = false)
  /\ (fault w (clock w) = None ->
      forall p e,
        p < n ->
        (forall q, q < p -> fault w (S (clock w) + q) = None) ->
        fault w (S (clock w) + p) = Some e ->
        res o = Raise e
        /\ requests (log o)
           = CreateMultipartUpload s3_bucket s3_key
             :: List.map (fun i => UploadPart s3_bucket s3_key mpu (i + 1)
                                     (chunk i))
                         sched
        /\ S3.find_upload (uploads (final o)) mpu <> None).
Proof.
  intros Hs3 HB n chunk Hsched o mpu.
  destruct (fault w (clock w)) as [e0|] eqn:Hf0.
  { split; [|discriminate]. unfold o.
    rewrite (put_bytes_mpu_mp_create_fails _ _ _ _ _ _ _ Hs3 Hf0). cbn.
    intros c [<-|[]]. reflexivity. }
  destruct (put_bytes_mpu_mp_run self s3_bucket s3_key data sched Hs3 HB w Hf0)
    as (arr & Harr & Heq).
  pose proof (create_outcome s3_bucket s3_key w) as Hc. cbv zeta in Hc.
  destruct Hc as (_ & Hclk & Hflt & Het & _ & Hok).
  destruct (Hok Hf0) as [_ Hopen]. clear Hok.
  set (w1 := final (S3.create_multipart_upload s3_bucket s3_key w)) in *.
  set (tasks := combine
                  (seq 0 (Chunking.num_blocks (length data) block_size))
                  (Chunking.put_bytes_mpu_mp_chunks data block_size)) in *.
  assert (Hlen : length tasks = n) by (apply tasks_length; assumption).
  assert (Hnth : forall i, i < length tasks -> nth_error tasks i = Some (i, chunk i))
    by (apply mpu_tasks_nth; assumption).
  assert (Hbound : Forall (fun i => i < length tasks) sched).
  { apply Forall_forall. intros i Hi. rewrite Hlen.
    apply is_schedule_bound with (sched := sched); assumption. }
  destruct (@run_tasks_log s3_bucket s3_key mpu tasks chunk Hnth sched w1 Hbound)
    as (Hlog & _).
  fold mpu in Harr, Heq, Hlog.
  assert (Hreq1 : requests (log (Pool.run_tasks (work_put s3_bucket s3_key mpu)
                                   tasks sched w1))
                  = List.map (fun i => UploadPart s3_bucket s3_key mpu (i + 1)
                                         (chunk i)) sched).
  { rewrite Hlog. apply requests_map_Request. }
  split.
  - intros c Hc. unfold o in Hc. rewrite Heq in Hc.
    destruct (Pool.first_failure arr); cbv zeta in Hc; cbn [log] in Hc.
    + change (In c (CreateMultipartUpload s3_bucket s3_key
                    :: requests (log (Pool.run_tasks
                                        (work_put s3_bucket s3_key mpu)
                                        tasks sched w1)))) in Hc.
      rewrite Hreq1 in Hc. destruct Hc as [<-|Hc]; [reflexivity|].
      apply in_map_iff in Hc. destruct Hc as (i & <- & _). reflexivity.
    + change (In c (CreateMultipartUpload s3_bucket s3_key
                    :: requests (log (Pool.run_tasks
                                        (work_put s3_bucket s3_key mpu)
                                        tasks sched w1)
                                 ++ [Request (CompleteMultipartUpload s3_bucket
                                                s3_key mpu
                                                (Pool.collect n arr))]))) in Hc.
      rewrite requests_app, Hreq1 in Hc. destruct Hc as [<-|Hc]; [reflexivity|].
      apply in_app_or in Hc. destruct Hc as [Hc|[<-|[]]]; [|reflexivity].
      apply in_map_iff in Hc. destruct Hc as (i & <- & _). reflexivity.
  - intros _ p e Hp Hbefore Hfail.
    assert (Hff : Pool.first_failure arr = Some e).
    { apply (@run_tasks_first_failure s3_bucket s3_key mpu tasks chunk Hnth
               sched w1 arr p e Hbound Hopen Harr).
      - now rewrite (is_schedule_length _ _ Hsched).
      - intros q Hq. rewrite Hflt, Hclk. now apply Hbefore.
      - now rewrite Hflt, Hclk. }
    unfold o. rewrite Heq, Hff. cbn [res final log].
    split; [reflexivity|]. split.
    + change (requests (Request (CreateMultipartUpload s3_bucket s3_key)
                        :: log (Pool.run_tasks (work_put s3_bucket s3_key mpu)
                                  tasks sched w1)))
        with (CreateMultipartUpload s3_bucket s3_key
              :: requests (log (Pool.run_tasks (work_put s3_bucket s3_key mpu)
                                  tasks sched w1))).
      now rewrite Hreq1.
    + apply run_tasks_keeps_open. exact Hopen.
Qed.

(** ** The local disk *)

Section DiskFacts.
Import FS.

Lemma path_eqb_eq p q : path_eqb p q = true <-> p = q.
Proof. unfold path_eqb. destruct (list_eq_dec string_dec p q); split; easy. Qed.

Lemma path_eqb_refl p : path_eqb p p = true.
Proof. now apply path_eqb_eq. Qed.

Lemma path_eqb_neq p q : p <> q -> path_eqb p q = false.
Proof. unfold path_eqb. now destruct (list_eq_dec string_dec p q). Qed.

Lemma lookup_root fs : lookup fs [] = Some Dir.
Proof. reflexivity. Qed.



Lemma lookup_remove_eq fs p : p <> [] -> lookup (remove fs p) p = None.
Proof.
  intros Hp. destruct p as [|a p]; [contradiction|].
  unfold lookup, remove.
  destruct (find _ (filter _ fs)) as [e|] eqn:Hfind; [|reflexivity].
  apply find_some in Hfind. destruct Hfind as [Hin He].
  apply filter_In in Hin. destruct Hin as [_ Hne].
  rewrite He in Hne. discriminate.
Qed.

Lemma lookup_remove_ne fs p q :
  q <> p -> lookup (remove fs p) q = lookup fs q.
Proof.
  intros Hq. destruct q as [|a q]; [reflexivity|].
  unfold lookup, remove. f_equal.
  induction fs as [|[r n] fs IH]; [reflexivity|].
  cbn [filter find fst].
  destruct (path_eqb r p) eqn:Erp; cbn [negb].
  - apply path_eqb_eq in Erp. subst r.
    rewrite (path_eqb_neq (p := p) (q := a :: q)) by congruence. exact IH.
  - cbn [find fst]. destruct (path_eqb r (a :: q)); [reflexivity|exact IH].
Qed.

Lemma lookup_in fs p n :
  p <> [] -> lookup fs p = Some n -> In (p, n) fs.
Proof.
  intros Hp. destruct p as [|a p]; [contradiction|].
  unfold lookup. destruct (find _ fs) as [[q m]|] eqn:Hfind; [|discriminate].
  apply find_some in Hfind. destruct Hfind as [Hin He].
  cbn in He. apply path_eqb_eq in He. subst q.
  cbn. intros E. injection E as E. now subst.
Qed.

Lemma in_lookup fs p n :
  p <> [] -> In (p, n) fs -> lookup fs p <> None.
Proof.
  intros Hp Hin. destruct p as [|a p]; [contradiction|].
  unfold lookup. destruct (find _ fs) as [e|] eqn:Hfind; [discriminate|].
  exfalso. apply (find_none _ _ Hfind) in Hin. cbn in Hin.
  now rewrite path_eqb_refl in Hin.
Qed.
End DiskFacts.

Section LocalPutFacts.
Import FS.





Variables (self : S3IO) (s3_bucket : bucket) (s3_key : key) (data : bytes).
Hypothesis local : enable_s3 self = false.

Let filepath := local_path self s3_bucket s3_key.


End LocalPutFacts.


(** ** Deleting local objects and pruning empty directories *)

Section PruneFacts.
Import FS.

Lemma parent_snoc (d : path) x : parent (d ++ [x]) = d.
Proof. unfold parent. apply removelast_last. Qed.

Lemma is_child_iff d q : is_child d q = true <-> exists x, q = d ++ [x].
Proof.
  unfold is_child. split.
  - destruct q as [|a q]; [discriminate|]. intros H.
    apply path_eqb_eq in H.
    destruct (exists_last (l := a :: q) ltac:(discriminate)) as (q' & x & E).
    exists x. rewrite E in *. rewrite parent_snoc in H. now subst.
  - intros [x ->]. destruct (d ++ [x]) eqn:E.
    + now destruct d.
    + rewrite <- E, parent_snoc. apply path_eqb_refl.
Qed.

Lemma children_nil_iff fs d :
  children fs d = [] <-> forall x, lookup fs (d ++ [x]) = None.
Proof.
  unfold children. split.
  - intros H x. destruct (lookup fs (d ++ [x])) as [n|] eqn:Hl; [|reflexivity].
    exfalso. apply lookup_in in Hl; [|now destruct d].
    apply map_eq_nil in H.
    assert (Hin : In (d ++ [x], n)
                     (filter (fun e => is_child d (fst e)) fs)).
    { apply filter_In. split; [exact Hl|]. cbn. apply is_child_iff. eauto. }
    rewrite H in Hin. destruct Hin.
  - intros H. destruct (filter _ fs) as [|[q n] l] eqn:Hf; [reflexivity|].
    exfalso. assert (Hin : In (q, n) (filter (fun e => is_child d (fst e)) fs))
      by (rewrite Hf; now left).
    apply filter_In in Hin. destruct Hin as [Hin Hc]. cbn in Hc.
    apply is_child_iff in Hc. destruct Hc as [x ->].
    apply in_lookup in Hin; [|now destruct d]. now apply Hin.
Qed.

Lemma is_dir_lookup fs d : is_dir fs d = true <-> lookup fs d = Some Dir.
Proof.
  unfold is_dir. destruct (lookup fs d) as [[c|]|]; split; congruence.
Qed.

Lemma is_file_lookup fs p :
  is_file fs p = true <-> exists c, lookup fs p = Some (File c).
Proof.
  unfold is_file. destruct (lookup fs p) as [[c|]|]; split;
    try congruence; try (intros [c' H]; congruence). eauto.
Qed.

Lemma is_file_nonroot fs p : is_file fs p = true -> p <> [].
Proof. intros H ->. discriminate. Qed.

Section WellFormed.
Variable fs : filesystem.
Hypothesis Hwf : well_formed fs.

Lemma wf_parent_dir d x :
  lookup fs (d ++ [x]) <> None -> lookup fs d = Some Dir.
Proof.
  intros H. apply is_dir_lookup. rewrite <- (parent_snoc d x).
  apply Hwf; [now destruct d|exact H].
Qed.

(** The ancestors of an entry are there. *)
Lemma wf_prefix_exists d r :
  lookup fs (d ++ r) <> None -> lookup fs d <> None.
Proof.
  induction r as [|x r IH] using rev_ind.
  - now rewrite app_nil_r.
  - rewrite app_assoc. intros H. apply IH.
    now rewrite (wf_parent_dir _ _ H).
Qed.

Lemma wf_prefix_dir d r :
  r <> [] -> lookup fs (d ++ r) <> None -> lookup fs d = Some Dir.
Proof.
  intros Hr H. destruct r as [|x r]; [contradiction|].
  change (x :: r) with ([x] ++ r) in H. rewrite app_assoc in H.
  apply wf_prefix_exists in H. now apply wf_parent_dir in H.
Qed.

(** Nothing lies below an empty directory. *)
Lemma wf_empty_below d :
  children fs d = [] -> forall q, above d q -> lookup fs q = None.
Proof.
  intros Hempty q (r & Hr & ->).
  destruct r as [|x r]; [contradiction|].
  destruct (lookup fs (d ++ x :: r)) eqn:Hl; [|reflexivity].
  exfalso. change (x :: r) with ([x] ++ r) in Hl. rewrite app_assoc in Hl.
  assert (H : lookup fs ((d ++ [x]) ++ r) <> None) by congruence.
  apply wf_prefix_exists in H. apply H.
  now apply children_nil_iff.
Qed.

Lemma wf_remove_file p :
  is_file fs p = true -> well_formed (remove fs p).
Proof.
  intros Hfile q Hq Hl.
  assert (Hqp : q <> p) by (intros ->; now rewrite lookup_remove_eq in Hl).
  rewrite lookup_remove_ne in Hl by exact Hqp.
  specialize (Hwf Hq Hl). apply is_dir_lookup in Hwf. apply is_dir_lookup.
  rewrite lookup_remove_ne; [exact Hwf|].
  intros E. apply is_file_lookup in Hfile. destruct Hfile as [c Hc].
  congruence.
Qed.

Lemma wf_remove_empty_dir d :
  children fs d = [] -> well_formed (remove fs d).
Proof.
  intros Hempty q Hq Hl.
  assert (Hqd : q <> d) by (intros ->; now rewrite lookup_remove_eq in Hl).
  rewrite lookup_remove_ne in Hl by exact Hqd.
  specialize (Hwf Hq Hl). apply is_dir_lookup in Hwf. apply is_dir_lookup.
  rewrite lookup_remove_ne; [exact Hwf|].
  intros E. destruct (exists_last Hq) as (q' & x & ->).
  rewrite parent_snoc in E. subst q'.
  rewrite (proj1 (children_nil_iff fs d) Hempty x) in Hl. now apply Hl.
Qed.
End WellFormed.
End PruneFacts.

Section PruneLoop.
Import FS.

Lemma lookup_remove_none fs p q :
  lookup fs q = None -> lookup (remove fs p) q = None.
Proof.
  intros H. destruct (list_eq_dec string_dec q p) as [->|Hne].
  - destruct p; [discriminate|]. now apply lookup_remove_eq.
  - now rewrite lookup_remove_ne.
Qed.

Lemma children_nonempty_iff fs d :
  children fs d <> [] <-> exists x, lookup fs (d ++ [x]) <> None.
Proof.
  split.
  - intros H. unfold children in H.
    destruct (filter (fun e => is_child d (fst e)) fs) as [|[q n] l] eqn:Hf;
      [contradiction|].
    assert (Hin : In (q, n) (filter (fun e => is_child d (fst e)) fs))
      by (rewrite Hf; now left).
    apply filter_In in Hin. destruct Hin as [Hin Hc]. cbn in Hc.
    apply is_child_iff in Hc. destruct Hc as [x ->]. exists x.
    apply in_lookup with (n := n); [now destruct d|exact Hin].
  - intros [x Hx] Hnil. apply Hx. now apply children_nil_iff.
Qed.

Lemma rmdir_empty fs d :
  d <> [] -> lookup fs d = Some Dir -> children fs d = [] ->
  rmdir fs d = Return (remove fs d).
Proof.
  intros Hd Hdir Hempty. unfold rmdir. destruct d as [|a d]; [contradiction|].
  apply is_dir_lookup in Hdir. rewrite Hdir. cbn [negb]. now rewrite Hempty.
Qed.

Lemma snoc_neq_self (d : path) x : d <> d ++ [x].
Proof.
  intros E. apply (f_equal (@length string)) in E.
  rewrite length_app in E. cbn in E. lia.
Qed.

Lemma above_parent d x f : above (d ++ [x]) f -> above d f.
Proof.
  intros (r & Hr & ->). exists (x :: r). split; [discriminate|].
  now rewrite <- app_assoc.
Qed.

Variables (fs0 : filesystem) (s : path).

Lemma pruned_root_nonempty D fs pending :
  pruned fs0 s D fs pending -> children fs [] <> [].
Proof.
  intros [Hwf _ _ _ _ [c Hs]]. apply children_nonempty_iff.
  revert Hs. generalize s. intros [|x r] Hs; [discriminate|]. exists x.
  apply (wf_prefix_exists Hwf ([] ++ [x]) r).
  change (([] ++ [x]) ++ r) with (x :: r). congruence.
Qed.

Lemma lookup_dir_not_file D fs pending d p c :
  pruned fs0 s D fs pending -> lookup fs d = Some Dir ->
  lookup fs0 p = Some (File c) -> p <> d.
Proof.
  intros H Hd Hp ->. destruct (@pr_sub _ _ _ _ _ H d) as [E|E]; congruence.
Qed.

(** Removing the pending directory, found empty, hands over to its
    parent. *)
Lemma pruned_rmdir D fs d x :
  pruned fs0 s D fs (Some (d ++ [x])) ->
  lookup fs (d ++ [x]) = Some Dir ->
  children fs (d ++ [x]) = [] ->
  (exists f, In f D /\ above (d ++ [x]) f) ->
  pruned fs0 s D (remove fs (d ++ [x])) (Some d)
  /\ lookup (remove fs (d ++ [x])) d = Some Dir
  /\ (exists f, In f D /\ above d f).
Proof.
  intros H Hdir Hempty (f & Hf & Hab).
  assert (Hne : d ++ [x] <> []) by now destruct d.
  split; [|split].
  - constructor.
    + apply wf_remove_empty_dir; [apply (@pr_wf _ _ _ _ _ H)|exact Hempty].
    + intros p. destruct (list_eq_dec string_dec p (d ++ [x])) as [->|Hp].
      * left. now apply lookup_remove_eq.
      * rewrite lookup_remove_ne by exact Hp. apply (pr_sub H).
    + intros p c Hp.
      rewrite lookup_remove_ne
        by (eapply lookup_dir_not_file; eassumption).
      eapply pr_files; eassumption.
    + intros d' Hd' Hgone.
      destruct (list_eq_dec string_dec d' (d ++ [x])) as [->|Hne'].
      * split; [eauto|]. intros q Hq. apply lookup_remove_none.
        exact (wf_empty_below (@pr_wf _ _ _ _ _ H) Hempty Hq).
      * rewrite lookup_remove_ne in Hgone by exact Hne'.
        destruct (@pr_gone _ _ _ _ _ H d' Hd' Hgone) as [Hex Hbelow].
        split; [exact Hex|]. intros q Hq. apply lookup_remove_none.
        now apply Hbelow.
    + intros d' f' Hd' Hf' Hab' Hpend.
      assert (Hne' : d' <> d ++ [x])
        by (intros ->; now rewrite lookup_remove_eq in Hd').
      rewrite lookup_remove_ne in Hd' by exact Hne'.
      assert (Hk : children fs d' <> []).
      { apply (@pr_kept _ _ _ _ _ H d' f' Hd' Hf' Hab'). congruence. }
      apply children_nonempty_iff in Hk. destruct Hk as [y Hy].
      apply children_nonempty_iff. exists y.
      rewrite lookup_remove_ne; [exact Hy|].
      intros E. apply app_inj_tail in E. destruct E as [E _]. congruence.
    + destruct (@pr_stays _ _ _ _ _ H) as [c Hs]. exists c.
      rewrite lookup_remove_ne; [exact Hs|].
      intros E. rewrite E in Hs. congruence.
  - rewrite lookup_remove_ne by apply snoc_neq_self.
    apply (wf_parent_dir (@pr_wf _ _ _ _ _ H) d x). congruence.
  - exists f. split; [exact Hf|]. now apply above_parent with (x := x).
Qed.

(** The loop over the ancestors ends, with nothing left to examine. *)
Lemma remove_empty_parents_pruned D rparent :
  forall fs,
    pruned fs0 s D fs (Some (rev rparent)) ->
    lookup fs (rev rparent) = Some Dir ->
    (exists f, In f D /\ above (rev rparent) f) ->
    exists fs', remove_empty_parents fs rparent = Return fs'
                /\ pruned fs0 s D fs' None.
Proof.
  induction rparent as [|x up IH]; intros fs H Hdir Hab.
  - cbn [rev] in *. cbn [remove_empty_parents rev]. unfold iterdir, rbind.
    cbn [is_dir lookup].
    destruct (children fs []) as [|q l] eqn:Hc.
    + exfalso. now apply (pruned_root_nonempty H).
    + exists fs. split; [reflexivity|].
      destruct H as [Hwf Hsub Hfiles Hgone Hkept Hstays].
      constructor; try assumption.
      intros d f Hd Hf Habove _.
      destruct (list_eq_dec string_dec d []) as [->|Hne];
        [rewrite Hc; discriminate
        |apply (Hkept d f Hd Hf Habove); congruence].
  - cbn [remove_empty_parents]. cbn [rev] in *. unfold iterdir, rbind.
    rewrite (proj2 (is_dir_lookup fs (rev up ++ [x])) Hdir).
    destruct (children fs (rev up ++ [x])) as [|q l] eqn:Hc.
    + rewrite rmdir_empty; [|now destruct (rev up)|exact Hdir|exact Hc].
      destruct (@pruned_rmdir D fs (rev up) x H Hdir Hc Hab)
        as (H1 & Hdir1 & Hab1).
      apply (IH _ H1 Hdir1 Hab1).
    + exists fs. split; [reflexivity|].
      destruct H as [Hwf Hsub Hfiles Hgone Hkept Hstays].
      constructor; try assumption.
      intros d f Hd Hf Habove _.
      destruct (list_eq_dec string_dec d (rev up ++ [x])) as [->|Hne];
        [rewrite Hc; discriminate
        |apply (Hkept d f Hd Hf Habove); congruence].
Qed.

(** Unlinking a file makes its parent the directory to examine. *)
Lemma pruned_unlink D fs f :
  pruned fs0 s D fs None ->
  is_file fs f = true ->
  f <> s ->
  pruned fs0 s (f :: D) (remove fs f) (Some (parent f))
  /\ lookup (remove fs f) (parent f) = Some Dir
  /\ above (parent f) f.
Proof.
  intros H Hfile Hfs.
  assert (Hne : f <> []) by (eapply is_file_nonroot; eassumption).
  destruct (exists_last Hne) as (d & x & ->). rewrite parent_snoc.
  apply is_file_lookup in Hfile. destruct Hfile as [c Hc].
  assert (Hc0 : lookup fs0 (d ++ [x]) = Some (File c))
    by (destruct (@pr_sub _ _ _ _ _ H (d ++ [x])); congruence).
  assert (Hd : lookup fs d = Some Dir)
    by (apply (wf_parent_dir (@pr_wf _ _ _ _ _ H) d x); congruence).
  split; [|split].
  - constructor.
    + apply wf_remove_file; [apply (@pr_wf _ _ _ _ _ H)|].
      apply is_file_lookup. eauto.
    + intros p. destruct (list_eq_dec string_dec p (d ++ [x])) as [->|Hp].
      * left. now apply lookup_remove_eq.
      * rewrite lookup_remove_ne by exact Hp. apply (pr_sub H).
    + intros p c' Hp.
      destruct (list_eq_dec string_dec p (d ++ [x])) as [->|Hpf].
      * rewrite lookup_remove_eq by exact Hne. split; [now left|reflexivity].
      * rewrite lookup_remove_ne by exact Hpf.
        rewrite (@pr_files _ _ _ _ _ H p c' Hp). split; [now right|].
        intros [E|Hin]; [congruence|exact Hin].
    + intros d' Hd' Hgone.
      assert (Hne' : d' <> d ++ [x]) by congruence.
      rewrite lookup_remove_ne in Hgone by exact Hne'.
      destruct (@pr_gone _ _ _ _ _ H d' Hd' Hgone) as [(f' & Hf' & Hab') Hbelow].
      split; [exists f'; split; [now right|exact Hab']|].
      intros q Hq. apply lookup_remove_none. now apply Hbelow.
    + intros d' f' Hd' Hf' Hab' Hpend.
      assert (Hne' : d' <> d ++ [x])
        by (intros ->; now rewrite lookup_remove_eq in Hd').
      rewrite lookup_remove_ne in Hd' by exact Hne'.
      assert (Hdd : d' <> d) by congruence.
      apply children_nonempty_iff.
      destruct Hf' as [<-|Hf'].
      * destruct Hab' as (r & Hr & E). destruct r as [|y r]; [contradiction|].
        exists y. change (y :: r) with ([y] ++ r) in E. rewrite app_assoc in E.
        assert (Hr' : r <> []).
        { intros ->. rewrite app_nil_r in E. apply app_inj_tail in E.
          destruct E. congruence. }
        rewrite lookup_remove_ne.
        -- apply (wf_prefix_exists (@pr_wf _ _ _ _ _ H) (d' ++ [y]) r).
           rewrite <- E. congruence.
        -- intros E'. rewrite <- E' in E. apply (f_equal (@length string)) in E.
           rewrite !length_app in E. destruct r; [contradiction|cbn in E; lia].
      * assert (Hk : children fs d' <> [])
          by (apply (@pr_kept _ _ _ _ _ H d' f' Hd' Hf' Hab'); discriminate).
        apply children_nonempty_iff in Hk. destruct Hk as [y Hy]. exists y.
        rewrite lookup_remove_ne; [exact Hy|].
        intros E. apply app_inj_tail in E. destruct E. congruence.
    + destruct (@pr_stays _ _ _ _ _ H) as [c' Hs]. exists c'.
      now rewrite lookup_remove_ne.
  - rewrite lookup_remove_ne by apply snoc_neq_self. exact Hd.
  - exists [x]. split; [discriminate|reflexivity].
Qed.
End PruneLoop.

Section DeleteFacts.
Import FS.
Variables (fs0 : filesystem) (s : path) (directory : path).

Lemma pruned_ext D D' fs pending :
  (forall p, In p D <-> In p D') ->
  pruned fs0 s D fs pending -> pruned fs0 s D' fs pending.
Proof.
  intros HD [Hwf Hsub Hfiles Hgone Hkept Hstays]. constructor; try assumption.
  - intros p c Hp. rewrite <- HD. eapply Hfiles; eassumption.
  - intros d Hd Hnone. destruct (Hgone d Hd Hnone) as [(f & Hf & Hab) Hbelow].
    split; [|exact Hbelow]. exists f. split; [now apply HD|exact Hab].
  - intros d f Hd Hf. apply Hkept; [exact Hd|now apply HD].
Qed.

Lemma pruned_start :
  well_formed fs0 -> is_file fs0 s = true -> pruned fs0 s [] fs0 None.
Proof.
  intros Hwf Hs. constructor.
  - exact Hwf.
  - now right.
  - intros p c Hp. split; [congruence|intros []].
  - intros d Hd Hnone. congruence.
  - intros d f _ [].
  - now apply is_file_lookup.
Qed.

Lemma delete_local_key_pruned resp fs k :
  pruned fs0 s (List.map (app directory) resp) fs None ->
  directory ++ k <> s ->
  exists fs',
    delete_local_key directory k (fs, resp)
    = Return (fs', if is_file fs (directory ++ k) then resp ++ [k] else resp)
    /\ pruned fs0 s
         (List.map (app directory)
            (if is_file fs (directory ++ k) then resp ++ [k] else resp))
         fs' None.
Proof.
  intros H Hks. unfold delete_local_key.
  destruct (is_file fs (directory ++ k)) eqn:Hfile.
  - assert (Hex : exists_ fs (directory ++ k) = true).
    { unfold exists_. apply is_file_lookup in Hfile.
      destruct Hfile as [c ->]. reflexivity. }
    rewrite Hex. cbn [andb]. unfold unlink. rewrite Hfile. cbn [rbind].
    destruct (pruned_unlink H Hfile Hks) as (H1 & Hdir & Hab).
    destruct (@remove_empty_parents_pruned fs0 s
                ((directory ++ k) :: List.map (app directory) resp)
                (rev (parent (directory ++ k)))
                (remove fs (directory ++ k)))
      as (fs' & Hrun & H2).
    + now rewrite rev_involutive.
    + now rewrite rev_involutive.
    + rewrite rev_involutive. exists (directory ++ k). split; [now left|exact Hab].
    + exists fs'. rewrite Hrun. cbn [rbind]. split; [reflexivity|].
      apply pruned_ext with (2 := H2). intros p.
      rewrite map_app, in_app_iff. cbn. tauto.
  - rewrite andb_false_r. exists fs. split; [reflexivity|exact H].
Qed.

Lemma delete_objects_local_pruned keys :
  forall fs resp,
    pruned fs0 s (List.map (app directory) resp) fs None ->
    (forall k, In k keys -> directory ++ k <> s) ->
    exists fs' resp',
      delete_objects_local directory keys (fs, resp) = Return (fs', resp')
      /\ pruned fs0 s (List.map (app directory) resp') fs' None
      /\ (forall k, In k resp' <->
                    In k resp
                    \/ (In k keys /\ is_file fs0 (directory ++ k) = true)).
Proof.
  induction keys as [|k rest IH]; intros fs resp H Hks.
  - exists fs, resp. split; [reflexivity|]. split; [exact H|].
    intros k. cbn. tauto.
  - cbn [delete_objects_local].
    destruct (@delete_local_key_pruned resp fs k H (Hks k (or_introl eq_refl)))
      as (fs1 & Hstep & H1).
    rewrite Hstep. cbn [rbind].
    destruct (IH fs1 _ H1 (fun k' Hk' => Hks k' (or_intror Hk')))
      as (fs' & resp' & Hrun & H' & Hresp).
    exists fs', resp'. split; [exact Hrun|]. split; [exact H'|].
    intros k'. rewrite Hresp. clear Hresp Hrun Hstep.
    destruct (is_file fs (directory ++ k)) eqn:Hfile.
    + assert (Hf0 : is_file fs0 (directory ++ k) = true).
      { apply is_file_lookup in Hfile. destruct Hfile as [c Hc].
        apply is_file_lookup. exists c.
        destruct (@pr_sub _ _ _ _ _ H (directory ++ k)); congruence. }
      rewrite in_app_iff. cbn [In]. split.
      * intros [[Hin|[<-|[]]]|[Hin Hf]]; auto.
      * intros [Hin|[[<-|Hin] Hf]]; auto.
    + cbn [In]. split.
      * intros [Hin|[Hin Hf]]; auto.
      * intros [Hin|[[<-|Hin] Hf]]; auto. left.
        apply is_file_lookup in Hf. destruct Hf as [c Hc].
        assert (Hnone : lookup fs (directory ++ k) = None).
        { destruct (@pr_sub _ _ _ _ _ H (directory ++ k)) as [E|E];
            [exact E|].
          exfalso. rewrite Hc in E.
          unfold is_file in Hfile. rewrite E in Hfile. discriminate. }
        apply (@pr_files _ _ _ _ _ H _ c Hc) in Hnone.
        apply in_map_iff in Hnone. destruct Hnone as (k0 & E & Hin).
        apply app_inv_head in E. now subst.
Qed.
End DeleteFacts.

(** X19.  What the local [delete_objects] does to the disk.  On a
    well-formed disk that keeps at least one file [s] which is not among
    the keys, it returns the keys that named a file, removes exactly those
    files, and removes a directory exactly when it lies above a deleted
    file and nothing is left below it; every other entry stays as it was
    and the disk stays well formed. *)
Theorem delete_objects_prunes_empty_ancestors (self : S3IO) (s3_bucket : bucket)
  (keys : list key) (w : world) (s : list string) :
  enable_s3 self = false ->
  well_formed (disk w) ->
  FS.is_file (disk w) s = true ->
  (forall k, In k keys -> (file_path self ++ [s3_bucket]) ++ k <> s) ->
  let directory := file_path self ++ [s3_bucket] in
  let o := delete_objects self s3_bucket keys w in
  let fs := disk w in
  let fs' := disk (final o) in
  exists deleted,
    res o = Return deleted
    /\ log o = []
    /\ (forall k, In k deleted <->
                  In k keys /\ FS.is_file fs (directory ++ k) = true)
    /\ (forall p, FS.lookup fs' p = None \/ FS.lookup fs' p = FS.lookup fs p)
    /\ (forall p c, FS.lookup fs p = Some (File c) ->
          (FS.lookup fs' p = None <-> exists k, In k keys /\ p = directory ++ k))
    /\ (forall d, FS.lookup fs d = Some Dir ->
          (FS.lookup fs' d = None <->
           (exists k, In k deleted /\ above d (directory ++ k))
           /\ (forall q, above d q -> FS.lookup fs' q = None)))
    /\ well_formed fs'.
Proof.
  intros Hl Hwf Hs Hks directory o fs fs'.
  destruct (@delete_objects_local_pruned fs s directory keys fs []
              (@pruned_start fs s Hwf Hs) Hks)
    as (fs1 & deleted & Hrun & H & Hdel).
  assert (Ho : o = mkOutcome (Return deleted) (set_disk fs1 w) []).
  { unfold o, delete_objects. rewrite Hl. fold directory.
    unfold bind, get_world, put_world, ret. cbn [res final log].
    fold fs. rewrite Hrun. reflexivity. }
  assert (Hfs' : fs' = fs1) by (unfold fs'; now rewrite Ho).
  exists deleted. rewrite Hfs'. rewrite Ho. cbn [res log].
  assert (Hdel' : forall k, In k deleted <->
                            In k keys /\ FS.is_file fs (directory ++ k) = true).
  { intros k. rewrite Hdel. cbn [In]. tauto. }
  split; [reflexivity|]. split; [reflexivity|]. split; [exact Hdel'|].
  split; [exact (@pr_sub _ _ _ _ _ H)|]. split; [|split].
  - intros p c Hp. rewrite (@pr_files _ _ _ _ _ H p c Hp), in_map_iff. split.
    + intros (k & <- & Hk). exists k. split; [|reflexivity]. now apply Hdel'.
    + intros (k & Hk & ->). exists k. split; [reflexivity|].
      apply Hdel'. split; [exact Hk|]. apply is_file_lookup. eauto.
  - intros d Hd. split.
    + intros Hnone. destruct (@pr_gone _ _ _ _ _ H d Hd Hnone)
        as [(f & Hf & Hab) Hbelow].
      split; [|exact Hbelow]. apply in_map_iff in Hf.
      destruct Hf as (k & <- & Hk). eauto.
    + intros [(k & Hk & Hab) Hbelow].
      destruct (FS.lookup fs1 d) as [n|] eqn:Hl1; [|reflexivity]. exfalso.
      assert (Hdir : FS.lookup fs1 d = Some Dir).
      { destruct (@pr_sub _ _ _ _ _ H d) as [E|E]; congruence. }
      assert (Hk' : FS.children fs1 d <> []).
      { apply (@pr_kept _ _ _ _ _ H d (directory ++ k) Hdir);
          [|exact Hab|discriminate].
        apply in_map_iff. eauto. }
      apply children_nonempty_iff in Hk'. destruct Hk' as [x Hx].
      apply Hx, Hbelow. exists [x]. split; [discriminate|reflexivity].
  - exact (@pr_wf _ _ _ _ _ H).
Qed.

Lemma well_formedb_sound fs : well_formedb fs = true -> well_formed fs.
Proof.
  unfold well_formedb. rewrite forallb_forall. intros H q Hq Hl.
  destruct (FS.lookup fs q) as [n|] eqn:Hn; [|contradiction].
  apply lookup_in in Hn; [|exact Hq]. specialize (H _ Hn). cbn in H.
  destruct q; [contradiction|exact H].
Qed.

(** * The claims on concrete runs *)

Import Examples.

(** C5 at a transport that times out on every request. *)
Lemma put_bytes_retry_cap_witness :
  let o := put_bytes remote_io "b" ["k"]%string [x01] timing_out in
  res o = Raise (RuntimeError "s3io.put_bytes" "exceeded max retries"
                   (Some "read timed out"%string))
  /\ requests (log o) = repeat (PutObject "b" ["k"]%string [x01]) 10.
Proof.
  destruct (put_bytes_retry_cap remote_io "b" ["k"]%string [x01] timing_out)
    as (Hres & Hreq & _).
  - reflexivity.
  - intros i _. discriminate.
  - split; [exact Hres|exact Hreq].
Defined.

(** C4 as stated fails: a missing object on the remote backend makes
    [get_bytes] raise. *)
Lemma get_bytes_missing_remote_raises :
  S3.find_object (objects quiet) "b" ["k"]%string = None
  /\ res (get_bytes remote_io "b" ["k"]%string false quiet)
     = Raise (RuntimeError "s3io.get_bytes" "exceeded max retries"
                (Some "NoSuchKey"%string)).
Proof. split; reflexivity. Qed.

Lemma get_bytes_not_found_witness :
  requests (log (get_bytes remote_io "b" ["k"]%string false quiet))
  = repeat (GetObject "b" ["k"]%string None) 10
  /\ get_bytes local_io "b" ["k"]%string false quiet
     = mkOutcome (Return None) quiet [].
Proof.
  destruct (get_bytes_not_found remote_io "b" ["k"]%string quiet) as [_ Hr].
  destruct (get_bytes_not_found local_io "b" ["k"]%string quiet) as [Hl _].
  destruct (Hr eq_refl) as [Hmiss _]. destruct (Hmiss eq_refl) as [[_ Hreq] _].
  destruct (Hl eq_refl) as [Hnone _].
  split; [exact Hreq|exact (Hnone eq_refl false)].
Defined.

(** C10 at a store that refuses every request. *)
Lemma get_byte_range_single_attempt_witness :
  let o := get_byte_range remote_io "b" ["k"]%string 0 2 refusing in
  res o = Return None
  /\ requests (log o) = [GetObject "b" ["k"]%string (Some (0, 2))].
Proof.
  destruct (get_byte_range_single_attempt remote_io "b" ["k"]%string 0 2
              refusing eq_refl) as (Hreq & _ & Hnone & _).
  split; [exact (Hnone "AccessDenied"%string eq_refl)|exact Hreq].
Defined.

(** C2 with the third part arriving first. *)
Lemma parallel_upload_parts_ascending_witness :
  requests (log (put_bytes_mpu_mp remote_io "b" ["k"]%string payload5 2
                   [2; 0; 1] quiet))
  = [CreateMultipartUpload "b" ["k"]%string;
     UploadPart "b" ["k"]%string 0 3 [x05];
     UploadPart "b" ["k"]%string 0 1 [x01; x02];
     UploadPart "b" ["k"]%string 0 2 [x03; x04];
     CompleteMultipartUpload "b" ["k"]%string 0
       [(1, "etag"); (2, "etag"); (3, "etag")]%string].
Proof.
  destruct (parallel_upload_parts_ascending remote_io "b" ["k"]%string payload5
              (block_size := 2) [2; 0; 1] quiet) as [Hreq _].
  - reflexivity.
  - lia.
  - reflexivity.
  - intros p _. reflexivity.
  - exact Hreq.
Defined.

(** C3 as stated fails: a part upload fails, the failure is raised, and
    no abort call has been made. *)
Lemma parallel_upload_failure_without_abort :
  let o := put_bytes_mpu_mp remote_io "b" ["k"]%string payload5 2 [2; 0; 1]
             resetting in
  res o = Raise (TransportError "connection reset")
  /\ requests (log o)
     = [CreateMultipartUpload "b" ["k"]%string;
        UploadPart "b" ["k"]%string 0 3 [x05];
        UploadPart "b" ["k"]%string 0 1 [x01; x02];
        UploadPart "b" ["k"]%string 0 2 [x03; x04]]
  /\ existsb is_abort (requests (log o)) = false.
Proof. repeat split. Qed.

(** C3 on a run where two part uploads fail: part 3 arrives first and
    fails, part 1 arrives second and fails too; the failure of part 3 is
    the one raised. *)
Lemma parallel_upload_failure_no_abort_witness :
  let o := put_bytes_mpu_mp remote_io "b" ["k"]%string payload5 2 [2; 0; 1]
             failing_twice in
  res o = Raise (TransportError "part3 failed")
  /\ S3.find_upload (uploads (final o)) 0 <> None.
Proof.
  destruct (parallel_upload_failure_no_abort remote_io "b" ["k"]%string payload5
              (block_size := 2) [2; 0; 1] failing_twice) as [_ Hfail].
  - reflexivity.
  - lia.
  - reflexivity.
  - destruct (Hfail eq_refl 0 (TransportError "part3 failed"))
      as (Hres & _ & Hopen).
    + cbn. lia.
    + intros q Hq. lia.
    + reflexivity.
    + split; [exact Hres|exact Hopen].
Defined.

(** C6 fails on the code: the workers read from offset 0 of the object,
    not from [s3_start], and clip their last block to the object's size,
    not to [s3_end].  Of a four-byte object the range [2,4) comes back as
    bytes 0 and 1; of a five-byte object the range [0,3) with block size 2
    makes the second worker's write fail. *)
Theorem get_byte_range_mp_misreads_range :
  res (get_bytes remote_io "b" ["k"]%string false stored4) = Return (Some payload4)
  /\ py_slice payload4 2 4 = [x03; x04]
  /\ res (get_byte_range remote_io "b" ["k"]%string 2 4 stored4)
     = Return (Some [x03; x04])
  /\ res (get_byte_range_mp remote_io "b" ["k"]%string 2 4 2 [0] stored4)
     = Return (Some [x01; x02])
  /\ res (get_byte_range_mp remote_io "b" ["k"]%string 0 3 2 [0; 1] stored5)
     = Raise (ValueError "could not broadcast input array").
Proof. repeat split. Qed.

(** C8 fails on the code: the local listing takes no account of
    [max_keys].  With three objects and [max_keys] 2 the remote backend
    answers two keys and the local one all three; the local answer is the
    same for every [max_keys]. *)
Theorem list_objects_local_ignores_max_keys :
  res (list_objects remote_io "b" [] 2 remote3)
  = Return [["a"]; ["c"; "d"]]%string
  /\ res (list_objects local_io "b" [] 2 local3)
     = Return [["a"]; ["c"; "d"]; ["e"]]%string
  /\ (forall self s3_bucket prefix m1 m2 w,
        enable_s3 self = false ->
        list_objects self s3_bucket prefix m1 w
        = list_objects self s3_bucket prefix m2 w).
Proof.
  split; [reflexivity|]. split; [reflexivity|].
  intros self s3_bucket prefix m1 m2 w Hl. unfold list_objects. now rewrite Hl.
Qed.

(** C7 fails on the code: the walk that removes the directories left
    empty does not stop at the bucket's directory.  Deleting the only
    object of bucket "b" removes the directory of the bucket, so that
    [bucket_exists] answers [False] afterwards; when "b" is the only
    bucket the walk goes on above the root of the buckets and removes it
    too, so that [list_buckets] raises afterwards. *)
Theorem delete_objects_removes_bucket_root :
  let o := delete_objects local_io "b" [["d"; "k"]]%string local2 in
  let o1 := delete_objects local_io "b" [["k"]]%string local1 in
  res (bucket_exists (fun _ => ret tt) local_io "b" local2) = Return true
  /\ res o = Return [["d"; "k"]]%string
  /\ FS.lookup (disk (final o)) ["home"; "S3IO"; "b"]%string = None
  /\ res (bucket_exists (fun _ => ret tt) local_io "b" (final o)) = Return false
  /\ FS.is_dir (disk (final o)) ["home"; "S3IO"]%string = true
  /\ res (list_buckets (ret []) local_io local1) = Return ["b"]%string
  /\ res o1 = Return [["k"]]%string
  /\ disk (final o1) = [(["tmp"]%string, Dir)]
  /\ res (list_buckets (ret []) local_io (final o1))
     = Raise (OSError "iterdir: not a directory").
Proof. repeat split. Qed.

Lemma delete_objects_prunes_empty_ancestors_witness :
  exists deleted,
    res (delete_objects local_io "b" [["d"; "k"]]%string local2) = Return deleted
    /\ well_formed (disk (final (delete_objects local_io "b" [["d"; "k"]]%string
                                   local2))).
Proof.
  destruct (@delete_objects_prunes_empty_ancestors local_io "b"
              [["d"; "k"]]%string local2
              ["home"; "S3IO"; "other"; "x"]%string)
    as (deleted & Hres & _ & _ & _ & _ & _ & Hwf).
  - reflexivity.
  - apply well_formedb_sound. reflexivity.
  - reflexivity.
  - intros k [<-|[]]. discriminate.
  - exists deleted. split; [exact Hres|exact Hwf].
Defined.

(** C9 fails on the code: in local mode the multipart entry points do
    fall back to the single whole-object write, and the object reads back
    as the payload, but they answer [None], where the remote ones answer
    the completion response. *)
Theorem multipart_local_answers_none :
  let o := put_bytes_mpu local_io "b" ["k"]%string payload5 2 quiet in
  res o = Return None
  /\ res (put_bytes_mpu_mp local_io "b" ["k"]%string payload5 2 [2; 0; 1] quiet)
     = Return None
  /\ final o = final (put_bytes local_io "b" ["k"]%string payload5 quiet)
  /\ res (get_bytes local_io "b" ["k"]%string false (final o))
     = Return (Some payload5)
  /\ res (put_bytes_mpu remote_io "b" ["k"]%string payload5 2 quiet)
     = Return (Some (S3.mkResponse "b" ["k"]%string "etag"))
  /\ res (put_bytes_mpu_mp remote_io "b" ["k"]%string payload5 2 [2; 0; 1] quiet)
     = Return (Some (S3.mkResponse "b" ["k"]%string "etag")).
Proof. repeat split. Qed.



(** * Further properties of the class *)

(** ** Whole-object transfer: success after failures, round trips *)

Section TransferFacts.
Variables (s3_bucket : bucket) (s3_key : key).

Lemma find_object_stored os (data : bytes) :
  S3.find_object
    ((s3_bucket, s3_key, data)
     :: filter (fun o => negb (S3.same_object s3_bucket s3_key o)) os)
    s3_bucket s3_key
  = Some data.
Proof.
  unfold S3.find_object, S3.same_object. cbn [find fst snd].
  rewrite String.eqb_refl. unfold S3.key_eqb.
  destruct (list_eq_dec string_dec s3_key s3_key); [reflexivity|contradiction].
Qed.




Lemma get_object_outcome w :
  attempt (S3.get_object s3_bucket s3_key) w
  = mkOutcome
      (Return (match fault w (clock w) with
               | Some e => Raise e
               | None =>
                   match S3.find_object (objects w) s3_bucket s3_key with
                   | Some d => Return d
                   | None => Raise (ClientError "NoSuchKey")
                   end
               end))
      (set_clock (S (clock w)) w)
      [Request (GetObject s3_bucket s3_key None)].
Proof.
  unfold S3.get_object, S3.request, S3.load_object. run_monad.
  destruct (fault w (clock w)); cbn [res final log]; [reflexivity|].
  cbn [set_clock objects].
  destruct (S3.find_object (objects w) s3_bucket s3_key); reflexivity.
Qed.

Lemma get_bytes_attempts_fault_step a rest last_error w e :
  fault w (clock w) = Some e ->
  get_bytes_attempts (a :: rest) last_error s3_bucket s3_key w
  = let o := get_bytes_attempts rest (Some (str e)) s3_bucket s3_key
               (set_clock (S (clock w)) w) in
    mkOutcome (res o) (final o)
      (Request (GetObject s3_bucket s3_key None) :: get_failure_print e :: log o).
Proof.
  intros He. cbn [get_bytes_attempts]. unfold bind at 1.
  rewrite get_object_outcome, He. cbn [res final log].
  unfold bind at 1. unfold print, emit. cbn [res final log]. cbv zeta.
  destruct (res (get_bytes_attempts rest _ s3_bucket s3_key
                   (set_clock (S (clock w)) w))); reflexivity.
Qed.

Lemma get_bytes_attempts_success_step a rest last_error w d :
  fault w (clock w) = None ->
  S3.find_object (objects w) s3_bucket s3_key = Some d ->
  get_bytes_attempts (a :: rest) last_error s3_bucket s3_key w
  = mkOutcome (Return (Some d)) (set_clock (S (clock w)) w)
              [Request (GetObject s3_bucket s3_key None)].
Proof.
  intros Hf Hd. cbn [get_bytes_attempts]. unfold bind.
  rewrite get_object_outcome, Hf, Hd. reflexivity.
Qed.

Lemma get_bytes_attempts_first_success d j :
  forall attempts last_error w,
    S3.find_object (objects w) s3_bucket s3_key = Some d ->
    j < length attempts ->
    (forall i, i < j -> fault w (clock w + i) <> None) ->
    fault w (clock w + j) = None ->
    let o := get_bytes_attempts attempts last_error s3_bucket s3_key w in
    res o = Return (Some d)
    /\ requests (log o) = repeat (GetObject s3_bucket s3_key None) (S j)
    /\ forallb (fun e => negb (is_sleep e)) (log o) = true
    /\ objects (final o) = objects w.
Proof.
  induction j as [|j IH]; intros attempts last_error w Hd Hj Hfail Hok; cbv zeta;
    destruct attempts as [|a rest]; try (cbn in Hj; lia).
  - rewrite Nat.add_0_r in Hok.
    rewrite (get_bytes_attempts_success_step a rest last_error w Hok Hd).
    repeat split.
  - destruct (fault w (clock w)) as [e|] eqn:He.
    2:{ exfalso. apply (Hfail 0); [lia|]. now rewrite Nat.add_0_r. }
    rewrite (get_bytes_attempts_fault_step a rest last_error w He).
    cbv zeta. cbn [res final log].
    set (w' := set_clock (S (clock w)) w).
    destruct (IH rest (Some (str e)) w') as (Hres & Hreq & Hsl & Hobj).
    + exact Hd.
    + cbn in Hj. lia.
    + intros i Hi. cbn. replace (S (clock w + i)) with (clock w + S i) by lia.
      apply Hfail. lia.
    + cbn. replace (S (clock w + j)) with (clock w + S j) by lia. exact Hok.
    + split; [exact Hres|]. split; [|split; [|exact Hobj]].
      * cbn [requests flat_map app repeat]. f_equal. exact Hreq.
      * cbn [forallb is_sleep negb andb get_failure_print]. exact Hsl.
Qed.

Lemma get_bytes_remote_present (self : S3IO) d w use_new :
  enable_s3 self = true ->
  S3.find_object (objects w) s3_bucket s3_key = Some d ->
  fault w (clock w) = None ->
  res (get_bytes self s3_bucket s3_key use_new w) = Return (Some d).
Proof.
  intros Hs3 Hd Hf. unfold get_bytes. rewrite Hs3. destruct use_new.
  - unfold S3.download_fileobj, S3.request, S3.load_object. run_monad.
    rewrite Hf. cbn. now rewrite Hd.
  - apply (@get_bytes_attempts_first_success d 0 (seq 0 10) None w Hd).
    + cbn. lia.
    + intros i Hi. lia.
    + now rewrite Nat.add_0_r.
Qed.
End TransferFacts.







(** ** Ranged reads *)

Lemma py_slice_length_clipped {A} (l : list A) s e :
  length (py_slice l s e) = Nat.min e (length l) - s.
Proof. unfold py_slice. rewrite length_firstn, length_skipn. lia. Qed.

(** X4.  [get_byte_range] against [get_bytes], for an object that is
    there with content [d].  For a range with [s3_start < s3_end] that
    starts inside the object both backends return the slice
    [[s3_start:s3_end]] of what [get_bytes] returns, clipped to the
    object's length.  When such a range starts at or beyond the object's
    end, the remote backend returns [None] (the store refuses the range)
    and the local one the empty slice.  For an empty or reversed range
    ([s3_end <= s3_start]) the header sent to the store is malformed and
    the remote backend returns the whole object; the local backend returns
    nothing for an empty range, reads to the end of the file when the
    length is -1, and raises [ValueError] for any other negative length. *)
Theorem get_byte_range_is_slice_of_get_bytes (self : S3IO) (s3_bucket : bucket)
  (s3_key : key) (s3_start s3_end : nat) (d : bytes) (w : world) :
  (if enable_s3 self
   then S3.find_object (objects w) s3_bucket s3_key = Some d
        /\ fault w (clock w) = None
   else FS.exists_ (disk w) (file_path self ++ [s3_bucket]) = true
        /\ FS.lookup (disk w) ((file_path self ++ [s3_bucket]) ++ s3_key)
           = Some (File d)) ->
  let r := res (get_byte_range self s3_bucket s3_key s3_start s3_end w) in
  res (get_bytes self s3_bucket s3_key false w) = Return (Some d)
  /\ (s3_start < s3_end -> s3_start < length d ->
      r = Return (Some (py_slice d s3_start s3_end))
      /\ length (py_slice d s3_start s3_end)
         = Nat.min s3_end (length d) - s3_start)
  /\ (s3_start < s3_end -> length d <= s3_start ->
      r = if enable_s3 self then Return None else Return (Some []))
  /\ (s3_end <= s3_start ->
      r = if enable_s3 self then Return (Some d)
          else if s3_start =? s3_end then Return (Some [])
          else if s3_start =? s3_end + 1 then Return (Some (skipn s3_start d))
          else Raise (ValueError "read length must be non-negative or -1")).
Proof.
  intros H r.
  assert (Hr : r = if enable_s3 self
                   then if s3_end <=? s3_start then Return (Some d)
                        else if length d <=? s3_start then Return None
                        else Return (Some (py_slice d s3_start s3_end))
                   else match FS.read_range d s3_start s3_end with
                        | Return x => Return (Some x)
                        | Raise e => Raise e
                        end).
  { unfold r, get_byte_range.
    destruct (enable_s3 self) eqn:Hs3; destruct H as [H1 H2].
    - unfold S3.get_object_range, S3.request, S3.load_object. run_monad.
      rewrite H2. cbn [res final log set_clock objects]. rewrite H1.
      destruct (s3_end <=? s3_start); cbn [res final log]; [reflexivity|].
      destruct (length d <=? s3_start); reflexivity.
    - assert (Hex : FS.exists_ (disk w) ((file_path self ++ [s3_bucket]) ++ s3_key)
                    = true) by (unfold FS.exists_; now rewrite H2).
      unfold bind at 1, get_world at 1. cbn [res final log].
      rewrite H1, Hex. cbn [andb negb]. unfold FS.read_bytes. rewrite H2.
      cbn [lift ret raise bind res final log]. unfold bind.
      cbn [res final log].
      destruct (FS.read_range d s3_start s3_end); reflexivity. }
  split; [|split; [|split]].
  - destruct (enable_s3 self) eqn:Hs3; destruct H as [H1 H2].
    + now apply get_bytes_remote_present.
    + now rewrite (get_bytes_local_present self s3_bucket s3_key w Hs3 false H1 H2).
  - intros Hse Hs. split; [|apply py_slice_length_clipped].
    rewrite Hr. unfold FS.read_range.
    rewrite (proj2 (Nat.leb_gt s3_end s3_start)) by lia.
    rewrite (proj2 (Nat.leb_gt (length d) s3_start)) by lia.
    rewrite (proj2 (Nat.leb_le s3_start s3_end)) by lia.
    now destruct (enable_s3 self).
  - intros Hse Hs. rewrite Hr. unfold FS.read_range.
    rewrite (proj2 (Nat.leb_gt s3_end s3_start)) by lia.
    rewrite (proj2 (Nat.leb_le (length d) s3_start)) by lia.
    rewrite (proj2 (Nat.leb_le s3_start s3_end)) by lia.
    rewrite (proj2 (py_slice_nil_iff d s3_start s3_end)) by (right; exact Hs).
    reflexivity.
  - intros Hes. rewrite Hr. unfold FS.read_range.
    rewrite (proj2 (Nat.leb_le s3_end s3_start)) by lia.
    destruct (enable_s3 self); [reflexivity|].
    destruct (Nat.eqb_spec s3_start s3_end) as [->|Hne].
    + now rewrite Nat.leb_refl, py_slice_empty.
    + rewrite (proj2 (Nat.leb_gt s3_start s3_end)) by lia.
      destruct (s3_start =? s3_end + 1); reflexivity.
Qed.

Lemma get_byte_range_is_slice_of_get_bytes_witness :
  res (get_byte_range remote_io "b" ["k"]%string 2 9 stored4)
  = Return (Some [x03; x04])
  /\ res (get_byte_range remote_io "b" ["k"]%string 2 2 stored4)
     = Return (Some payload4).
Proof.
  destruct (get_byte_range_is_slice_of_get_bytes remote_io "b" ["k"]%string 2 9
              payload4 stored4) as (_ & Hrange & _).
  - split; reflexivity.
  - destruct (get_byte_range_is_slice_of_get_bytes remote_io "b" ["k"]%string
                2 2 payload4 stored4) as (_ & _ & _ & Hempty).
    + split; reflexivity.
    + split; [apply Hrange; cbn; lia|apply Hempty; lia].
Defined.

(** ** Existence checks and listings *)

(** X5.  On the remote backend the existence checks answer [True] when
    the head request succeeds and [False], without raising, when it fails
    with the client error 404; a client error with another numeric code is
    raised again as [Exception("ClientError", code)], one whose code is not
    a number makes [int()] raise, and any other failure is raised as it
    is.  In every case the check does nothing beyond the head request.  On
    the local backend they look at the disk only: a bucket is a directory,
    an object a file, and nothing is raised. *)
Theorem existence_checks_translate_errors (head_bucket : bucket -> M unit)
  (head_object : bucket -> key -> M unit) (self : S3IO) (s3_bucket : bucket)
  (s3_key : key) (w : world) :
  let translated (head : M unit) (o : outcome bool) :=
    final o = final (head w) /\ log o = log (head w)
    /\ match res (head w) with
       | Return _ => res o = Return true
       | Raise (ClientError code) =>
           match py_int code with
           | Return n =>
               res o = if n =? 404 then Return false
                       else Raise (ClientErrorCode n)
           | Raise e => res o = Raise e
           end
       | Raise e => res o = Raise e
       end in
  (enable_s3 self = true ->
   translated (head_bucket s3_bucket) (bucket_exists head_bucket self s3_bucket w)
   /\ translated (head_object s3_bucket s3_key)
                 (object_exists head_object self s3_bucket s3_key w)
   /\ (res (head_bucket s3_bucket w) = Raise (ClientError "404") ->
       res (bucket_exists head_bucket self s3_bucket w) = Return false)
   /\ (res (head_object s3_bucket s3_key w) = Raise (ClientError "404") ->
       res (object_exists head_object self s3_bucket s3_key w) = Return false))
  /\ (enable_s3 self = false ->
      bucket_exists head_bucket self s3_bucket w
      = mkOutcome (Return (FS.is_dir (disk w) (file_path self ++ [s3_bucket])))
                  w []
      /\ object_exists head_object self s3_bucket s3_key w
         = mkOutcome
             (Return (FS.is_file (disk w)
                        ((file_path self ++ [s3_bucket]) ++ s3_key)))
             w []).
Proof.
  intros translated.
  assert (Hhead : forall head, translated head (exists_by_head head w)).
  { intros head. unfold translated, exists_by_head, bind, attempt, lift.
    cbn [res final log].
    destruct (head w) as [[[]|e] w1 l1]; cbn [res final log].
    - unfold ret. cbn. now rewrite app_nil_r.
    - destruct e; try (unfold raise; cbn; now rewrite ?app_nil_r).
      destruct (py_int code) as [n|e']; cbn [res final log ret raise].
      + destruct (n =? 404); cbn; now rewrite ?app_nil_r.
      + now rewrite ?app_nil_r. }
  split.
  - intros Hs3. unfold bucket_exists, object_exists. rewrite Hs3.
    split; [apply Hhead|]. split; [apply Hhead|]. split.
    + intros H404. destruct (Hhead (head_bucket s3_bucket)) as (_ & _ & H).
      rewrite H404 in H. exact H.
    + intros H404.
      destruct (Hhead (head_object s3_bucket s3_key)) as (_ & _ & H).
      rewrite H404 in H. exact H.
  - intros Hl. unfold bucket_exists, object_exists. rewrite Hl. run_monad.
    split; f_equal; f_equal.
    + unfold FS.exists_, FS.is_dir.
      destruct (FS.lookup (disk w) (file_path self ++ [s3_bucket])) as [[c|]|];
        reflexivity.
    + unfold FS.exists_, FS.is_file.
      destruct (FS.lookup (disk w) ((file_path self ++ [s3_bucket]) ++ s3_key))
        as [[c|]|]; reflexivity.
Qed.

Lemma existence_checks_translate_errors_witness :
  res (object_exists (fun _ _ => raise (ClientError "404")) remote_io "b"
         ["k"]%string quiet) = Return false
  /\ res (bucket_exists (fun _ => raise (ClientError "403")) remote_io "b" quiet)
     = Raise (ClientErrorCode 403)
  /\ res (bucket_exists (fun _ => ret tt) local_io "other" local2) = Return true.
Proof.
  destruct (existence_checks_translate_errors
              (fun _ => raise (ClientError "403"))
              (fun _ _ => raise (ClientError "404")) remote_io "b" ["k"]%string
              quiet) as [Hr _].
  destruct (existence_checks_translate_errors (fun _ => ret tt)
              (fun _ _ => ret tt) local_io "other" ["k"]%string local2)
    as [_ Hl].
  destruct (Hr eq_refl) as ((_ & _ & Hb) & _ & _ & Ho).
  destruct (Hl eq_refl) as [Hlb _].
  split; [exact (Ho eq_refl)|]. split; [exact Hb|]. now rewrite Hlb.
Defined.

Section ListingFacts.
Import FS.



Lemma in_children_iff fs d q :
  In q (children fs d) <-> (exists x, q = d ++ [x]) /\ lookup fs q <> None.
Proof.
  unfold children. rewrite in_map_iff. split.
  - intros ([q' n] & <- & Hin). apply filter_In in Hin. cbn in *.
    destruct Hin as [Hin Hc]. apply is_child_iff in Hc. split; [exact Hc|].
    destruct Hc as [x ->]. apply in_lookup with (n := n); [now destruct d|exact Hin].
  - intros [[x ->] Hl]. destruct (lookup fs (d ++ [x])) as [n|] eqn:Hn;
      [|contradiction].
    exists (d ++ [x], n). split; [reflexivity|]. apply filter_In. split.
    + apply lookup_in; [now destruct d|exact Hn].
    + cbn. apply is_child_iff. now exists x.
Qed.

Lemma list_buckets_local_spec fs (d : path) b :
  In b (List.map (fun f => last f ""%string)
                 (filter (fun f => is_dir fs f) (children fs d)))
  <-> is_dir fs (d ++ [b]) = true.
Proof.
  rewrite in_map_iff. split.
  - intros (q & <- & Hin). apply filter_In in Hin. destruct Hin as [Hin Hdir].
    apply in_children_iff in Hin. destruct Hin as [[x ->] _].
    now rewrite last_last.
  - intros Hdir. exists (d ++ [b]). split; [apply last_last|].
    apply filter_In. split; [|exact Hdir]. apply in_children_iff.
    split; [now exists b|]. apply is_dir_lookup in Hdir. congruence.
Qed.

End ListingFacts.



(** X7.  On the local backend, when the root of the buckets is a
    directory, [list_buckets] lists a name exactly when [bucket_exists]
    answers [True] for it; when the root is not a directory [list_buckets]
    raises, while [bucket_exists] still answers. *)
Theorem list_buckets_agrees_with_bucket_exists (client_list_buckets : M (list string))
  (head_bucket : bucket -> M unit) (self : S3IO) (w : world) :
  enable_s3 self = false ->
  (FS.is_dir (disk w) (file_path self) = true ->
   exists names,
     list_buckets client_list_buckets self w = mkOutcome (Return names) w []
     /\ forall b, In b names <->
                  res (bucket_exists head_bucket self b w) = Return true)
  /\ (FS.is_dir (disk w) (file_path self) = false ->
      exists e, res (list_buckets client_list_buckets self w) = Raise e).
Proof.
  intros Hl. split; intros Hroot.
  - exists (List.map (fun f => last f ""%string)
              (filter (fun f => FS.is_dir (disk w) f)
                      (FS.children (disk w) (file_path self)))).
    split.
    + unfold list_buckets, read_disk, FS.iterdir. rewrite Hl. run_monad.
      rewrite Hroot. reflexivity.
    + intros b. rewrite list_buckets_local_spec.
      unfold bucket_exists. rewrite Hl. run_monad.
      unfold FS.exists_, FS.is_dir.
      destruct (FS.lookup (disk w) (file_path self ++ [b])) as [[c|]|];
        cbn; split; congruence.
  - unfold list_buckets, read_disk, FS.iterdir. rewrite Hl. run_monad.
    rewrite Hroot. cbn. eauto.
Qed.

Lemma list_buckets_agrees_with_bucket_exists_witness :
  exists names,
    res (list_buckets (ret []) local_io local2) = Return names
    /\ In "other"%string names /\ ~ In "x"%string names.
Proof.
  destruct (list_buckets_agrees_with_bucket_exists (ret []) (fun _ => ret tt)
              local_io local2 eq_refl) as [Hok _].
  destruct (Hok eq_refl) as (names & Hrun & Hin).
  exists names. split; [now rewrite Hrun|]. split.
  - apply Hin. reflexivity.
  - intros Hx. apply Hin in Hx. discriminate Hx.
Defined.

(** ** Deleting and writing on the local backend *)

Lemma delete_objects_local_skips directory keys :
  forall fs resp,
    (forall k, In k keys -> FS.is_file fs (directory ++ k) = false) ->
    delete_objects_local directory keys (fs, resp) = Return (fs, resp).
Proof.
  induction keys as [|k rest IH]; intros fs resp Hno; [reflexivity|].
  cbn [delete_objects_local]. unfold delete_local_key.
  rewrite (Hno k (or_introl eq_refl)), andb_false_r. cbn [rbind].
  apply IH. intros k' Hk'. apply Hno. now right.
Qed.

Lemma delete_objects_local_nothing (self : S3IO) s3_bucket keys w :
  enable_s3 self = false ->
  (forall k, In k keys ->
             FS.is_file (disk w) ((file_path self ++ [s3_bucket]) ++ k) = false) ->
  delete_objects self s3_bucket keys w = mkOutcome (Return []) w [].
Proof.
  intros Hl Hno. unfold delete_objects. rewrite Hl. run_monad.
  rewrite delete_objects_local_skips by exact Hno. cbn.
  now destruct w.
Qed.

(** X8.  On the local backend [delete_objects] passes over every key that
    does not name a regular file (a missing path, a directory): when no key
    names a file it returns the empty list and changes nothing, whether or
    not the bucket's directory is there. *)
Theorem delete_objects_local_skips_absent_keys (self : S3IO) (s3_bucket : bucket)
  (keys : list key) (w : world) :
  enable_s3 self = false ->
  (forall k, In k keys ->
             FS.is_file (disk w) ((file_path self ++ [s3_bucket]) ++ k) = false) ->
  delete_objects self s3_bucket keys w = mkOutcome (Return []) w [].
Proof. apply delete_objects_local_nothing. Qed.

Lemma delete_objects_local_skips_absent_keys_witness :
  delete_objects local_io "b" [["c"]; ["zz"]]%string local3
  = mkOutcome (Return []) local3 [].
Proof.
  apply delete_objects_local_skips_absent_keys; [reflexivity|].
  intros k [<-|[<-|[]]]; reflexivity.
Defined.

(** X9.  Deleting is idempotent on the local backend: on a well-formed
    disk where some file outside the keys stays, a second [delete_objects]
    with the same keys finds nothing left to delete, returns the empty list
    and leaves the disk as the first call left it. *)
Theorem delete_objects_local_idempotent (self : S3IO) (s3_bucket : bucket)
  (keys : list key) (w : world) (s : list string) :
  enable_s3 self = false ->
  well_formed (disk w) ->
  FS.is_file (disk w) s = true ->
  (forall k, In k keys -> (file_path self ++ [s3_bucket]) ++ k <> s) ->
  let o := delete_objects self s3_bucket keys w in
  (exists deleted, res o = Return deleted)
  /\ delete_objects self s3_bucket keys (final o)
     = mkOutcome (Return []) (final o) [].
Proof.
  intros Hl Hwf Hs Hks o.
  destruct (@delete_objects_local_pruned (disk w) s
              (file_path self ++ [s3_bucket]) keys (disk w) []
              (@pruned_start (disk w) s Hwf Hs) Hks)
    as (fs' & resp' & Hrun & Hpr & Hresp).
  assert (Ho : o = mkOutcome (Return resp') (set_disk fs' w) []).
  { unfold o, delete_objects. rewrite Hl. run_monad. rewrite Hrun. reflexivity. }
  rewrite Ho. cbn [res final]. split; [now exists resp'|].
  apply delete_objects_local_nothing; [exact Hl|].
  cbn [disk set_disk]. intros k Hk.
  destruct (FS.is_file fs' ((file_path self ++ [s3_bucket]) ++ k)) eqn:Hfile;
    [exfalso|reflexivity].
  apply is_file_lookup in Hfile. destruct Hfile as [c Hc].
  destruct (@pr_sub _ _ _ _ _ Hpr ((file_path self ++ [s3_bucket]) ++ k))
    as [Hnone|Hsame]; [congruence|].
  rewrite Hc in Hsame. symmetry in Hsame.
  assert (Hin : In k resp').
  { apply Hresp. right. split; [exact Hk|].
    apply is_file_lookup. now exists c. }
  assert (Hgone : FS.lookup fs' ((file_path self ++ [s3_bucket]) ++ k) = None).
  { apply (@pr_files _ _ _ _ _ Hpr _ c Hsame). apply in_map_iff. now exists k. }
  congruence.
Qed.

Lemma delete_objects_local_idempotent_witness :
  let o := delete_objects local_io "b" [["a"]; ["c"; "d"]]%string local3 in
  (exists deleted, res o = Return deleted)
  /\ delete_objects local_io "b" [["a"]; ["c"; "d"]]%string (final o)
     = mkOutcome (Return []) (final o) [].
Proof.
  apply (@delete_objects_local_idempotent local_io "b"
           [["a"]; ["c"; "d"]]%string local3
           ["home"; "S3IO"; "b"; "e"]%string).
  - reflexivity.
  - apply well_formedb_sound. reflexivity.
  - reflexivity.
  - intros k [<-|[<-|[]]]; discriminate.
Defined.

Section LocalPutSeen.
Import FS.
Variables (self : S3IO) (s3_bucket : bucket) (s3_key : key) (data : bytes).
Hypothesis local : enable_s3 self = false.
Hypothesis key_nonempty : s3_key <> [].

Let directory := file_path self ++ [s3_bucket].

End LocalPutSeen.



(** ** Multipart uploads end to end *)

Lemma bind_returns {A B} (m : M A) (k : A -> M B) w a l1 :
  res (m w) = Return a -> log (m w) = l1 ->
  bind m k w
  = mkOutcome (res (k a (final (m w)))) (final (k a (final (m w))))
              (l1 ++ log (k a (final (m w)))).
Proof. intros Hres Hlog. unfold bind. rewrite Hres, Hlog. reflexivity. Qed.

Lemma bind_raises {A B} (m : M A) (k : A -> M B) w e :
  res (m w) = Raise e ->
  bind m k w = mkOutcome (Raise e) (final (m w)) (log (m w)).
Proof. intros Hres. unfold bind. rewrite Hres. reflexivity. Qed.

Lemma find_filter_other {A} (f g : A -> bool) l :
  (forall x, f x = true -> g x = true) -> find f (filter g l) = find f l.
Proof.
  intros H. induction l as [|a l IH]; [reflexivity|]. cbn [filter find].
  destruct (f a) eqn:Hf.
  - rewrite (H a Hf). cbn [find]. now rewrite Hf.
  - destruct (g a); cbn [find]; rewrite ?Hf; exact IH.
Qed.

Lemma ascending_seq n : forall a, S3.ascending (seq a n) = true.
Proof.
  induction n as [|n IH]; intros a; [reflexivity|].
  specialize (IH (S a)). destruct n as [|n]; [reflexivity|].
  change (S3.ascending (seq a (S (S n))))
    with ((a <? S a) && S3.ascending (seq (S a) (S n))).
  rewrite IH, andb_true_r. apply Nat.ltb_lt. lia.
Qed.

Lemma num_blocks_pos nbytes block_size :
  0 < block_size -> 0 < nbytes -> 0 < Chunking.num_blocks nbytes block_size.
Proof.
  intros HB HN. pose proof (@np_ceil_div_upper nbytes block_size HB) as H.
  unfold Chunking.num_blocks.
  destruct (np_ceil_div nbytes block_size); [cbn in H; lia|lia].
Qed.

Lemma drop_upload_closed us id : S3.find_upload (S3.drop_upload us id) id = None.
Proof.
  unfold S3.find_upload, S3.drop_upload.
  destruct (find _ (filter _ us)) as [u|] eqn:Hfind; [|reflexivity].
  apply find_some in Hfind. destruct Hfind as [Hin Hu].
  apply filter_In in Hin. destruct Hin as [_ Hne].
  rewrite Hu in Hne. discriminate.
Qed.

Section MultipartStore.
Variables (s3_bucket : bucket) (s3_key : key) (mpu : nat) (chunk : nat -> bytes).

Lemma upload_part_holds w i done :
  fault w (clock w) = None ->
  parts_held mpu chunk done w ->
  let o := S3.upload_part s3_bucket s3_key mpu (i + 1) (chunk i) w in
  res o = Return (etag_of w (chunk i))
  /\ parts_held mpu chunk (i :: done) (final o).
Proof.
  intros Hf (ps & Hps & Hall). cbv zeta.
  unfold S3.upload_part, S3.request. run_monad.
  rewrite Hf. cbn [res final log set_clock uploads]. rewrite Hps.
  cbn [res final log set_uploads set_clock uploads etag_of].
  split; [reflexivity|].
  unfold parts_held. cbn [uploads set_uploads]. rewrite find_upload_head.
  eexists. split; [reflexivity|].
  intros j [<-|Hj]; cbn [find fst].
  - now rewrite Nat.eqb_refl.
  - destruct (Nat.eqb_spec (i + 1) (j + 1)) as [E|NE].
    + assert (i = j) by lia. subst. reflexivity.
    + rewrite find_filter_other; [now apply Hall|].
      intros p Hp. apply Nat.eqb_eq in Hp. rewrite Hp.
      apply negb_true_iff, Nat.eqb_neq. lia.
Qed.

Lemma upload_part_frame w part_number body :
  let o := S3.upload_part s3_bucket s3_key mpu part_number body w in
  objects (final o) = objects w /\ shm (final o) = shm w.
Proof.
  cbv zeta. unfold S3.upload_part, S3.request. run_monad.
  destruct (fault w (clock w)); cbn [res final log set_clock uploads];
    [split; reflexivity|].
  destruct (S3.find_upload (uploads w) mpu); cbn [res final log];
    split; reflexivity.
Qed.

Lemma assemble_held etag ps l :
  (forall i, In i l -> find (fun p => fst p =? i + 1) ps = Some (i + 1, chunk i)) ->
  S3.assemble etag ps (List.map (fun i => (i + 1, etag (chunk i))) l)
  = Some (concat (List.map chunk l)).
Proof.
  induction l as [|i l IH]; intros H; [reflexivity|].
  cbn [List.map S3.assemble concat]. rewrite (H i (or_introl eq_refl)).
  rewrite IH by (intros j Hj; apply H; now right).
  now rewrite String.eqb_refl.
Qed.

Lemma complete_holds w n done :
  0 < n -> fault w (clock w) = None ->
  parts_held mpu chunk done w ->
  (forall i, i < n -> In i done) ->
  let parts := List.map (fun i => (i + 1, etag_of w (chunk i))) (seq 0 n) in
  let body := concat (List.map chunk (seq 0 n)) in
  S3.complete_multipart_upload s3_bucket s3_key mpu parts w
  = mkOutcome
      (Return (S3.mkResponse s3_bucket s3_key (etag_of w body)))
      (set_objects
         ((s3_bucket, s3_key, body)
          :: filter (fun o => negb (S3.same_object s3_bucket s3_key o))
                    (objects w))
         (set_uploads (S3.drop_upload (uploads w) mpu) (next_upload w)
                      (set_clock (S (clock w)) w)))
      [Request (CompleteMultipartUpload s3_bucket s3_key mpu parts)].
Proof.
  intros Hn Hf (ps & Hps & Hall) Hdone. cbv zeta.
  assert (Hasc : S3.ascending
                   (List.map fst
                      (List.map (fun i => (i + 1, etag_of w (chunk i))) (seq 0 n)))
                 = true).
  { rewrite map_map. cbn [fst].
    rewrite (map_ext (fun i => i + 1) S) by (intros; lia).
    rewrite seq_shift. apply ascending_seq. }
  unfold S3.complete_multipart_upload, S3.request, S3.store_object. run_monad.
  rewrite Hf. cbn [res final log set_clock uploads etag_of]. rewrite Hps, Hasc.
  cbn [negb].
  assert (Hasm : S3.assemble (etag_of w) ps
                   (List.map (fun i => (i + 1, etag_of w (chunk i))) (seq 0 n))
                 = Some (concat (List.map chunk (seq 0 n)))).
  { apply assemble_held. intros i Hi. apply Hall, Hdone.
    apply in_seq in Hi. lia. }
  destruct (List.map (fun i => (i + 1, etag_of w (chunk i))) (seq 0 n))
    as [|p l] eqn:Hparts.
  - destruct n; [lia|discriminate].
  - rewrite Hasm. reflexivity.
Qed.

(** A worker that uploads block [i] as part [i + 1], for tasks of any
    kind: [Inv] is what the worker needs of the world to get at its
    chunk. *)
Section Workers.
Context {T : Type}.
Variables (f : T -> M (nat * string)) (tasks : list T) (Inv : world -> Prop).
Hypothesis Inv_kept :
  forall w part_number body,
    Inv w -> Inv (final (S3.upload_part s3_bucket s3_key mpu part_number body w)).
Hypothesis f_uploads :
  forall i t w, nth_error tasks i = Some t -> Inv w ->
    let o := S3.upload_part s3_bucket s3_key mpu (i + 1) (chunk i) w in
    f t w = mkOutcome (match res o with
                       | Return etag => Return (i + 1, etag)
                       | Raise e => Raise e
                       end) (final o) (log o).

Lemma run_upload_tasks sched :
  forall w done,
    Forall (fun i => i < length tasks) sched ->
    (forall p, p < length sched -> fault w (clock w + p) = None) ->
    parts_held mpu chunk done w -> Inv w ->
    let o := Pool.run_tasks f tasks sched w in
    res o = Return (List.map (fun i => (i, Return (i + 1, etag_of w (chunk i))))
                             sched)
    /\ log o = List.map (fun i => Request (upload_request s3_bucket s3_key mpu chunk i))
                        sched
    /\ parts_held mpu chunk (rev sched ++ done) (final o)
    /\ objects (final o) = objects w
    /\ shm (final o) = shm w
    /\ clock (final o) = clock w + length sched
    /\ fault (final o) = fault w
    /\ etag_of (final o) = etag_of w
    /\ Inv (final o).
Proof.
  induction sched as [|i rest IH]; intros w done Hb Hff Hheld Hinv; cbv zeta.
  - cbn. repeat split; solve [assumption|lia|reflexivity].
  - inversion Hb as [|? ? Hi Hrest]; subst.
    destruct (nth_error tasks i) as [t|] eqn:Ht;
      [|apply nth_error_None in Ht; lia].
    destruct (@run_tasks_cons _ _ f tasks i t rest w Ht) as (arr & Harr & ->).
    cbn [res final log].
    assert (Hf0 : fault w (clock w) = None).
    { rewrite <- (Nat.add_0_r (clock w)). apply Hff. cbn. lia. }
    pose proof (@f_uploads i t w Ht Hinv) as Hft. cbv zeta in Hft.
    pose proof (upload_part_outcome s3_bucket s3_key mpu w (i + 1) (chunk i)) as H.
    cbv zeta in H. destruct H as (Hlog & Hclk & Hflt & Het & _ & _).
    destruct (upload_part_holds i Hf0 Hheld) as (Hres & Hh1).
    pose proof (upload_part_frame w (i + 1) (chunk i)) as Hfr. cbv zeta in Hfr.
    destruct Hfr as [Hobj1 Hshm1].
    pose proof (@Inv_kept w (i + 1) (chunk i) Hinv) as Hinv1.
    rewrite Hft in *. cbn [res final log] in *. rewrite Hres, Hlog in *.
    set (w1 := final (S3.upload_part s3_bucket s3_key mpu (i + 1) (chunk i) w)) in *.
    assert (Hff1 : forall p, p < length rest -> fault w1 (clock w1 + p) = None).
    { intros p Hp. rewrite Hflt, Hclk.
      replace (S (clock w) + p) with (clock w + S p) by lia.
      apply Hff. cbn. lia. }
    destruct (IH w1 (i :: done) Hrest Hff1 Hh1 Hinv1)
      as (Hr & Hl & Hh & Hobj & Hshm & Hc & Hfl & He & Hi').
    rewrite Hr in Harr. injection Harr as Harr. subst arr.
    rewrite Hl, Hobj, Hshm, Hc, Hfl, He, Het, Hobj1, Hshm1, Hflt, Hclk.
    cbn [rev List.map app length]. rewrite <- app_assoc.
    repeat split; solve [assumption|lia|reflexivity].
Qed.
End Workers.

(** The loop of the sequential uploader over the blocks [l]. *)
Lemma upload_parts_run l :
  forall w parts_dict done,
    (forall p, p < length l -> fault w (clock w + p) = None) ->
    parts_held mpu chunk done w ->
    let o := upload_parts s3_bucket s3_key mpu
               (List.map (fun i => (i + 1, chunk i)) l) parts_dict w in
    res o = Return (parts_dict
                    ++ List.map (fun i => (i + 1, etag_of w (chunk i))) l)
    /\ log o = List.map (fun i => Request (upload_request s3_bucket s3_key mpu chunk i))
                        l
    /\ parts_held mpu chunk (rev l ++ done) (final o)
    /\ objects (final o) = objects w
    /\ clock (final o) = clock w + length l
    /\ fault (final o) = fault w
    /\ etag_of (final o) = etag_of w.
Proof.
  induction l as [|i l IH]; intros w pd done Hff Hheld; cbv zeta.
  - cbn. rewrite app_nil_r. repeat split; solve [assumption|lia|reflexivity].
  - cbn [List.map upload_parts].
    assert (Hf0 : fault w (clock w) = None).
    { rewrite <- (Nat.add_0_r (clock w)). apply Hff. cbn. lia. }
    pose proof (upload_part_outcome s3_bucket s3_key mpu w (i + 1) (chunk i)) as H.
    cbv zeta in H. destruct H as (Hlog & Hclk & Hflt & Het & _ & _).
    destruct (upload_part_holds i Hf0 Hheld) as (Hres & Hh1).
    pose proof (upload_part_frame w (i + 1) (chunk i)) as Hfr. cbv zeta in Hfr.
    destruct Hfr as [Hobj1 _].
    rewrite (bind_returns _ _ _ Hres Hlog). cbn [res final log].
    set (w1 := final (S3.upload_part s3_bucket s3_key mpu (i + 1) (chunk i) w)) in *.
    assert (Hff1 : forall p, p < length l -> fault w1 (clock w1 + p) = None).
    { intros p Hp. rewrite Hflt, Hclk.
      replace (S (clock w) + p) with (clock w + S p) by lia.
      apply Hff. cbn. lia. }
    destruct (IH w1 (pd ++ [(i + 1, etag_of w (chunk i))]) (i :: done) Hff1 Hh1)
      as (Hr & Hl & Hh & Hobj & Hc & Hfl & He).
    rewrite Hr, Hl, Hobj, Hc, Hfl, He, Het, Hobj1, Hflt, Hclk.
    cbn [rev List.map app length]. rewrite <- !app_assoc.
    repeat split; solve [assumption|lia|reflexivity].
Qed.
End MultipartStore.

Lemma bind_runs {A B} (m : M A) (k : A -> M B) w a w1 l1 :
  m w = mkOutcome (Return a) w1 l1 ->
  bind m k w = mkOutcome (res (k a w1)) (final (k a w1)) (l1 ++ log (k a w1)).
Proof. intros Hm. unfold bind. rewrite Hm. reflexivity. Qed.

Lemma bind_ext_at {A B} (m : M A) (k k' : A -> M B) w :
  (forall a, res (m w) = Return a -> k a (final (m w)) = k' a (final (m w))) ->
  bind m k w = bind m k' w.
Proof.
  intros H. unfold bind. destruct (res (m w)) as [a|e]; [|reflexivity].
  now rewrite (H a eq_refl).
Qed.

Lemma py_slice_clip {A} (l : list A) a b :
  py_slice l a b = py_slice l a (Nat.min b (length l)).
Proof.
  unfold py_slice. destruct (Nat.le_gt_cases b (length l)) as [Hle|Hgt].
  - now rewrite Nat.min_l.
  - rewrite Nat.min_r by lia.
    rewrite !firstn_all2; [reflexivity| |]; rewrite length_skipn; lia.
Qed.

Lemma create_run s3_bucket s3_key w :
  fault w (clock w) = None ->
  S3.create_multipart_upload s3_bucket s3_key w
  = mkOutcome (Return (next_upload w))
      (set_uploads ((next_upload w, []) :: uploads w) (S (next_upload w))
                   (set_clock (S (clock w)) w))
      [Request (CreateMultipartUpload s3_bucket s3_key)].
Proof.
  intros Hf. unfold S3.create_multipart_upload, S3.request. run_monad.
  rewrite Hf. reflexivity.
Qed.

Section Blocks.
Variables (data : bytes) (block_size : nat).
Hypothesis block_size_pos : 0 < block_size.

Let n := Chunking.num_blocks (length data) block_size.
Let chunk i :=
  py_slice data (i * block_size) (Nat.min ((i + 1) * block_size) (length data)).

Lemma parts_as_blocks :
  Chunking.put_bytes_mpu_parts data block_size
  = List.map (fun i => (i + 1, chunk i)) (seq 0 n).
Proof.
  unfold Chunking.put_bytes_mpu_parts. apply map_ext. intros i.
  now rewrite block_range_min.
Qed.

Lemma chunks_as_blocks :
  Chunking.put_bytes_mpu_mp_chunks data block_size = List.map chunk (seq 0 n).
Proof.
  unfold Chunking.put_bytes_mpu_mp_chunks. apply map_ext. intros i.
  now rewrite block_range_min.
Qed.

Lemma blocks_concat : concat (List.map chunk (seq 0 n)) = data.
Proof.
  unfold chunk. rewrite slices_concat.
  rewrite Nat.min_r by (apply np_ceil_div_upper; exact block_size_pos).
  apply py_slice_all.
Qed.

Lemma block_tasks_nth i t :
  nth_error (combine (seq 0 n) (List.map chunk (seq 0 n))) i = Some t ->
  i < n /\ t = (i, chunk i).
Proof.
  intros Ht.
  assert (Hi : i < n).
  { assert (H : nth_error (combine (seq 0 n) (List.map chunk (seq 0 n))) i <> None)
      by congruence.
    apply nth_error_Some in H.
    rewrite length_combine, length_map, length_seq in H. lia. }
  split; [exact Hi|].
  pose proof (@nth_error_combine_seq _ (List.map chunk (seq 0 n)) [] i) as H.
  rewrite length_map, length_seq in H. rewrite (H Hi) in Ht.
  rewrite nth_map_seq in Ht by exact Hi. congruence.
Qed.
End Blocks.

Lemma work_put_uploads s3_bucket s3_key mpu i body w :
  let o := S3.upload_part s3_bucket s3_key mpu (i + 1) body w in
  work_put s3_bucket s3_key mpu (i, body) w
  = mkOutcome (match res o with
               | Return etag => Return (i + 1, etag)
               | Raise e => Raise e
               end) (final o) (log o).
Proof.
  cbv zeta. unfold work_put, bind, ret.
  destruct (S3.upload_part s3_bucket s3_key mpu (i + 1) body w) as [[etag|e] w1 l1];
    cbn [res final log]; now rewrite ?app_nil_r.
Qed.

Lemma work_put_shm_uploads array_name s3_bucket s3_key block_size mpu i content w :
  SA.find_array (shm w) array_name = Some content ->
  work_put_shm array_name s3_bucket s3_key block_size mpu i w
  = work_put s3_bucket s3_key mpu
      (i, py_slice content (i * block_size)
                   (Nat.min ((i + 1) * block_size) (length content))) w.
Proof.
  intros Harr. rewrite work_put_uploads. cbv zeta.
  rewrite <- py_slice_clip.
  unfold work_put_shm, SA.attach, SA.load, bind, get_world, ret.
  cbn [res final log]. rewrite Harr. cbn [res final log]. rewrite Harr.
  cbn [res final log app].
  destruct (S3.upload_part s3_bucket s3_key mpu (i + 1)
              (py_slice content (i * block_size) ((i + 1) * block_size)) w)
    as [[etag|e] w1 l1]; cbn [res final log]; now rewrite ?app_nil_r.
Qed.

Section MultipartRoundTrip.
Variables (self : S3IO) (s3_bucket : bucket) (s3_key : key).
Variables (data : bytes) (block_size : nat).
Hypothesis remote : enable_s3 self = true.
Hypothesis block_size_pos : 0 < block_size.
Hypothesis data_nonempty : data <> [].

Let n := Chunking.num_blocks (length data) block_size.
Let chunk i :=
  py_slice data (i * block_size) (Nat.min ((i + 1) * block_size) (length data)).

Lemma blocks_nonempty : 0 < n.
Proof.
  apply num_blocks_pos; [exact block_size_pos|].
  destruct data; [contradiction|cbn; lia].
Qed.

(** What completing the upload gives, once every block is held. *)
Lemma mpu_completes w w3 done :
  parts_held (next_upload w) chunk done w3 ->
  (forall i, i < n -> In i done) ->
  objects w3 = objects w -> etag_of w3 = etag_of w ->
  fault w3 (clock w3) = None ->
  S3.complete_multipart_upload s3_bucket s3_key (next_upload w)
    (List.map (fun i => (i + 1, etag_of w (chunk i))) (seq 0 n)) w3
  = mkOutcome
      (Return (S3.mkResponse s3_bucket s3_key (etag_of w data)))
      (set_objects
         ((s3_bucket, s3_key, data)
          :: filter (fun o => negb (S3.same_object s3_bucket s3_key o))
                    (objects w))
         (set_uploads (S3.drop_upload (uploads w3) (next_upload w)) (next_upload w3)
                      (set_clock (S (clock w3)) w3)))
      [Request (CompleteMultipartUpload s3_bucket s3_key (next_upload w)
                  (List.map (fun i => (i + 1, etag_of w (chunk i))) (seq 0 n)))].
Proof.
  intros Hheld Hdone Hobj Het Hf3.
  pose proof (@complete_holds s3_bucket s3_key (next_upload w) chunk w3 n done
                blocks_nonempty Hf3 Hheld Hdone) as H.
  cbv zeta in H. rewrite Het, Hobj in H.
  unfold chunk, n in H. rewrite (blocks_concat data block_size_pos) in H.
  exact H.
Qed.

Lemma put_bytes_mpu_run w :
  (forall p, p <= n + 1 -> fault w (clock w + p) = None) ->
  let mpu := next_upload w in
  let parts := List.map (fun i => (i + 1, etag_of w (chunk i))) (seq 0 n) in
  exists w3,
    fault w3 = fault w /\ clock w3 = clock w + n + 1
    /\ put_bytes_mpu self s3_bucket s3_key data block_size w
       = mkOutcome
           (Return (Some (S3.mkResponse s3_bucket s3_key (etag_of w data))))
           (set_objects
              ((s3_bucket, s3_key, data)
               :: filter (fun o => negb (S3.same_object s3_bucket s3_key o))
                         (objects w))
              (set_uploads (S3.drop_upload (uploads w3) mpu) (next_upload w3)
                           (set_clock (S (clock w3)) w3)))
           (Request (CreateMultipartUpload s3_bucket s3_key)
            :: List.map (fun i => Request (upload_request s3_bucket s3_key mpu chunk i))
                        (seq 0 n)
            ++ [Request (CompleteMultipartUpload s3_bucket s3_key mpu parts)]).
Proof.
  intros Hff mpu parts.
  assert (Hf0 : fault w (clock w) = None)
    by (rewrite <- (Nat.add_0_r (clock w)); apply Hff; lia).
  pose proof (create_run s3_bucket s3_key w Hf0) as Hc.
  remember (set_uploads ((next_upload w, []) :: uploads w) (S (next_upload w))
                        (set_clock (S (clock w)) w)) as w1 eqn:Hw1.
  assert (Hheld1 : parts_held mpu chunk [] w1).
  { exists []. subst w1. cbn [uploads set_uploads].
    split; [apply find_upload_head|intros i []]. }
  assert (Hfl1 : fault w1 = fault w) by (subst w1; reflexivity).
  assert (Hck1 : clock w1 = S (clock w)) by (subst w1; reflexivity).
  assert (Het1 : etag_of w1 = etag_of w) by (subst w1; reflexivity).
  assert (Hobj1 : objects w1 = objects w) by (subst w1; reflexivity).
  assert (Hff1 : forall p, p < length (seq 0 n) -> fault w1 (clock w1 + p) = None).
  { intros p Hp. rewrite length_seq in Hp. rewrite Hfl1, Hck1.
    replace (S (clock w) + p) with (clock w + S p) by lia. apply Hff. lia. }
  destruct (@upload_parts_run s3_bucket s3_key mpu chunk (seq 0 n) w1 [] []
              Hff1 Hheld1) as (Hr & Hl & Hh & Hobj & Hck & Hfl & Het).
  remember (final (upload_parts s3_bucket s3_key mpu
                     (List.map (fun i => (i + 1, chunk i)) (seq 0 n)) [] w1))
    as w3 eqn:Hw3.
  rewrite length_seq in Hck. rewrite Het1 in Hr. cbn [app] in Hr.
  assert (Hf3 : fault w3 (clock w3) = None).
  { rewrite Hfl, Hck, Hfl1, Hck1.
    replace (S (clock w) + n) with (clock w + (n + 1)) by lia. apply Hff. lia. }
  assert (Hcomp := @mpu_completes w w3 (rev (seq 0 n) ++ []) Hh
                     ltac:(intros i Hi; apply in_or_app; left; apply -> in_rev;
                           apply in_seq; lia)
                     ltac:(congruence) ltac:(congruence) Hf3).
  exists w3. split; [congruence|]. split; [lia|].
  unfold put_bytes_mpu. rewrite remote. cbn [negb].
  rewrite (bind_runs _ _ _ Hc). cbv beta.
  unfold mpu_num_blocks. rewrite (proj2 (Nat.eqb_neq block_size 0)) by lia.
  rewrite (bind_runs _ _ _
             (eq_refl : ret (Chunking.num_blocks (length data) block_size) w1
                        = mkOutcome (Return _) w1 [])).
  cbv beta. rewrite (parts_as_blocks data block_size). fold n chunk. fold mpu.
  rewrite (bind_returns _ _ _ Hr Hl). rewrite <- Hw3.
  rewrite (bind_runs _ _ _ Hcomp). cbn [res final log ret app].
  reflexivity.
Qed.

Lemma put_bytes_mpu_mp_stores sched w :
  Pool.is_schedule n sched = true ->
  (forall p, p <= n + 1 -> fault w (clock w + p) = None) ->
  let mpu := next_upload w in
  exists w3,
    fault w3 = fault w /\ clock w3 = clock w + n + 1
    /\ res (put_bytes_mpu_mp self s3_bucket s3_key data block_size sched w)
       = Return (Some (S3.mkResponse s3_bucket s3_key (etag_of w data)))
    /\ final (put_bytes_mpu_mp self s3_bucket s3_key data block_size sched w)
       = set_objects
           ((s3_bucket, s3_key, data)
            :: filter (fun o => negb (S3.same_object s3_bucket s3_key o))
                      (objects w))
           (set_uploads (S3.drop_upload (uploads w3) mpu) (next_upload w3)
                        (set_clock (S (clock w3)) w3)).
Proof.
  intros Hsched Hff mpu.
  assert (Hf0 : fault w (clock w) = None)
    by (rewrite <- (Nat.add_0_r (clock w)); apply Hff; lia).
  destruct (put_bytes_mpu_mp_run self s3_bucket s3_key data sched remote
              block_size_pos w Hf0) as (arr & Harr & Heq).
  rewrite (create_run s3_bucket s3_key w Hf0) in Harr, Heq. cbn [final] in Harr, Heq.
  remember (set_uploads ((next_upload w, []) :: uploads w) (S (next_upload w))
                        (set_clock (S (clock w)) w)) as w1 eqn:Hw1.
  assert (Hheld1 : parts_held mpu chunk [] w1).
  { exists []. subst w1. cbn [uploads set_uploads].
    split; [apply find_upload_head|intros i []]. }
  assert (Hfl1 : fault w1 = fault w) by (subst w1; reflexivity).
  assert (Hck1 : clock w1 = S (clock w)) by (subst w1; reflexivity).
  assert (Het1 : etag_of w1 = etag_of w) by (subst w1; reflexivity).
  assert (Hobj1 : objects w1 = objects w) by (subst w1; reflexivity).
  rewrite (chunks_as_blocks data block_size) in Harr, Heq. fold n chunk in Harr, Heq.
  fold mpu in Harr, Heq.
  set (tasks := combine (seq 0 n) (List.map chunk (seq 0 n))) in *.
  assert (Hlen : length tasks = n)
    by (unfold tasks; rewrite length_combine, length_map, length_seq; lia).
  assert (Hbound : Forall (fun i => i < length tasks) sched).
  { apply Forall_forall. intros i Hi. rewrite Hlen.
    apply is_schedule_bound with (sched := sched); assumption. }
  assert (Hff1 : forall p, p < length sched -> fault w1 (clock w1 + p) = None).
  { intros p Hp. rewrite (is_schedule_length _ _ Hsched) in Hp.
    rewrite Hfl1, Hck1.
    replace (S (clock w) + p) with (clock w + S p) by lia. apply Hff. lia. }
  destruct (@run_upload_tasks s3_bucket s3_key mpu chunk _
              (work_put s3_bucket s3_key mpu) tasks (fun _ => True)
              (fun _ _ _ _ => I)
              ltac:(intros i t w' Ht _;
                    destruct (@block_tasks_nth data block_size block_size_pos i t Ht)
                      as [_ ->];
                    apply work_put_uploads)
              sched w1 [] Hbound Hff1 Hheld1 I)
    as (Hr & _ & Hh & Hobj & _ & Hck & Hfl & Het & _).
  rewrite Hr in Harr. injection Harr as Harr. subst arr.
  rewrite first_failure_all_ok in Heq. cbv zeta in Heq.
  rewrite collect_all in Heq
    by (intros i Hi; apply is_schedule_complete with (n := n); assumption).
  remember (final (Pool.run_tasks (work_put s3_bucket s3_key mpu) tasks sched w1))
    as w3 eqn:Hw3.
  rewrite (is_schedule_length _ _ Hsched) in Hck.
  assert (Hf3 : fault w3 (clock w3) = None).
  { rewrite Hfl, Hck, Hfl1, Hck1.
    replace (S (clock w) + n) with (clock w + (n + 1)) by lia. apply Hff. lia. }
  rewrite Het1 in Heq.
  assert (Hcomp := @mpu_completes w w3 (rev sched ++ []) Hh
                     ltac:(intros i Hi; apply in_or_app; left; apply -> in_rev;
                           apply is_schedule_complete with (n := n); assumption)
                     ltac:(congruence) ltac:(congruence) Hf3).
  fold mpu in Hcomp. rewrite Hcomp in Heq. cbn [res final log] in Heq.
  exists w3. split; [congruence|]. split; [lia|].
  rewrite Heq. split; reflexivity.
Qed.
End MultipartRoundTrip.

Lemma outcome_eta {A} (o : outcome A) : mkOutcome (res o) (final o) (log o) = o.
Proof. now destruct o. Qed.

Lemma stored_payload_read (self : S3IO) s3_bucket s3_key (data : bytes) os us nu
  c w3 use_new :
  enable_s3 self = true ->
  fault w3 c = None ->
  let w' := set_objects
              ((s3_bucket, s3_key, data)
               :: filter (fun o => negb (S3.same_object s3_bucket s3_key o)) os)
              (set_uploads us nu (set_clock c w3)) in
  S3.find_object (objects w') s3_bucket s3_key = Some data
  /\ res (get_bytes self s3_bucket s3_key use_new w') = Return (Some data).
Proof.
  intros Hs3 Hf w'.
  assert (Hfind : S3.find_object (objects w') s3_bucket s3_key = Some data)
    by apply find_object_stored.
  split; [exact Hfind|].
  apply get_bytes_remote_present with (d := data); [exact Hs3|exact Hfind|].
  exact Hf.
Qed.

(** X11.  The sequential multipart uploader, for a non-empty payload, a
    block size B > 0 and requests that do not fail: it makes the initiate
    call, uploads the blocks [i*B, min((i+1)*B, N)) as parts 1, 2, ... in
    that order and completes the upload with the parts in that order; the
    upload is then closed, the object holds the payload, and [get_bytes]
    gives the payload back. *)
Theorem put_bytes_mpu_stores_payload (self : S3IO) (s3_bucket : bucket)
  (s3_key : key) (data : bytes) (block_size : nat) (w : world) :
  enable_s3 self = true ->
  0 < block_size ->
  data <> [] ->
  let n := Chunking.num_blocks (length data) block_size in
  let chunk i :=
    py_slice data (i * block_size) (Nat.min ((i + 1) * block_size) (length data)) in
  let mpu := next_upload w in
  (forall p, p <= n + 2 -> fault w (clock w + p) = None) ->
  let o := put_bytes_mpu self s3_bucket s3_key data block_size w in
  res o = Return (Some (S3.mkResponse s3_bucket s3_key (etag_of w data)))
  /\ requests (log o)
     = CreateMultipartUpload s3_bucket s3_key
       :: List.map (fun i => UploadPart s3_bucket s3_key mpu (i + 1) (chunk i))
                   (seq 0 n)
       ++ [CompleteMultipartUpload s3_bucket s3_key mpu
             (List.map (fun i => (i + 1, etag_of w (chunk i))) (seq 0 n))]
  /\ S3.find_object (objects (final o)) s3_bucket s3_key = Some data
  /\ S3.find_upload (uploads (final o)) mpu = None
  /\ forall use_new,
       res (get_bytes self s3_bucket s3_key use_new (final o)) = Return (Some data).
Proof.
  intros Hs3 HB Hdata n chunk mpu Hff o.
  assert (Hff' : forall p, p <= n + 1 -> fault w (clock w + p) = None)
    by (intros p Hp; apply Hff; lia).
  destruct (@put_bytes_mpu_run self s3_bucket s3_key data block_size Hs3 HB Hdata w
              Hff')
    as (w3 & Hfl & Hck & Heq).
  fold n chunk mpu in Heq. unfold o. rewrite Heq. cbn [res final log].
  assert (Hf : fault w3 (S (clock w3)) = None).
  { rewrite Hfl, Hck. pose proof (Hff (n + 2) (Nat.le_refl _)) as H2.
    unfold n in H2. rewrite <- H2. f_equal. lia. }
  split; [reflexivity|]. split; [|split; [|split]].
  - cbn [requests flat_map app]. f_equal.
    change (flat_map _ ?l) with (requests l).
    rewrite requests_app, requests_map_Request. reflexivity.
  - apply find_object_stored.
  - cbn [uploads set_objects set_uploads]. apply drop_upload_closed.
  - intros use_new.
    apply (@stored_payload_read self s3_bucket s3_key data (objects w) _ _ _ w3
             use_new Hs3 Hf).
Qed.

Lemma put_bytes_mpu_stores_payload_witness :
  res (put_bytes_mpu remote_io "b" ["k"]%string payload5 2 quiet)
  = Return (Some (S3.mkResponse "b" ["k"]%string (etag payload5)))
  /\ res (get_bytes remote_io "b" ["k"]%string false
            (final (put_bytes_mpu remote_io "b" ["k"]%string payload5 2 quiet)))
     = Return (Some payload5).
Proof.
  destruct (@put_bytes_mpu_stores_payload remote_io "b" ["k"]%string payload5 2
              quiet eq_refl ltac:(lia) ltac:(discriminate)
              ltac:(intros p _; reflexivity))
    as (Hres & _ & _ & _ & Hget).
  split; [exact Hres|apply Hget].
Defined.

(** X12.  The parallel multipart uploader stores what the sequential one
    stores: for a non-empty payload, B > 0 and requests that do not fail,
    whatever the order in which the pool's workers arrive, both return the
    same response and leave the same objects; the upload is closed, the
    object holds the payload, and [get_bytes] gives the payload back. *)
Theorem put_bytes_mpu_mp_agrees_with_put_bytes_mpu (self : S3IO)
  (s3_bucket : bucket) (s3_key : key) (data : bytes) (block_size : nat)
  (sched : list nat) (w : world) :
  enable_s3 self = true ->
  0 < block_size ->
  data <> [] ->
  let n := Chunking.num_blocks (length data) block_size in
  Pool.is_schedule n sched = true ->
  (forall p, p <= n + 2 -> fault w (clock w + p) = None) ->
  let o := put_bytes_mpu_mp self s3_bucket s3_key data block_size sched w in
  let o' := put_bytes_mpu self s3_bucket s3_key data block_size w in
  res o = Return (Some (S3.mkResponse s3_bucket s3_key (etag_of w data)))
  /\ res o = res o'
  /\ objects (final o) = objects (final o')
  /\ S3.find_object (objects (final o)) s3_bucket s3_key = Some data
  /\ S3.find_upload (uploads (final o)) (next_upload w) = None
  /\ forall use_new,
       res (get_bytes self s3_bucket s3_key use_new (final o)) = Return (Some data).
Proof.
  intros Hs3 HB Hdata n Hsched Hff o o'.
  assert (Hff' : forall p, p <= n + 1 -> fault w (clock w + p) = None)
    by (intros p Hp; apply Hff; lia).
  destruct (@put_bytes_mpu_run self s3_bucket s3_key data block_size Hs3 HB Hdata w
              Hff')
    as (w3' & _ & _ & Heq').
  destruct (@put_bytes_mpu_mp_stores self s3_bucket s3_key data block_size Hs3 HB
              Hdata sched w Hsched Hff')
    as (w3 & Hfl & Hck & Hres & Hfin).
  assert (Hf : fault w3 (S (clock w3)) = None).
  { rewrite Hfl, Hck. pose proof (Hff (n + 2) (Nat.le_refl _)) as H2.
    unfold n in H2. rewrite <- H2. f_equal. lia. }
  unfold o, o'. rewrite Heq', Hres, Hfin. cbn [res final].
  split; [reflexivity|]. split; [reflexivity|]. split; [reflexivity|].
  split; [apply find_object_stored|]. split.
  - cbn [uploads set_objects set_uploads]. apply drop_upload_closed.
  - intros use_new.
    apply (@stored_payload_read self s3_bucket s3_key data (objects w) _ _ _ w3
             use_new Hs3 Hf).
Qed.

Lemma put_bytes_mpu_mp_agrees_with_put_bytes_mpu_witness :
  res (put_bytes_mpu_mp remote_io "b" ["k"]%string payload5 2 [2; 0; 1] quiet)
  = res (put_bytes_mpu remote_io "b" ["k"]%string payload5 2 quiet)
  /\ res (get_bytes remote_io "b" ["k"]%string false
            (final (put_bytes_mpu_mp remote_io "b" ["k"]%string payload5 2
                      [2; 0; 1] quiet)))
     = Return (Some payload5).
Proof.
  destruct (@put_bytes_mpu_mp_agrees_with_put_bytes_mpu remote_io "b"
              ["k"]%string payload5 2 [2; 0; 1] quiet eq_refl ltac:(lia)
              ltac:(discriminate) eq_refl ltac:(intros p _; reflexivity))
    as (_ & Hres & _ & _ & _ & Hget).
  split; [exact Hres|apply Hget].
Defined.

(** ** The uploader from shared memory *)

Section SharedUpload.
Variables (array_name : string) (content : bytes).
Variables (s3_bucket : bucket) (s3_key : key) (block_size mpu : nat).

Let n := Chunking.num_blocks (length content) block_size.
Let chunks := Chunking.put_bytes_mpu_mp_chunks content block_size.

Lemma attach_load_run {B} (k : bytes -> M B) w :
  SA.find_array (shm w) array_name = Some content ->
  (shared_array <- SA.attach array_name;;
   data <- SA.load shared_array;; k data) w
  = k content w.
Proof.
  intros Harr. unfold SA.attach, SA.load, bind, get_world, ret.
  cbn [res final log]. rewrite Harr. cbn [res final log]. rewrite Harr.
  cbn [res final log app]. apply outcome_eta.
Qed.

Lemma work_put_keeps_shm w task :
  shm (final (work_put s3_bucket s3_key mpu task w)) = shm w.
Proof.
  destruct task as [i body]. rewrite work_put_uploads. cbn [final].
  apply upload_part_frame.
Qed.

Lemma run_tasks_from_array sched :
  forall w, SA.find_array (shm w) array_name = Some content ->
    Pool.run_tasks (work_put_shm array_name s3_bucket s3_key block_size mpu)
                   (seq 0 n) sched w
    = Pool.run_tasks (work_put s3_bucket s3_key mpu) (combine (seq 0 n) chunks)
                     sched w.
Proof.
  induction sched as [|i rest IH]; intros w Harr; [reflexivity|].
  cbn [Pool.run_tasks].
  assert (Hlen : length chunks = n)
    by (unfold chunks, Chunking.put_bytes_mpu_mp_chunks;
        now rewrite length_map, length_seq).
  destruct (Nat.lt_ge_cases i n) as [Hi|Hi].
  - assert (H1 : nth_error (seq 0 n) i = Some i).
    { rewrite nth_error_nth' with (d := 0) by now rewrite length_seq.
      now rewrite seq_nth. }
    assert (H2 : nth_error (combine (seq 0 n) chunks) i
                 = Some (i, py_slice content (i * block_size)
                              (Nat.min ((i + 1) * block_size) (length content)))).
    { pose proof (@nth_error_combine_seq _ chunks [] i) as H.
      rewrite Hlen in H. rewrite (H Hi). do 2 f_equal.
      unfold chunks, Chunking.put_bytes_mpu_mp_chunks. fold n.
      rewrite nth_map_seq by exact Hi. now rewrite block_range_min. }
    rewrite H1, H2. unfold bind at 1 3, attempt.
    rewrite (@work_put_shm_uploads array_name s3_bucket s3_key block_size mpu i
               content w Harr). cbn [res final log].
    unfold bind. rewrite IH; [reflexivity|]. now rewrite work_put_keeps_shm.
  - assert (H1 : nth_error (seq 0 n) i = None)
      by (apply nth_error_None; now rewrite length_seq).
    assert (H2 : nth_error (combine (seq 0 n) chunks) i = None)
      by (apply nth_error_None; rewrite length_combine, length_seq, Hlen; lia).
    rewrite H1, H2. now apply IH.
Qed.

Lemma pool_map_from_array sched w :
  SA.find_array (shm w) array_name = Some content ->
  Pool.map (work_put_shm array_name s3_bucket s3_key block_size mpu)
           (seq 0 n) sched w
  = Pool.map (work_put s3_bucket s3_key mpu) (combine (seq 0 n) chunks) sched w.
Proof.
  intros Harr. unfold Pool.map, bind. rewrite (@run_tasks_from_array sched w Harr).
  rewrite length_seq, length_combine, length_seq.
  replace (Nat.min n (length chunks)) with n; [reflexivity|].
  unfold chunks, Chunking.put_bytes_mpu_mp_chunks.
  rewrite length_map, length_seq. fold n. lia.
Qed.
End SharedUpload.

Lemma create_keeps_shm s3_bucket s3_key w :
  shm (final (S3.create_multipart_upload s3_bucket s3_key w)) = shm w.
Proof.
  unfold S3.create_multipart_upload, S3.request. run_monad.
  destruct (fault w (clock w)); reflexivity.
Qed.

(** X13.  The uploader from shared memory is the parallel uploader applied
    to the content of the array: when an array of that name exists, the
    two calls have the same result, make the same requests in the same
    order and leave the same state, on either backend, for every order of
    arrival of the workers and whatever requests fail. *)
Theorem put_bytes_mpu_mp_shm_uploads_array_content (self : S3IO)
  (s3_bucket : bucket) (s3_key : key) (array_name : string) (content : bytes)
  (block_size : nat) (sched : list nat) (w : world) :
  SA.find_array (shm w) array_name = Some content ->
  put_bytes_mpu_mp_shm self s3_bucket s3_key array_name block_size sched w
  = put_bytes_mpu_mp self s3_bucket s3_key content block_size sched w.
Proof.
  intros Harr. unfold put_bytes_mpu_mp_shm, put_bytes_mpu_mp.
  destruct (enable_s3 self); cbn [negb].
  - apply bind_ext_at. intros mpu _.
    assert (Harr1 : SA.find_array
                      (shm (final (S3.create_multipart_upload s3_bucket s3_key w)))
                      array_name = Some content)
      by now rewrite create_keeps_shm.
    rewrite (@attach_load_run array_name content _ _ _ Harr1).
    apply bind_ext_at. intros num_blocks Hnum.
    assert (Hw : final (mpu_num_blocks (length content) block_size
                          (final (S3.create_multipart_upload s3_bucket s3_key w)))
                 = final (S3.create_multipart_upload s3_bucket s3_key w)).
    { unfold mpu_num_blocks. now destruct (block_size =? 0). }
    assert (Hn : num_blocks = Chunking.num_blocks (length content) block_size).
    { unfold mpu_num_blocks in Hnum. destruct (block_size =? 0);
        cbn in Hnum; congruence. }
    rewrite Hw. subst num_blocks. unfold bind at 1 3.
    now rewrite (@pool_map_from_array array_name content s3_bucket s3_key block_size
                   mpu sched _ Harr1).
  - now rewrite (@attach_load_run array_name content _ _ _ Harr).
Qed.

Lemma put_bytes_mpu_mp_shm_uploads_array_content_witness :
  let w := set_shm [("S3IO_a"%string, payload5)] quiet in
  res (put_bytes_mpu_mp_shm remote_io "b" ["k"]%string "S3IO_a" 2 [1; 2; 0] w)
  = res (put_bytes_mpu_mp remote_io "b" ["k"]%string payload5 2 [1; 2; 0] w).
Proof.
  intros w.
  now rewrite (@put_bytes_mpu_mp_shm_uploads_array_content remote_io "b"
                 ["k"]%string "S3IO_a" payload5 2 [1; 2; 0] w eq_refl).
Defined.

(** X14.  A block size of zero.  The chunked transfers divide by the block
    size only after their first request: with [block_size] 0 both
    multipart uploaders raise [ZeroDivisionError] after the initiate call
    alone, and the upload they have just opened stays open; the parallel
    download raises it after its first read of the object, before any
    shared array is made. *)
Theorem zero_block_size_raises_after_first_request (self : S3IO)
  (s3_bucket : bucket) (s3_key : key) (data : bytes) (s3_start s3_end : nat)
  (sched : list nat) (w : world) :
  enable_s3 self = true ->
  fault w (clock w) = None ->
  let w1 := final (S3.create_multipart_upload s3_bucket s3_key w) in
  put_bytes_mpu self s3_bucket s3_key data 0 w
  = mkOutcome (Raise ZeroDivisionError) w1
              [Request (CreateMultipartUpload s3_bucket s3_key)]
  /\ put_bytes_mpu_mp self s3_bucket s3_key data 0 sched w
     = mkOutcome (Raise ZeroDivisionError) w1
                 [Request (CreateMultipartUpload s3_bucket s3_key)]
  /\ upload_open (next_upload w) w1
  /\ (S3.find_object (objects w) s3_bucket s3_key <> None ->
      get_byte_range_mp self s3_bucket s3_key s3_start s3_end 0 sched w
      = mkOutcome (Raise ZeroDivisionError) (set_clock (S (clock w)) w)
                  [Request (GetObject s3_bucket s3_key None)]).
Proof.
  intros Hs3 Hf w1.
  pose proof (create_run s3_bucket s3_key w Hf) as Hc.
  split; [|split; [|split]].
  - unfold put_bytes_mpu. rewrite Hs3. cbn [negb].
    rewrite (bind_runs _ _ _ Hc). unfold w1. rewrite Hc. reflexivity.
  - unfold put_bytes_mpu_mp. rewrite Hs3. cbn [negb].
    rewrite (bind_runs _ _ _ Hc). unfold w1. rewrite Hc. reflexivity.
  - unfold w1. rewrite Hc. unfold upload_open. cbn [final uploads set_uploads].
    rewrite find_upload_head. discriminate.
  - intros Hobj.
    destruct (S3.find_object (objects w) s3_bucket s3_key) as [d|] eqn:Hd;
      [|contradiction].
    unfold get_byte_range_mp. rewrite Hs3. cbn [negb].
    unfold S3.get_object, S3.request, S3.load_object. run_monad.
    rewrite Hf. cbn [res final log set_clock objects]. rewrite Hd. reflexivity.
Qed.

Lemma zero_block_size_raises_after_first_request_witness :
  res (put_bytes_mpu remote_io "b" ["k"]%string payload4 0 quiet)
  = Raise ZeroDivisionError
  /\ res (get_byte_range_mp remote_io "b" ["k"]%string 0 4 0 [] stored4)
     = Raise ZeroDivisionError.
Proof.
  destruct (@zero_block_size_raises_after_first_request remote_io "b"
              ["k"]%string payload4 0 4 [] quiet eq_refl eq_refl)
    as (Hput & _).
  destruct (@zero_block_size_raises_after_first_request remote_io "b"
              ["k"]%string payload4 0 4 [] stored4 eq_refl eq_refl)
    as (_ & _ & _ & Hget).
  split; [now rewrite Hput|]. rewrite Hget; [reflexivity|discriminate].
Defined.

(** ** The parallel download *)

Lemma find_array_head name (a : bytes) m :
  SA.find_array ((name, a) :: m) name = Some a.
Proof. unfold SA.find_array. cbn [find fst]. now rewrite String.eqb_refl. Qed.

Lemma drop_array_head name (a : bytes) m :
  SA.drop_array ((name, a) :: m) name = SA.drop_array m name.
Proof. unfold SA.drop_array. cbn [filter fst]. now rewrite String.eqb_refl. Qed.

Lemma drop_array_fresh m name :
  SA.find_array m name = None -> SA.drop_array m name = m.
Proof.
  unfold SA.find_array, SA.drop_array.
  induction m as [|[x a] m IH]; [reflexivity|].
  cbn [find filter fst]. destruct (String.eqb x name); cbn [negb option_map];
    [discriminate|].
  intros H. now rewrite IH.
Qed.

Lemma setslice_run (a d : bytes) s e :
  s <= e -> e <= length a -> length d = e - s ->
  SA.setslice a s e (Some d) = Return (firstn s a ++ d ++ skipn e a).
Proof.
  intros Hse He Hd. unfold SA.setslice. cbv zeta.
  rewrite (Nat.min_l s) by lia. rewrite (Nat.min_l e) by lia.
  rewrite (Nat.max_r s e) by lia. now rewrite Hd, Nat.eqb_refl.
Qed.

Lemma nth_written (a d : bytes) s e x z :
  s <= e -> e <= length a -> length d = e - s ->
  nth x (firstn s a ++ d ++ skipn e a) z
  = if (s <=? x) && (x <? e) then nth (x - s) d z else nth x a z.
Proof.
  intros Hse He Hd.
  assert (Hs : length (firstn s a) = s) by (rewrite length_firstn; lia).
  destruct (Nat.leb_spec s x); cbn [andb].
  - rewrite app_nth2 by lia. rewrite Hs. destruct (Nat.ltb_spec x e).
    + now rewrite app_nth1 by lia.
    + rewrite app_nth2 by lia. rewrite nth_skipn. f_equal. lia.
  - rewrite app_nth1 by lia. rewrite nth_firstn.
    destruct (Nat.ltb_spec x s); [reflexivity|lia].
Qed.

Lemma length_written (a d : bytes) s e :
  s <= e -> e <= length a -> length d = e - s ->
  length (firstn s a ++ d ++ skipn e a) = length a.
Proof.
  intros Hse He Hd. rewrite !length_app, length_firstn, length_skipn. lia.
Qed.

Lemma nth_py_slice {A} (l : list A) s e x z :
  s <= x < e -> nth (x - s) (py_slice l s e) z = nth x l z.
Proof.
  intros Hx. unfold py_slice. rewrite nth_firstn.
  destruct (Nat.ltb_spec (x - s) (e - s)); [|lia].
  rewrite nth_skipn. f_equal. lia.
Qed.

Lemma get_byte_range_present (self : S3IO) s3_bucket s3_key obj s e w :
  enable_s3 self = true ->
  fault w (clock w) = None ->
  S3.find_object (objects w) s3_bucket s3_key = Some obj ->
  s < e -> s < length obj ->
  get_byte_range self s3_bucket s3_key s e w
  = mkOutcome (Return (Some (py_slice obj s e))) (set_clock (S (clock w)) w)
              [Request (GetObject s3_bucket s3_key (Some (s, e)))].
Proof.
  intros Hs3 Hf Hobj Hse Hs. unfold get_byte_range. rewrite Hs3.
  unfold S3.get_object_range, S3.request, S3.load_object. run_monad.
  rewrite Hf. cbn [res final log set_clock objects]. rewrite Hobj.
  cbn [res final log].
  rewrite (proj2 (Nat.leb_gt e s)) by lia.
  rewrite (proj2 (Nat.leb_gt (length obj) s)) by lia. reflexivity.
Qed.

Lemma get_object_run s3_bucket s3_key obj w :
  fault w (clock w) = None ->
  S3.find_object (objects w) s3_bucket s3_key = Some obj ->
  S3.get_object s3_bucket s3_key w
  = mkOutcome (Return obj) (set_clock (S (clock w)) w)
              [Request (GetObject s3_bucket s3_key None)].
Proof.
  intros Hf Hobj. unfold S3.get_object, S3.request, S3.load_object. run_monad.
  rewrite Hf. cbn [res final log set_clock objects]. rewrite Hobj. reflexivity.
Qed.

Lemma generate_array_name_clock basename c w :
  generate_array_name basename (set_clock c w)
  = mkOutcome (res (generate_array_name basename w)) (set_clock c w) [].
Proof.
  unfold generate_array_name. run_monad. cbn [darwin uuid4 pid set_clock].
  now destruct (darwin w).
Qed.

Section ParallelDownload.
Variables (self : S3IO) (s3_bucket : bucket) (s3_key : key) (obj : bytes).
Variables (size block_size : nat) (name : string) (m0 : list (string * bytes)).
Hypothesis remote : enable_s3 self = true.
Hypothesis block_size_pos : 0 < block_size.
Hypothesis range_ok :
  size = length obj \/ (size <= length obj /\ size mod block_size = 0).
Hypothesis name_fresh : SA.find_array m0 name = None.

Let n := Chunking.num_blocks size block_size.
Let lo i := i * block_size.
Let hi i := Nat.min ((i + 1) * block_size) (length obj).

Lemma size_within : size <= length obj.
Proof. destruct range_ok as [E|[Hle _]]; lia. Qed.

Lemma block_within i : i < n -> lo i < hi i /\ hi i <= size.
Proof.
  intros Hi. unfold lo, hi.
  pose proof (@np_ceil_div_pred size block_size block_size_pos i Hi) as Hlt.
  destruct range_ok as [E|[Hle Hmod]].
  - rewrite E in *. lia.
  - assert (Hn : n * block_size = size).
    { unfold n, Chunking.num_blocks, np_ceil_div. rewrite Hmod. cbn [Nat.eqb].
      pose proof (Nat.div_mod_eq size block_size). lia. }
    assert ((i + 1) * block_size <= n * block_size) by nia. lia.
Qed.

Lemma array_write_run w (a d : bytes) s e :
  shm w = (name, a) :: m0 ->
  s <= e -> e <= length a -> length d = e - s ->
  (shared_array <- SA.attach name;;
   old <- SA.load shared_array;;
   new <- lift (SA.setslice old s e (Some d));;
   SA.store shared_array new) w
  = mkOutcome (Return tt)
              (set_shm ((name, firstn s a ++ d ++ skipn e a) :: m0) w) [].
Proof.
  intros Hshm Hse He Hd.
  unfold SA.attach, SA.load, SA.store, bind, get_world, put_world.
  cbn [res final log]. rewrite Hshm, find_array_head. cbn [res final log ret].
  rewrite Hshm, find_array_head. cbn [res final log ret].
  rewrite (@setslice_run a d s e Hse He Hd). cbn [lift ret res final log].
  rewrite Hshm, drop_array_head, (@drop_array_fresh m0 name name_fresh).
  reflexivity.
Qed.

Lemma work_get_run i w done :
  i < n ->
  fault w (clock w) = None ->
  S3.find_object (objects w) s3_bucket s3_key = Some obj ->
  array_filled name m0 obj size block_size done w ->
  let o := work_get self name s3_bucket s3_key (length obj) block_size i w in
  res o = Return tt
  /\ log o = [Request (GetObject s3_bucket s3_key (Some (lo i, hi i)))]
  /\ array_filled name m0 obj size block_size (i :: done) (final o)
  /\ objects (final o) = objects w
  /\ clock (final o) = S (clock w)
  /\ fault (final o) = fault w.
Proof.
  intros Hi Hf Hobj (a & Hshm & Hlen & Hfill). cbv zeta.
  destruct (block_within Hi) as (Hlh & Hhs).
  assert (Hend : (if length obj <? (i + 1) * block_size then length obj
                  else (i + 1) * block_size) = hi i).
  { unfold hi. destruct (Nat.ltb_spec (length obj) ((i + 1) * block_size)); lia. }
  assert (HhN : hi i <= length obj) by (unfold hi; lia).
  assert (Hd : length (py_slice obj (lo i) (hi i)) = hi i - lo i)
    by (apply py_slice_length; exact HhN).
  unfold work_get. rewrite Hend. fold (lo i).
  rewrite (bind_runs _ _ _
             (@get_byte_range_present self s3_bucket s3_key obj (lo i) (hi i) w
                remote Hf Hobj Hlh ltac:(lia))).
  cbv beta.
  rewrite (@array_write_run (set_clock (S (clock w)) w) a
             (py_slice obj (lo i) (hi i)) (lo i) (hi i) Hshm
             (Nat.lt_le_incl _ _ Hlh) ltac:(lia) Hd).
  cbn [res final log app objects clock fault set_shm set_clock].
  do 2 (split; [reflexivity|]). split; [|repeat split].
  exists (firstn (lo i) a ++ py_slice obj (lo i) (hi i) ++ skipn (hi i) a).
  split; [reflexivity|]. split; [rewrite length_written; lia|].
  intros j x Hj Hx. rewrite nth_written by lia.
  destruct ((lo i <=? x) && (x <? hi i)) eqn:Hin.
  - apply andb_true_iff in Hin. destruct Hin as [H1 H2].
    apply Nat.leb_le in H1. apply Nat.ltb_lt in H2.
    apply nth_py_slice. lia.
  - destruct Hj as [<-|Hj]; [|now apply Hfill with (j := j)].
    apply andb_false_iff in Hin. fold (lo i) (hi i) in Hx.
    destruct Hin as [H1|H1]; [apply Nat.leb_gt in H1|apply Nat.ltb_ge in H1]; lia.
Qed.

Lemma run_tasks_get sched :
  forall w done,
    Forall (fun i => i < n) sched ->
    (forall p, p < length sched -> fault w (clock w + p) = None) ->
    S3.find_object (objects w) s3_bucket s3_key = Some obj ->
    array_filled name m0 obj size block_size done w ->
    let o := Pool.run_tasks
               (work_get self name s3_bucket s3_key (length obj) block_size)
               (seq 0 n) sched w in
    res o = Return (List.map (fun i => (i, Return tt)) sched)
    /\ log o = List.map (fun i => Request (GetObject s3_bucket s3_key
                                             (Some (lo i, hi i)))) sched
    /\ array_filled name m0 obj size block_size (rev sched ++ done) (final o)
    /\ objects (final o) = objects w
    /\ clock (final o) = clock w + length sched
    /\ fault (final o) = fault w.
Proof.
  induction sched as [|i rest IH]; intros w done Hb Hff Hobj Hfill; cbv zeta.
  - cbn. repeat split; solve [assumption|lia|reflexivity].
  - inversion Hb as [|? ? Hi Hrest]; subst.
    assert (Ht : nth_error (seq 0 n) i = Some i).
    { rewrite nth_error_seq. destruct (Nat.ltb_spec i n); [reflexivity|lia]. }
    destruct (@run_tasks_cons _ _
                (work_get self name s3_bucket s3_key (length obj) block_size)
                (seq 0 n) i i rest w Ht) as (arr & Harr & ->).
    cbn [res final log].
    assert (Hf0 : fault w (clock w) = None).
    { rewrite <- (Nat.add_0_r (clock w)). apply Hff. cbn. lia. }
    destruct (work_get_run Hi Hf0 Hobj Hfill)
      as (Hres & Hlog & Hfill1 & Hobj1 & Hclk & Hflt).
    set (w1 := final (work_get self name s3_bucket s3_key (length obj)
                        block_size i w)) in *.
    assert (Hff1 : forall p, p < length rest -> fault w1 (clock w1 + p) = None).
    { intros p Hp. rewrite Hflt, Hclk.
      replace (S (clock w) + p) with (clock w + S p) by lia.
      apply Hff. cbn. lia. }
    destruct (IH w1 (i :: done) Hrest Hff1 ltac:(congruence) Hfill1)
      as (Hr & Hl & Hfl & Ho & Hc & Hfa).
    rewrite Hr in Harr. injection Harr as Harr. subst arr.
    rewrite Hres, Hlog, Hl, Ho, Hc, Hfa, Hobj1, Hclk, Hflt.
    cbn [rev List.map app length]. rewrite <- app_assoc.
    repeat split; solve [assumption|lia|reflexivity].
Qed.

Lemma filled_all (a : bytes) :
  length a = size ->
  (forall j x, j < n -> lo j <= x < hi j -> nth x a Byte.x00 = nth x obj Byte.x00) ->
  a = py_slice obj 0 size.
Proof.
  intros Hlen Hfill. pose proof size_within as Hsz.
  apply nth_ext with (d := Byte.x00) (d' := Byte.x00).
  - rewrite py_slice_length by exact Hsz. lia.
  - intros x Hx. rewrite Hlen in Hx.
    pose proof (Nat.div_mod_eq x block_size) as Hdm.
    pose proof (Nat.mod_upper_bound x block_size ltac:(lia)) as Hub.
    pose proof (@np_ceil_div_upper size block_size block_size_pos) as Hup.
    rewrite (Hfill (x / block_size) x).
    + unfold py_slice. rewrite Nat.sub_0_r. cbn [skipn]. rewrite nth_firstn.
      destruct (Nat.ltb_spec x size); [reflexivity|lia].
    + unfold n, Chunking.num_blocks. nia.
    + unfold lo, hi. nia.
Qed.
End ParallelDownload.

(** X15.  The parallel download is right for a range that is not empty,
    starts at the first byte and ends at the object's end or at a multiple
    of the block size: when no request fails and the generated array name
    is free, for
    every block size B > 0 and every order of arrival of the workers,
    [get_byte_range_mp] returns the bytes that [get_byte_range] returns for
    that range, after one read of the whole object and one ranged read per
    block; the shared array it made is deleted again and the objects are
    untouched. *)
Theorem get_byte_range_mp_reads_from_start (self : S3IO) (s3_bucket : bucket)
  (s3_key : key) (obj : bytes) (s3_end block_size : nat) (sched : list nat)
  (name : string) (w : world) :
  enable_s3 self = true ->
  0 < block_size ->
  S3.find_object (objects w) s3_bucket s3_key = Some obj ->
  0 < s3_end ->
  s3_end = length obj \/ (s3_end <= length obj /\ s3_end mod block_size = 0) ->
  let n := Chunking.num_blocks s3_end block_size in
  Pool.is_schedule n sched = true ->
  (forall p, p <= n -> fault w (clock w + p) = None) ->
  res (generate_array_name
         ("S3IO" ++ "_" ++ s3_bucket ++ "_" ++ S3.key_str s3_key)%string w)
  = Return name ->
  SA.find_array (shm w) name = None ->
  let o := get_byte_range_mp self s3_bucket s3_key 0 s3_end block_size sched w in
  res o = Return (Some (py_slice obj 0 s3_end))
  /\ res o = res (get_byte_range self s3_bucket s3_key 0 s3_end w)
  /\ requests (log o)
     = GetObject s3_bucket s3_key None
       :: List.map (fun i => GetObject s3_bucket s3_key
                               (Some (i * block_size,
                                      Nat.min ((i + 1) * block_size) (length obj))))
                   sched
  /\ shm (final o) = shm w
  /\ objects (final o) = objects w.
Proof.
  intros Hs3 HB Hobj Hpos Hrange n Hsched Hff Hname Hfresh o. subst n.
  assert (Hf0 : fault w (clock w) = None)
    by (rewrite <- (Nat.add_0_r (clock w)); apply Hff; lia).
  pose proof (@get_object_run s3_bucket s3_key obj w Hf0 Hobj) as Hget.
  pose proof (generate_array_name_clock
                ("S3IO" ++ "_" ++ s3_bucket ++ "_" ++ S3.key_str s3_key)%string
                (S (clock w)) w) as Hgen.
  rewrite Hname in Hgen.
  remember (set_clock (S (clock w)) w) as w1 eqn:Hw1.
  assert (Hshm1 : shm w1 = shm w) by (subst w1; reflexivity).
  assert (Hcreate : SA.create name s3_end w1
                    = mkOutcome (Return tt)
                        (set_shm ((name, repeat Byte.x00 s3_end) :: shm w) w1) []).
  { unfold SA.create. run_monad. rewrite Hshm1, Hfresh. reflexivity. }
  remember (set_shm ((name, repeat Byte.x00 s3_end) :: shm w) w1) as w2 eqn:Hw2.
  assert (Hshm2 : shm w2 = (name, repeat Byte.x00 s3_end) :: shm w)
    by (subst w2; reflexivity).
  assert (Hfill2 : array_filled name (shm w) obj s3_end block_size [] w2).
  { exists (repeat Byte.x00 s3_end). split; [exact Hshm2|].
    split; [apply repeat_length|intros j x []]. }
  assert (Hattach : SA.attach name w2 = mkOutcome (Return name) w2 []).
  { unfold SA.attach. run_monad. rewrite Hshm2, find_array_head. reflexivity. }
  assert (Hobj2 : S3.find_object (objects w2) s3_bucket s3_key = Some obj)
    by (subst w2 w1; exact Hobj).
  assert (Hbound : Forall (fun i => i < Chunking.num_blocks s3_end block_size) sched).
  { apply Forall_forall. intros i Hi.
    apply is_schedule_bound with (sched := sched); assumption. }
  assert (Hff2 : forall p, p < length sched -> fault w2 (clock w2 + p) = None).
  { intros p Hp. rewrite (is_schedule_length _ _ Hsched) in Hp.
    subst w2 w1. cbn [fault clock set_shm set_clock].
    replace (S (clock w) + p) with (clock w + S p) by lia. apply Hff. lia. }
  destruct (@run_tasks_get self s3_bucket s3_key obj s3_end block_size name
              (shm w) Hs3 HB Hrange Hfresh sched w2 [] Hbound Hff2 Hobj2 Hfill2)
    as (Hr & Hl & (a & Hshm3 & Hlen3 & Hfill3) & Hobj3 & _ & _).
  remember (final (Pool.run_tasks
                     (work_get self name s3_bucket s3_key (length obj) block_size)
                     (seq 0 (Chunking.num_blocks s3_end block_size)) sched w2)) as w3 eqn:Hw3 in *.
  assert (Ha : a = py_slice obj 0 s3_end).
  { apply (@filled_all obj s3_end block_size HB Hrange a Hlen3).
    intros j x Hj Hx. apply Hfill3 with (j := j); [|exact Hx].
    apply in_or_app. left. apply -> in_rev.
    apply is_schedule_complete with (n := Chunking.num_blocks s3_end block_size); assumption. }
  assert (Hmap : exists vs,
             Pool.map (work_get self name s3_bucket s3_key (length obj) block_size)
                      (seq 0 (Chunking.num_blocks s3_end block_size)) sched w2
             = mkOutcome (Return vs) w3
                 (List.map (fun i => Request (GetObject s3_bucket s3_key
                                                (Some (i * block_size,
                                                       Nat.min ((i + 1) * block_size)
                                                               (length obj)))))
                           sched)).
  { eexists. unfold Pool.map. rewrite (bind_returns _ _ _ Hr Hl).
    rewrite first_failure_all_ok. cbn [ret res final log].
    rewrite app_nil_r, <- Hw3. reflexivity. }
  destruct Hmap as [vs Hmap].
  assert (Hload : SA.load name w3 = mkOutcome (Return a) w3 []).
  { unfold SA.load. run_monad. rewrite Hshm3, find_array_head. reflexivity. }
  assert (Hdelete : SA.delete name w3
                    = mkOutcome (Return tt) (set_shm (shm w) w3) []).
  { unfold SA.delete. run_monad. rewrite Hshm3, find_array_head.
    rewrite drop_array_head, (@drop_array_fresh (shm w) name Hfresh).
    reflexivity. }
  assert (Heq : o = mkOutcome (Return (Some a)) (set_shm (shm w) w3)
                      (Request (GetObject s3_bucket s3_key None)
                       :: List.map
                            (fun i => Request (GetObject s3_bucket s3_key
                                                 (Some (i * block_size,
                                                        Nat.min ((i + 1) * block_size)
                                                                (length obj)))))
                            sched)).
  { unfold o, get_byte_range_mp. rewrite Hs3. cbn [negb].
    rewrite (bind_runs _ _ _ Hget). cbv beta. rewrite Nat.sub_0_r.
    unfold mpu_num_blocks. rewrite (proj2 (Nat.eqb_neq block_size 0)) by lia.
    rewrite (bind_runs _ _ _
               (eq_refl : ret (Chunking.num_blocks s3_end block_size) w1
                          = mkOutcome (Return _) w1 [])).
    cbv beta. rewrite (bind_runs _ _ _ Hgen). cbv beta.
    rewrite (bind_runs _ _ _ Hcreate). cbv beta.
    rewrite (bind_runs _ _ _ Hattach). cbv beta.
    rewrite (bind_runs _ _ _ Hmap). cbv beta.
    rewrite (bind_runs _ _ _ Hload). cbv beta.
    rewrite (bind_runs _ _ _ Hdelete). cbn [ret res final log app].
    rewrite app_nil_r. reflexivity. }
  rewrite Heq. cbn [res final log shm objects set_shm]. subst a.
  split; [reflexivity|]. split; [|split; [|split]].
  - assert (Hlen : 0 < length obj) by (destruct Hrange as [E|[Hle _]]; lia).
    now rewrite (@get_byte_range_present self s3_bucket s3_key obj 0 s3_end w
                   Hs3 Hf0 Hobj Hpos Hlen).
  - cbn [requests flat_map app]. f_equal.
    change (flat_map _ ?l) with (requests l).
    apply requests_map_Request with
      (g := fun i => GetObject s3_bucket s3_key
                       (Some (i * block_size,
                              Nat.min ((i + 1) * block_size) (length obj)))).
  - reflexivity.
  - rewrite Hobj3. subst w2 w1. reflexivity.
Qed.

Lemma get_byte_range_mp_reads_from_start_witness :
  res (get_byte_range_mp remote_io "b" ["k"]%string 0 5 2 [2; 0; 1] stored5)
  = Return (Some payload5).
Proof.
  destruct (@get_byte_range_mp_reads_from_start remote_io "b" ["k"]%string
              payload5 5 2 [2; 0; 1] "S3IO_b_k_uuid_1" stored5 eq_refl
              ltac:(lia) eq_refl ltac:(lia) (or_introl eq_refl) eq_refl
              ltac:(intros p _; reflexivity) eq_refl eq_refl)
    as (Hres & _).
  exact Hres.
Defined.

(** ** Clearing the shared arrays *)

Lemma find_array_drop_other m name other :
  other <> name ->
  SA.find_array (SA.drop_array m name) other = SA.find_array m other.
Proof.
  intros Hne. unfold SA.find_array, SA.drop_array. f_equal.
  apply find_filter_other. intros a Ha. apply String.eqb_eq in Ha.
  apply negb_true_iff, String.eqb_neq. congruence.
Qed.

Lemma find_array_listed m name :
  In name (List.map fst m) -> SA.find_array m name <> None.
Proof.
  unfold SA.find_array. intros Hin. apply in_map_iff in Hin.
  destruct Hin as ([x a] & <- & Hin). cbn [fst].
  destruct (find (fun a0 => String.eqb (fst a0) x) m) as [e|] eqn:Hfind;
    [discriminate|].
  apply (find_none _ _ Hfind) in Hin. cbn in Hin.
  now rewrite String.eqb_refl in Hin.
Qed.

Lemma filter_after_drop (m : list (string * bytes)) x rest :
  filter (fun a => negb (existsb (String.eqb (fst a)) rest)) (SA.drop_array m x)
  = filter (fun a => negb (existsb (String.eqb (fst a)) (x :: rest))) m.
Proof.
  unfold SA.drop_array. induction m as [|a m IHm]; [reflexivity|].
  cbn [filter existsb]. destruct (String.eqb (fst a) x); cbn [negb orb].
  - exact IHm.
  - cbn [filter]. destruct (negb (existsb (String.eqb (fst a)) rest));
      now rewrite IHm.
Qed.

Lemma for_each_delete names :
  forall w,
    NoDup names ->
    (forall x, In x names -> SA.find_array (shm w) x <> None) ->
    for_each names SA.delete w
    = mkOutcome (Return tt)
        (set_shm (filter (fun a => negb (existsb (String.eqb (fst a)) names))
                         (shm w)) w)
        [].
Proof.
  induction names as [|x rest IH]; intros w Hnd Hin.
  - cbn.
    assert (E : filter (fun _ : string * bytes => true) (shm w) = shm w).
    { induction (shm w) as [|a m IHm]; [reflexivity|]. cbn. now rewrite IHm. }
    rewrite E. now destruct w.
  - inversion Hnd as [|? ? Hx Hrest]; subst.
    change (for_each (x :: rest) SA.delete)
      with (SA.delete x;; for_each rest SA.delete).
    assert (Hdel : SA.delete x w
                   = mkOutcome (Return tt) (set_shm (SA.drop_array (shm w) x) w) []).
    { unfold SA.delete. run_monad.
      destruct (SA.find_array (shm w) x) eqn:Hf; [reflexivity|].
      now apply Hin in Hf; [|left]. }
    rewrite (bind_runs _ _ _ Hdel).
    rewrite IH; [|exact Hrest|].
    + cbn [res final log app shm set_shm]. f_equal.
      now rewrite filter_after_drop.
    + intros y Hy. cbn [shm set_shm]. rewrite find_array_drop_other.
      * apply Hin. now right.
      * intros ->. contradiction.
Qed.

(** X16.  [delete_created_arrays] removes exactly the shared arrays whose
    name starts with "S3" or "DCCORE" and leaves every other array as it
    is; it prints the list of the names once, and a listing made
    afterwards is empty.  (The names of the arrays are distinct, as the
    entries of a directory are.) *)
Theorem delete_created_arrays_removes_prefixed (w : world) :
  NoDup (List.map fst (shm w)) ->
  let names := filter created_here (List.map fst (shm w)) in
  let o := delete_created_arrays w in
  res o = Return tt
  /\ log o = [Print names]
  /\ shm (final o) = filter (fun a => negb (created_here (fst a))) (shm w)
  /\ (forall name, created_here name = true ->
                   SA.find_array (shm (final o)) name = None)
  /\ (forall name, created_here name = false ->
                   SA.find_array (shm (final o)) name = SA.find_array (shm w) name)
  /\ res (list_created_arrays (final o)) = Return [].
Proof.
  intros Hnd names o.
  assert (Hlist : list_created_arrays w = mkOutcome (Return names) w [Print names]).
  { unfold list_created_arrays. run_monad. reflexivity. }
  assert (Hall : forall x, In x names -> SA.find_array (shm w) x <> None).
  { intros x Hx. apply filter_In in Hx. now apply find_array_listed. }
  assert (Hkeep : filter (fun a => negb (existsb (String.eqb (fst a)) names)) (shm w)
                  = filter (fun a => negb (created_here (fst a))) (shm w)).
  { apply filter_ext_in. intros a Ha. f_equal.
    destruct (created_here (fst a)) eqn:Hc.
    - apply existsb_exists. exists (fst a). split; [|apply String.eqb_refl].
      apply filter_In. split; [now apply in_map|exact Hc].
    - destruct (existsb (String.eqb (fst a)) names) eqn:He; [|reflexivity].
      apply existsb_exists in He. destruct He as (x & Hx & E).
      apply String.eqb_eq in E. subst x. apply filter_In in Hx.
      destruct Hx as [_ Hx]. congruence. }
  assert (Ho : o = mkOutcome (Return tt)
                     (set_shm (filter (fun a => negb (created_here (fst a))) (shm w))
                              w)
                     [Print names]).
  { unfold o, delete_created_arrays. rewrite (bind_runs _ _ _ Hlist).
    rewrite (@for_each_delete names w (NoDup_filter _ Hnd) Hall), Hkeep.
    reflexivity. }
  rewrite Ho. cbn [res final log shm set_shm].
  do 3 (split; [reflexivity|]). split; [|split].
  - intros name Hc. unfold SA.find_array.
    destruct (find _ (filter _ (shm w))) as [e|] eqn:Hfind; [|reflexivity].
    apply find_some in Hfind. destruct Hfind as [Hin E].
    apply filter_In in Hin. destruct Hin as [_ Hn].
    apply String.eqb_eq in E. rewrite E, Hc in Hn. discriminate.
  - intros name Hc. unfold SA.find_array. f_equal.
    apply find_filter_other. intros a Ha. apply String.eqb_eq in Ha.
    now rewrite Ha, Hc.
  - unfold list_created_arrays. run_monad. cbn [shm set_shm]. do 2 f_equal.
    destruct (filter created_here
                (List.map fst (filter (fun a => negb (created_here (fst a)))
                                      (shm w)))) as [|x l] eqn:E; [reflexivity|].
    assert (Hx : In x (x :: l)) by now left.
    rewrite <- E in Hx. apply filter_In in Hx. destruct Hx as [Hx Hc].
    apply in_map_iff in Hx. destruct Hx as (a & <- & Ha).
    apply filter_In in Ha. destruct Ha as [_ Ha]. rewrite Hc in Ha. discriminate.
Qed.

Lemma delete_created_arrays_removes_prefixed_witness :
  let w := set_shm [("S3IO_b_k"%string, payload4); ("other"%string, payload5);
                    ("DCCORE_x"%string, [])] quiet in
  shm (final (delete_created_arrays w)) = [("other"%string, payload5)].
Proof.
  intros w.
  destruct (@delete_created_arrays_removes_prefixed w) as (_ & _ & Hshm & _).
  - repeat constructor; cbn; intuition discriminate.
  - rewrite Hshm. reflexivity.
Defined.

(** ** Listing on the remote backend *)






(** ** A failing worker of the parallel download *)

Lemma run_tasks_invariant {A B} (f : A -> M B) (tasks : list A)
  (P : world -> Prop) :
  (forall t w, P w -> P (final (f t w))) ->
  forall sched w, P w -> P (final (Pool.run_tasks f tasks sched w)).
Proof.
  intros Hf. induction sched as [|i rest IH]; intros w Hw; [exact Hw|].
  cbn [Pool.run_tasks]. destruct (nth_error tasks i) as [t|] eqn:Ht;
    [|now apply IH].
  destruct (@run_tasks_cons _ _ f tasks i t rest w Ht) as (arr & _ & E).
  cbn [Pool.run_tasks] in E. rewrite Ht in E. rewrite E. cbn [final].
  apply IH. now apply Hf.
Qed.

Lemma get_byte_range_keeps_shm (self : S3IO) s3_bucket s3_key s e w :
  shm (final (get_byte_range self s3_bucket s3_key s e w)) = shm w.
Proof.
  unfold get_byte_range. destruct (enable_s3 self).
  - unfold S3.get_object_range, S3.request, S3.load_object. run_monad.
    destruct (fault w (clock w)) as [[]|]; cbn [res final log set_clock objects];
      try reflexivity.
    destruct (S3.find_object (objects w) s3_bucket s3_key) as [d|];
      cbn [res final log]; [|reflexivity].
    destruct (e <=? s); cbn [res final log]; [reflexivity|].
    destruct (length d <=? s); reflexivity.
  - run_monad.
    destruct (negb _); cbn [res final log]; [reflexivity|].
    destruct (FS.read_bytes _ _) as [content|];
      cbn [lift ret raise res final log]; [|reflexivity].
    destruct (FS.read_range content s e); reflexivity.
Qed.

Section FailingWorker.
Variables (self : S3IO) (name : string) (s3_bucket : bucket) (s3_key : key).
Variables (s3_max_size block_size : nat).
Hypothesis remote : enable_s3 self = true.

Lemma work_get_keeps_array i w :
  SA.find_array (shm w) name <> None ->
  SA.find_array
    (shm (final (work_get self name s3_bucket s3_key s3_max_size block_size i w)))
    name <> None.
Proof.
  intros Hw. unfold work_get. cbv zeta.
  set (s := i * block_size).
  set (e := if s3_max_size <? (i + 1) * block_size then s3_max_size
            else (i + 1) * block_size).
  pose proof (get_byte_range_keeps_shm self s3_bucket s3_key s e w) as Hs.
  unfold bind at 1.
  destruct (get_byte_range self s3_bucket s3_key s e w) as [[d|e'] w1 l1];
    cbn [res final log] in *; [|now rewrite Hs].
  rewrite <- Hs in Hw.
  unfold SA.attach, SA.load, SA.store, bind, get_world, put_world.
  cbn [res final log].
  destruct (SA.find_array (shm w1) name) as [a|] eqn:Ha; [|contradiction].
  cbn [ret res final log]. rewrite Ha. cbn [ret res final log].
  destruct (SA.setslice a s e d) as [a'|e'']; cbn [lift ret raise res final log].
  - cbn [shm set_shm]. rewrite find_array_head. discriminate.
  - now rewrite Ha.
Qed.

Lemma work_get_fails i e w :
  fault w (clock w) = Some e ->
  exists e', res (work_get self name s3_bucket s3_key s3_max_size block_size i w)
             = Raise e'.
Proof.
  intros Hf. unfold work_get. cbv zeta.
  set (s := i * block_size).
  set (e_ := if s3_max_size <? (i + 1) * block_size then s3_max_size
             else (i + 1) * block_size).
  assert (Hg : get_byte_range self s3_bucket s3_key s e_ w
               = mkOutcome (match e with
                            | ClientError _ => Return None
                            | _ => Raise e
                            end)
                           (set_clock (S (clock w)) w)
                           [Request (GetObject s3_bucket s3_key (Some (s, e_)))]).
  { unfold get_byte_range. rewrite remote.
    unfold S3.get_object_range, S3.request. run_monad. rewrite Hf.
    now destruct e. }
  destruct e;
    try (eexists; rewrite bind_raises with (e := _) by (rewrite Hg; reflexivity);
         reflexivity).
  rewrite (bind_runs _ _ _ Hg). cbn [res].
  unfold SA.attach, SA.load, bind, get_world. cbn [res final log].
  destruct (SA.find_array (shm (set_clock (S (clock w)) w)) name) as [a|] eqn:Ha;
    cbn [ret raise res final log]; [|eauto].
  rewrite Ha. cbn [ret res final log SA.setslice lift raise]. eauto.
Qed.
End FailingWorker.

(** X18.  When the request of the first worker to run fails, the parallel
    download raises and leaves its shared array behind: the array is
    deleted only after a fan-out without failure.  Off macOS the name of
    the array starts with "S3", so it is one of those that
    [list_created_arrays] lists and [delete_created_arrays] removes. *)
Theorem get_byte_range_mp_failure_leaves_array (self : S3IO) (s3_bucket : bucket)
  (s3_key : key) (obj : bytes) (s3_start s3_end block_size : nat) (i : nat)
  (rest : list nat) (name : string) (e : exn) (w : world) :
  enable_s3 self = true ->
  0 < block_size ->
  S3.find_object (objects w) s3_bucket s3_key = Some obj ->
  fault w (clock w) = None ->
  fault w (S (clock w)) = Some e ->
  i < Chunking.num_blocks (s3_end - s3_start) block_size ->
  res (generate_array_name
         ("S3IO" ++ "_" ++ s3_bucket ++ "_" ++ S3.key_str s3_key)%string w)
  = Return name ->
  SA.find_array (shm w) name = None ->
  let o := get_byte_range_mp self s3_bucket s3_key s3_start s3_end block_size
             (i :: rest) w in
  (exists e', res o = Raise e')
  /\ SA.find_array (shm (final o)) name <> None
  /\ (darwin w = false -> created_here name = true).
Proof.
  intros Hs3 HB Hobj Hf0 Hf1 Hi Hname Hfresh o.
  pose proof (@get_object_run s3_bucket s3_key obj w Hf0 Hobj) as Hget.
  pose proof (generate_array_name_clock
                ("S3IO" ++ "_" ++ s3_bucket ++ "_" ++ S3.key_str s3_key)%string
                (S (clock w)) w) as Hgen.
  rewrite Hname in Hgen.
  remember (set_clock (S (clock w)) w) as w1 eqn:Hw1.
  assert (Hshm1 : shm w1 = shm w) by (subst w1; reflexivity).
  assert (Hcreate : SA.create name (s3_end - s3_start) w1
                    = mkOutcome (Return tt)
                        (set_shm ((name, repeat Byte.x00 (s3_end - s3_start))
                                  :: shm w) w1) []).
  { unfold SA.create. run_monad. rewrite Hshm1, Hfresh. reflexivity. }
  remember (set_shm ((name, repeat Byte.x00 (s3_end - s3_start)) :: shm w) w1)
    as w2 eqn:Hw2.
  assert (Hshm2 : shm w2 = (name, repeat Byte.x00 (s3_end - s3_start)) :: shm w)
    by (subst w2; reflexivity).
  assert (Harr2 : SA.find_array (shm w2) name <> None)
    by (rewrite Hshm2, find_array_head; discriminate).
  assert (Hattach : SA.attach name w2 = mkOutcome (Return name) w2 []).
  { unfold SA.attach. run_monad. rewrite Hshm2, find_array_head. reflexivity. }
  assert (Hf2 : fault w2 (clock w2) = Some e) by (subst w2 w1; exact Hf1).
  set (f := work_get self name s3_bucket s3_key (length obj) block_size).
  set (tasks := seq 0 (Chunking.num_blocks (s3_end - s3_start) block_size)).
  assert (Ht : nth_error tasks i = Some i).
  { unfold tasks. rewrite nth_error_seq.
    destruct (Nat.ltb_spec i (Chunking.num_blocks (s3_end - s3_start) block_size));
      [reflexivity|lia]. }
  destruct (@work_get_fails self name s3_bucket s3_key (length obj) block_size
              Hs3 i e w2 Hf2) as [e' He'].
  fold f in He'.
  destruct (@run_tasks_cons _ _ f tasks i i rest w2 Ht) as (arr & _ & Hrun).
  rewrite He' in Hrun.
  assert (Hkept : SA.find_array
                    (shm (final (Pool.run_tasks f tasks (i :: rest) w2))) name
                  <> None).
  { apply run_tasks_invariant
      with (P := fun w' => SA.find_array (shm w') name <> None);
      [|exact Harr2].
    intros t w' Hw'. apply work_get_keeps_array. exact Hw'. }
  assert (Hmap : Pool.map f tasks (i :: rest) w2
                 = mkOutcome (Raise e')
                     (final (Pool.run_tasks f tasks (i :: rest) w2))
                     (log (Pool.run_tasks f tasks (i :: rest) w2))).
  { unfold Pool.map.
    rewrite (bind_returns _ _ _ (f_equal (@res _) Hrun) eq_refl).
    cbn [Pool.first_failure raise res final log]. now rewrite app_nil_r. }
  assert (Heq : exists l,
             o = mkOutcome (Raise e')
                   (final (Pool.run_tasks f tasks (i :: rest) w2)) l).
  { eexists. unfold o, get_byte_range_mp. rewrite Hs3. cbn [negb].
    rewrite (bind_runs _ _ _ Hget). cbv beta.
    unfold mpu_num_blocks. rewrite (proj2 (Nat.eqb_neq block_size 0)) by lia.
    rewrite (bind_runs _ _ _
               (eq_refl : ret (Chunking.num_blocks (s3_end - s3_start) block_size)
                              w1
                          = mkOutcome (Return _) w1 [])).
    cbv beta. rewrite (bind_runs _ _ _ Hgen). cbv beta.
    rewrite (bind_runs _ _ _ Hcreate). cbv beta.
    rewrite (bind_runs _ _ _ Hattach). cbv beta.
    fold f tasks.
    rewrite bind_raises with (e := e') by (rewrite Hmap; reflexivity).
    rewrite Hmap. cbn [res final log]. reflexivity. }
  destruct Heq as [l Heq]. rewrite Heq. cbn [res final].
  split; [now exists e'|]. split; [exact Hkept|].
  intros Hd. unfold generate_array_name in Hname. revert Hname. run_monad.
  rewrite Hd. cbn [res]. intros E. injection E as E. subst name. reflexivity.
Qed.

Lemma get_byte_range_mp_failure_leaves_array_witness :
  let w := mkWorld [("b", ["k"], payload5)]%string [] 0 etag
             (fun n => if n =? 1 then Some (TransportError "reset") else None)
             0 [] [] "uuid" "1" false in
  let o := get_byte_range_mp remote_io "b" ["k"]%string 0 5 2 [1; 0; 2] w in
  (exists e', res o = Raise e')
  /\ SA.find_array (shm (final o)) "S3IO_b_k_uuid_1" <> None.
Proof.
  intros w o.
  destruct (@get_byte_range_mp_failure_leaves_array remote_io "b" ["k"]%string
              payload5 0 5 2 1 [0; 2] "S3IO_b_k_uuid_1"
              (TransportError "reset") w eq_refl ltac:(lia) eq_refl eq_refl
              eq_refl ltac:(cbn; lia) eq_refl eq_refl)
    as (Hres & Harr & _).
  split; assumption.
Defined.

(** ** What the two multipart uploaders send *)

Lemma log_bind_ret {A B} (m : M A) (f : A -> B) w :
  log ((r <- m;; ret (f r)) w) = log (m w).
Proof.
  unfold bind, ret. destruct (res (m w)); cbn [log]; now rewrite ?app_nil_r.
Qed.

Section MultipartRequests.
Variables (self : S3IO) (s3_bucket : bucket) (s3_key : key).
Variables (data : bytes) (block_size : nat).
Hypothesis remote : enable_s3 self = true.
Hypothesis block_size_pos : 0 < block_size.

Let n := Chunking.num_blocks (length data) block_size.
Let chunk i :=
  py_slice data (i * block_size) (Nat.min ((i + 1) * block_size) (length data)).

Lemma put_bytes_mpu_requests w :
  (forall p, p <= n -> fault w (clock w + p) = None) ->
  requests (log (put_bytes_mpu self s3_bucket s3_key data block_size w))
  = CreateMultipartUpload s3_bucket s3_key
    :: List.map (fun i => UploadPart s3_bucket s3_key (next_upload w) (i + 1)
                            (chunk i))
                (seq 0 n)
    ++ [CompleteMultipartUpload s3_bucket s3_key (next_upload w)
          (List.map (fun i => (i + 1, etag_of w (chunk i))) (seq 0 n))].
Proof.
  intros Hff.
  assert (Hf0 : fault w (clock w) = None)
    by (rewrite <- (Nat.add_0_r (clock w)); apply Hff; lia).
  pose proof (create_run s3_bucket s3_key w Hf0) as Hc.
  remember (set_uploads ((next_upload w, []) :: uploads w) (S (next_upload w))
                        (set_clock (S (clock w)) w)) as w1 eqn:Hw1.
  assert (Hheld1 : parts_held (next_upload w) chunk [] w1).
  { exists []. subst w1. cbn [uploads set_uploads].
    split; [apply find_upload_head|intros i []]. }
  assert (Hff1 : forall p, p < length (seq 0 n) -> fault w1 (clock w1 + p) = None).
  { intros p Hp. rewrite length_seq in Hp. subst w1.
    cbn [fault clock set_uploads set_clock].
    replace (S (clock w) + p) with (clock w + S p) by lia. apply Hff. lia. }
  destruct (@upload_parts_run s3_bucket s3_key (next_upload w) chunk (seq 0 n) w1
              [] [] Hff1 Hheld1) as (Hr & Hl & _ & _ & _ & _ & _).
  assert (Het1 : etag_of w1 = etag_of w) by (subst w1; reflexivity).
  rewrite Het1 in Hr. cbn [app] in Hr.
  unfold put_bytes_mpu. rewrite remote. cbn [negb].
  rewrite (bind_runs _ _ _ Hc). cbv beta.
  unfold mpu_num_blocks. rewrite (proj2 (Nat.eqb_neq block_size 0)) by lia.
  rewrite (bind_runs _ _ _
             (eq_refl : ret (Chunking.num_blocks (length data) block_size) w1
                        = mkOutcome (Return _) w1 [])).
  cbv beta. rewrite (parts_as_blocks data block_size). fold n chunk.
  rewrite (bind_returns _ _ _ Hr Hl). cbn [res final log app].
  rewrite log_bind_ret, complete_log.
  cbn [requests flat_map app]. f_equal.
  change (flat_map _ ?l) with (requests l).
  rewrite requests_app,
    (requests_map_Request (upload_request s3_bucket s3_key (next_upload w) chunk)).
  reflexivity.
Qed.

Lemma put_bytes_mpu_mp_requests sched w :
  Pool.is_schedule n sched = true ->
  (forall p, p <= n -> fault w (clock w + p) = None) ->
  requests (log (put_bytes_mpu_mp self s3_bucket s3_key data block_size sched w))
  = CreateMultipartUpload s3_bucket s3_key
    :: List.map (fun i => UploadPart s3_bucket s3_key (next_upload w) (i + 1)
                            (chunk i))
                sched
    ++ [CompleteMultipartUpload s3_bucket s3_key (next_upload w)
          (List.map (fun i => (i + 1, etag_of w (chunk i))) (seq 0 n))].
Proof.
  intros Hsched Hff.
  assert (Hf0 : fault w (clock w) = None)
    by (rewrite <- (Nat.add_0_r (clock w)); apply Hff; lia).
  destruct (put_bytes_mpu_mp_run self s3_bucket s3_key data sched remote
              block_size_pos w Hf0) as (arr & Harr & Heq).
  rewrite (create_run s3_bucket s3_key w Hf0) in Harr, Heq.
  cbn [final] in Harr, Heq.
  remember (set_uploads ((next_upload w, []) :: uploads w) (S (next_upload w))
                        (set_clock (S (clock w)) w)) as w1 eqn:Hw1.
  assert (Hheld1 : parts_held (next_upload w) chunk [] w1).
  { exists []. subst w1. cbn [uploads set_uploads].
    split; [apply find_upload_head|intros i []]. }
  assert (Het1 : etag_of w1 = etag_of w) by (subst w1; reflexivity).
  rewrite (chunks_as_blocks data block_size) in Harr, Heq.
  fold n chunk in Harr, Heq.
  set (tasks := combine (seq 0 n) (List.map chunk (seq 0 n))) in *.
  assert (Hlen : length tasks = n)
    by (unfold tasks; rewrite length_combine, length_map, length_seq; lia).
  assert (Hbound : Forall (fun i => i < length tasks) sched).
  { apply Forall_forall. intros i Hi. rewrite Hlen.
    apply is_schedule_bound with (sched := sched); assumption. }
  assert (Hff1 : forall p, p < length sched -> fault w1 (clock w1 + p) = None).
  { intros p Hp. rewrite (is_schedule_length _ _ Hsched) in Hp. subst w1.
    cbn [fault clock set_uploads set_clock].
    replace (S (clock w) + p) with (clock w + S p) by lia. apply Hff. lia. }
  destruct (@run_upload_tasks s3_bucket s3_key (next_upload w) chunk _
              (work_put s3_bucket s3_key (next_upload w)) tasks (fun _ => True)
              (fun _ _ _ _ => I)
              ltac:(intros i t w' Ht _;
                    destruct (@block_tasks_nth data block_size block_size_pos
                                i t Ht) as [_ ->];
                    apply work_put_uploads)
              sched w1 [] Hbound Hff1 Hheld1 I)
    as (Hr & Hl & _).
  rewrite Hr in Harr. injection Harr as Harr. subst arr.
  rewrite first_failure_all_ok in Heq. cbv zeta in Heq.
  rewrite collect_all in Heq
    by (intros i Hi; apply is_schedule_complete with (n := n); assumption).
  rewrite Heq. cbn [log]. rewrite Hl, Het1.
  cbn [requests flat_map app]. f_equal.
  change (flat_map _ ?l) with (requests l).
  rewrite requests_app,
    (requests_map_Request (upload_request s3_bucket s3_key (next_upload w) chunk)).
  reflexivity.
Qed.
End MultipartRequests.

(** C1.  For a payload given as bytes, of N >= 0 bytes, and a block size
    B > 0, multipart chunking gives exactly ceil(N/B) parts (the least k
    with N <= k*B, which is (N+B-1)/B); part i, counted from 0, covers
    [i*B, min((i+1)*B, N)); every byte offset below N lies in exactly one
    part, no part is empty or longer than B, and the parts concatenate to
    the payload.  These are the parts that both uploaders send: when no
    request fails, the sequential uploader uploads the slice of range i as
    part number i+1, for i = 0, 1, ... in that order, the parallel uploader
    uploads the same slices under the same part numbers in the order in
    which its workers arrive, and each uploads nothing else and completes
    the upload with the parts 1, 2, ... in that order. *)
Theorem multipart_chunking_tiles (self : S3IO) (s3_bucket : bucket)
  (s3_key : key) (data : bytes) (block_size : nat) (sched : list nat)
  (w : world) :
  0 < block_size ->
  let N := length data in
  let n := Chunking.num_blocks N block_size in
  let ranges := Chunking.chunk_ranges N block_size in
  let range i := nth i ranges (0, 0) in
  let slice i :=
    py_slice data (i * block_size) (Nat.min ((i + 1) * block_size) N) in
  let mpu := next_upload w in
  let upload i := UploadPart s3_bucket s3_key mpu (i + 1) (slice i) in
  let complete :=
    CompleteMultipartUpload s3_bucket s3_key mpu
      (List.map (fun i => (i + 1, etag_of w (slice i))) (seq 0 n)) in
  (n = (N + block_size - 1) / block_size
   /\ N <= n * block_size /\ forall k, N <= k * block_size -> n <= k)
  /\ length ranges = n
  /\ (forall i, i < n ->
        range i = (i * block_size, Nat.min ((i + 1) * block_size) N))
  /\ (forall x, x < N <-> exists i, i < n /\ Chunking.in_range (range i) x)
  /\ (forall i j x, i < n -> j < n ->
        Chunking.in_range (range i) x -> Chunking.in_range (range j) x -> i = j)
  /\ (forall i, i < n ->
        0 < snd (range i) - fst (range i) <= block_size)
  /\ Chunking.put_bytes_mpu_mp_chunks data block_size
     = List.map (fun r => py_slice data (fst r) (snd r)) ranges
  /\ Chunking.put_bytes_mpu_parts data block_size
     = combine (seq 1 n) (Chunking.put_bytes_mpu_mp_chunks data block_size)
  /\ concat (Chunking.put_bytes_mpu_mp_chunks data block_size) = data
  /\ concat (List.map slice (seq 0 n)) = data
  /\ (enable_s3 self = true ->
      (forall p, p <= n -> fault w (clock w + p) = None) ->
      requests (log (put_bytes_mpu self s3_bucket s3_key data block_size w))
      = CreateMultipartUpload s3_bucket s3_key
        :: List.map upload (seq 0 n) ++ [complete]
      /\ (Pool.is_schedule n sched = true ->
          requests (log (put_bytes_mpu_mp self s3_bucket s3_key data block_size
                           sched w))
          = CreateMultipartUpload s3_bucket s3_key
            :: List.map upload sched ++ [complete])).
Proof.
  intros HB N n ranges range slice mpu upload complete.
  pose proof (chunk_ranges_tile data HB) as H. cbv zeta in H.
  destruct H as (H1 & H2 & H3 & H4 & H5 & H6 & H7 & H8 & H9).
  refine (conj H1 (conj H2 (conj H3 (conj H4 (conj H5 (conj H6 (conj H7
            (conj H8 (conj H9 (conj _ _)))))))))).
  - apply (blocks_concat data HB).
  - intros Hs3 Hff. split.
    + apply (@put_bytes_mpu_requests self s3_bucket s3_key data block_size Hs3 HB
               w Hff).
    + intros Hsched.
      apply (@put_bytes_mpu_mp_requests self s3_bucket s3_key data block_size Hs3
               HB sched w Hsched Hff).
Qed.

(** C1 on five bytes cut into blocks of two, the third part arriving
    first in the parallel uploader. *)
Lemma multipart_chunking_tiles_witness :
  requests (log (put_bytes_mpu remote_io "b" ["k"]%string payload5 2 quiet))
  = [CreateMultipartUpload "b" ["k"]%string;
     UploadPart "b" ["k"]%string 0 1 [x01; x02];
     UploadPart "b" ["k"]%string 0 2 [x03; x04];
     UploadPart "b" ["k"]%string 0 3 [x05];
     CompleteMultipartUpload "b" ["k"]%string 0
       [(1, "etag"); (2, "etag"); (3, "etag")]%string]
  /\ requests (log (put_bytes_mpu_mp remote_io "b" ["k"]%string payload5 2
                      [2; 0; 1] quiet))
     = [CreateMultipartUpload "b" ["k"]%string;
        UploadPart "b" ["k"]%string 0 3 [x05];
        UploadPart "b" ["k"]%string 0 1 [x01; x02];
        UploadPart "b" ["k"]%string 0 2 [x03; x04];
        CompleteMultipartUpload "b" ["k"]%string 0
          [(1, "etag"); (2, "etag"); (3, "etag")]%string].
Proof.
  destruct (@multipart_chunking_tiles remote_io "b" ["k"]%string payload5 2
              [2; 0; 1] quiet ltac:(lia))
    as (_ & _ & _ & _ & _ & _ & _ & _ & _ & _ & Hsend).
  destruct (Hsend eq_refl ltac:(intros p _; reflexivity)) as [Hseq Hpar].
  split; [exact Hseq|exact (Hpar eq_refl)].
Defined.
